(** * Smart-home voice control: command interpretation and orchestration

    A shallow embedding of the core of [script.js] (class
    [SmartHomeVoiceControl]): the room normalizer, the ordered intent
    parser with its regular expressions, the device state store with its
    persistence, the scene executor, the timer manager and the
    orchestrator, together with the properties stated about them.

    Conventions of the embedding.
    - A JavaScript string is a [string]: a sequence of code units taken in
      U+0000..U+00FF.
    - A JavaScript number is a binary64 value.  The numbers that the
      program reads from an utterance are whole numbers that are not
      negative, or [Infinity] ([Num.number]): a product or a sum of them is
      rounded to the nearest value that binary64 holds.  The values of the
      store, the times and the delays that stay small are [Z]; the
      recognition confidence and the draws of [Math.random] are rationals
      ([Q]), and the delay computed from a draw is rounded as binary64
      rounds.
    - An object used as a table ([roomMap], [this.devices], [this.scenes])
      is a finite map over its own keys, read through the names that every
      object inherits from [Object.prototype]: a lookup of such a name
      gives the inherited member, which is no string.  The [Map]
      [this.activeTimers] is a finite map.
    - A call either returns or throws ([completion]); an exception that no
      handler catches ends the event handler and is reported by the host,
      which the log records as [Uncaught].  A write to an object of the
      host (an inherited member) is recorded as [Defaced] and not followed
      further.
    - [setTimeout] puts a callback, kept as a first-order [task], in the
      queue of pending callbacks with its due time; the host fires a
      pending callback later, one at a time.  The host keeps of a delay a
      signed whole number of 32 bits.
    - The constructor reads the storage: the device states, the history,
      the choice of the recognizer and whether the welcome was shown are
      parameters of [boot].
    - The calls that only touch the page ([updateDeviceUI], [console.log])
      leave no trace in the state; [speak] and [addToDebugPanel] are
      recorded in the feedback log.
    - [localStorage.setItem] succeeds; [saved] is the store as it is handed
      to [JSON.stringify]. *)

From Stdlib Require Import ZArith QArith Qround Qpower String Ascii List Bool Lia.
From stdpp Require Import base option gmap strings list fin_maps pretty.
Import ListNotations.

Local Open Scope Z_scope.

(** ** Strings *)

Module Str.

(** Code unit number of a character. *)
Definition code (c : ascii) : N := N_of_ascii c.

(** White space and line terminators below U+0100: what [\s] matches and
    what [trim] strips. *)
Definition is_space (c : ascii) : bool :=
  let n := code c in
  ((9 <=? n) && (n <=? 13) || (n =? 32) || (n =? 160))%N.

(** [\d] *)
Definition is_digit (c : ascii) : bool :=
  let n := code c in ((48 <=? n) && (n <=? 57))%N.

(** Line terminators, which [.] does not match. *)
Definition is_newline (c : ascii) : bool :=
  let n := code c in ((n =? 10) || (n =? 13))%N.

Definition lower (c : ascii) : ascii :=
  let n := code c in
  if ((65 <=? n) && (n <=? 90) ||
      (192 <=? n) && (n <=? 222) && negb (n =? 215))%N
  then ascii_of_N (n + 32) else c.

(** The upper-case mapping used to compare characters under the [i] flag:
    a character keeps its value when its upper case has no code unit
    below U+0100. *)
Definition upper (c : ascii) : ascii :=
  let n := code c in
  if ((97 <=? n) && (n <=? 122) ||
      (224 <=? n) && (n <=? 254) && negb (n =? 247))%N
  then ascii_of_N (n - 32) else c.

Fixpoint toLowerCase (s : string) : string :=
  match s with
  | EmptyString => EmptyString
  | String c s' => String (lower c) (toLowerCase s')
  end.

Fixpoint trimStart (s : string) : string :=
  match s with
  | String c s' => if is_space c then trimStart s' else s
  | EmptyString => EmptyString
  end.

Fixpoint trimEnd (s : string) : string :=
  match s with
  | EmptyString => EmptyString
  | String c s' =>
      match trimEnd s' with
      | EmptyString => if is_space c then EmptyString else String c EmptyString
      | t => String c t
      end
  end.

Definition trim (s : string) : string := trimEnd (trimStart s).

(** [s.startsWith(p)] *)
Fixpoint startsWith (s p : string) {struct p} : bool :=
  match p, s with
  | EmptyString, _ => true
  | String a p', String b s' => if Ascii.eqb a b then startsWith s' p' else false
  | String _ _, EmptyString => false
  end.

(** [s.includes(sub)] *)
Fixpoint includes (s sub : string) : bool :=
  if startsWith s sub then true
  else match s with
       | EmptyString => false
       | String _ s' => includes s' sub
       end.

Fixpoint drop (n : nat) (s : string) : string :=
  match n, s with
  | O, _ => s
  | S n', String _ s' => drop n' s'
  | S _, EmptyString => EmptyString
  end.

(** [s.replace(pat, rep)] with a string pattern: the first occurrence
    only. *)
Fixpoint replace (s pat rep : string) : string :=
  if startsWith s pat then rep +:+ drop (String.length pat) s
  else match s with
       | EmptyString => EmptyString
       | String c s' => String c (replace s' pat rep)
       end.

Definition digit_value (c : ascii) : Z := Z.of_N (code c) - 48.

Fixpoint parseInt_go (acc : Z) (s : string) : Z :=
  match s with
  | String c s' =>
      if is_digit c then parseInt_go (10 * acc + digit_value c) s' else acc
  | EmptyString => acc
  end.

(** The whole number that the leading digits of [s] write. *)
Definition decimal (s : string) : Z := parseInt_go 0 s.

Fixpoint all (p : ascii -> bool) (s : string) : bool :=
  match s with
  | EmptyString => true
  | String c s' => p c && all p s'
  end.

(** A non-empty string of decimal digits. *)
Definition digits1 (s : string) : bool :=
  match s with
  | EmptyString => false
  | _ => all is_digit s
  end.

(** The double quote, for the messages that quote the utterance. *)
Definition dquote : string := String (ascii_of_N 34) EmptyString.

End Str.

(** ** Numbers

    The numbers of the program are binary64 values.  Those that it reads
    from an utterance, and what it makes of them, are whole numbers that
    are not negative, or [Infinity]: a [number] is such a value.  The
    delay of a device response is the one number with a fraction; it is
    computed on rationals, rounded as binary64 rounds. *)

Module Num.

Inductive number : Type :=
| Int (n : Z)     (* a whole number that binary64 holds *)
| Infinity.

(** The whole number nearest to [n], for [0 <= n], among those that
    binary64 holds: the 53 leading bits are kept and the rest is rounded
    to nearest, a tie to the even neighbour. *)
Definition nearest (n : Z) : Z :=
  let e := Z.log2 n - 52 in
  if e <=? 0 then n
  else
    let q := Z.shiftr n e in
    let r := Z.land n (Z.ones e) in
    let half := Z.shiftl 1 (e - 1) in
    let q' := if (half <? r) || ((half =? r) && Z.odd q) then q + 1 else q in
    Z.shiftl q' e.

(** The number for the whole number [n]: a value that rounds to [2^1024]
    or more is [Infinity]. *)
Definition of_Z (n : Z) : number :=
  let m := nearest n in
  if m <? 2 ^ 1024 then Int m else Infinity.

(** [parseInt(s)] for a string that starts with a digit: the number for
    the decimal value of its leading digits.  The parser only applies it to
    the text of a [(\d+)] group, which holds such a string
    ([digit_groups_captured]).  (The language lets an implementation take
    the digits after the twentieth for zeros; the engines do not.) *)
Definition parseInt (s : string) : number := of_Z (Str.decimal s).

(** [x * k] for a whole number [k] above 0 *)
Definition times (x : number) (k : Z) : number :=
  match x with
  | Int n => of_Z (n * k)
  | Infinity => Infinity
  end.

(** [t + x] for a whole number [t] *)
Definition plus (t : Z) (x : number) : number :=
  match x with
  | Int n => of_Z (t + n)
  | Infinity => Infinity
  end.

(** [x > 1] *)
Definition above_one (x : number) : bool :=
  match x with
  | Int n => 1 <? n
  | Infinity => true
  end.

(** [Math.min(100, Math.max(0, x))] *)
Definition percentage (x : number) : Z :=
  match x with
  | Int n => Z.min 100 (Z.max 0 n)
  | Infinity => 100
  end.

(** *** The text of a number

    [`${x}`]: the shortest digits [s] that, with an exponent [e], read
    back as the number; they are followed by [e] zeros when that makes 21
    digits at most, and written [d.ddd e+x] otherwise. *)

(** The number of decimal digits of [n], for [0 < n]. *)
Definition digits10 (n : Z) : Z := Z.of_nat (String.length (pretty n)).

(** Does [s * 10^e] read back as [n]? *)
Definition reads_back (n s e : Z) : bool :=
  match of_Z (s * 10 ^ e) with
  | Int m => m =? n
  | Infinity => false
  end.

(** The pairs of [k] digits [s] and an exponent [e] that read back as [n],
    a number of [p] digits. *)
Definition candidates (n p k : Z) : list (Z * Z) :=
  filter (fun c => (10 ^ (k - 1) <=? fst c) && (fst c <? 10 ^ k)
                   && reads_back n (fst c) (snd c))
    (flat_map (fun e => [(n / 10 ^ e, e); (n / 10 ^ e + 1, e)])
       [p - k; p - k + 1]).

(** The candidate nearest to [n]; of two that are as near, the even one. *)
Definition nearer (n : Z) (c d : Z * Z) : Z * Z :=
  let dist x := Z.abs (fst x * 10 ^ snd x - n) in
  if dist d <? dist c then d
  else if (dist d =? dist c) && Z.even (fst d) then d
  else c.

Definition best (n : Z) (cs : list (Z * Z)) : option (Z * Z) :=
  match cs with
  | [] => None
  | c :: cs' => Some (foldl (nearer n) c cs')
  end.

(** The fewest digits that read back as [n], tried from one digit on. *)
Fixpoint shortest (n p : Z) (ks : list Z) : option (Z * Z) :=
  match ks with
  | [] => None
  | k :: ks' =>
      match best n (candidates n p k) with
      | Some c => Some c
      | None => shortest n p ks'
      end
  end.

(** The digits [s] with the exponent [e], written [d.ddd e+x]. *)
Definition exponential (s e : Z) : string :=
  let x := pretty (e + digits10 s - 1) in
  match pretty s with
  | String d EmptyString => String d ("e+" +:+ x)
  | String d rest => String d ("." +:+ rest +:+ "e+" +:+ x)
  | EmptyString => EmptyString
  end.

(** Up to [2^53] the digits of a whole number are the shortest that read
    back as it. *)
Definition show (x : number) : string :=
  match x with
  | Int n =>
      if n <=? 2 ^ 53 then pretty n
      else
        match shortest n (digits10 n) (map Z.of_nat (List.seq 1 17)) with
        | Some (s, e) =>
            if e + digits10 s <=? 21 then pretty (s * 10 ^ e)
            else exponential s e
        | None => pretty n
        end
  | Infinity => "Infinity"
  end.

(** *** The delay that [setTimeout] makes of its argument

    The host converts the delay to a signed whole number of 32 bits (a
    fraction is dropped, [Infinity] gives 0, the rest wraps around) and
    takes a negative delay for 0. *)
Definition wrap32 (n : Z) : Z := (n + 2 ^ 31) mod 2 ^ 32 - 2 ^ 31.

Definition timeout (x : number) : Z :=
  match x with
  | Int n => Z.max 0 (wrap32 n)
  | Infinity => 0
  end.

(** *** Rounding a rational

    The binary64 value nearest to the rational [x], for [x] above 0 and in
    the range of the normal numbers: [x] is scaled to 53 bits before the
    point and rounded to nearest, a tie to the even neighbour. *)

(** The exponent of the leading bit of [x]: [2^e <= x < 2^(e+1)]. *)
Definition exponent (x : Q) : Z :=
  let e := Z.log2 (Qnum x) - Z.log2 (Zpos (Qden x)) in
  if Qle_bool (Qpower 2 e) x then e else e - 1.

(** The whole number nearest to [y], a tie to the even neighbour. *)
Definition to_even (y : Q) : Z :=
  let f := Qfloor y in
  match Qcompare (y - inject_Z f) (1 # 2) with
  | Lt => f
  | Gt => f + 1
  | Eq => if Z.even f then f else f + 1
  end.

Definition double (x : Q) : Q :=
  if Qle_bool x 0 then x
  else
    let e := exponent x - 52 in
    (inject_Z (to_even (x / Qpower 2 e)) * Qpower 2 e)%Q.

End Num.

(** ** Regular expressions

  The fragment of the regular-expression language that the parser's
  patterns use, matched by backtracking in the order the language
  prescribes: alternatives left to right, quantifiers greedy, the
  leftmost start position first. *)

Module Regex.

Inductive cset : Type :=
| CAny      (* . *)
| CSpace    (* \s *)
| CDigit.   (* \d *)

Definition cset_mem (cs : cset) (c : ascii) : bool :=
  match cs with
  | CAny => negb (Str.is_newline c)
  | CSpace => Str.is_space c
  | CDigit => Str.is_digit c
  end.

Inductive regex : Type :=
| RLit (p : string)             (* literal characters *)
| ROut                          (* a literal character above U+00FF *)
| RPlus (cs : cset)             (* cs+ *)
| RStar (cs : cset)             (* cs* *)
| RSeq (r1 r2 : regex)
| RAlt (r1 r2 : regex)          (* r1|r2 *)
| ROpt (r : regex)              (* r?, for an r that matches no empty text *)
| RGroup (n : nat) (r : regex). (* the n-th capturing group *)

(** The captures of a match: [caps !! n] is [matches[n]], absent when the
    group did not take part in the match. *)
Abbreviation captures := (gmap nat string).

Definition char_eq (icase : bool) (a b : ascii) : bool :=
  if icase then Ascii.eqb (Str.upper a) (Str.upper b) else Ascii.eqb a b.

(** Match the literal [p] at the start of [s]; the rest of [s]. *)
Fixpoint lit (icase : bool) (p s : string) : option string :=
  match p, s with
  | EmptyString, _ => Some s
  | String a p', String b s' => if char_eq icase a b then lit icase p' s' else None
  | String _ _, EmptyString => None
  end.

(** [cs*] followed by [k]: the longest run first. *)
Fixpoint star (cs : cset) (s : string) (k : string -> option captures)
  : option captures :=
  match s with
  | String c s' =>
      if cset_mem cs c then
        match star cs s' k with
        | Some r => Some r
        | None => k s
        end
      else k s
  | EmptyString => k s
  end.

Definition plus (cs : cset) (s : string) (k : string -> option captures)
  : option captures :=
  match s with
  | String c s' => if cset_mem cs c then star cs s' k else None
  | EmptyString => None
  end.

(** The text between the position [s] and the later position [s']. *)
Definition consumed (s s' : string) : string :=
  String.substring 0 (String.length s - String.length s') s.

(** [run icase r s caps k]: match [r] at the start of [s], then continue
    with [k] on the rest; [None] makes the matcher backtrack. *)
Fixpoint run (icase : bool) (r : regex) (s : string) (caps : captures)
    (k : string -> captures -> option captures) : option captures :=
  match r with
  | RLit p =>
      match lit icase p s with
      | Some s' => k s' caps
      | None => None
      end
  | ROut => None
  | RPlus cs => plus cs s (fun s' => k s' caps)
  | RStar cs => star cs s (fun s' => k s' caps)
  | RSeq r1 r2 => run icase r1 s caps (fun s' caps' => run icase r2 s' caps' k)
  | RAlt r1 r2 =>
      match run icase r1 s caps k with
      | Some c => Some c
      | None => run icase r2 s caps k
      end
  | ROpt r1 =>
      match run icase r1 s caps k with
      | Some c => Some c
      | None => k s caps
      end
  | RGroup n r1 =>
      run icase r1 s caps (fun s' caps' => k s' (<[n := consumed s s']> caps'))
  end.

(** [s.match(r)] for a pattern without the [g] flag: the captures of the
    first match, trying the start positions from the left. *)
Fixpoint js_match (icase : bool) (r : regex) (s : string) : option captures :=
  match run icase r s ∅ (fun _ c => Some c) with
  | Some c => Some c
  | None =>
      match s with
      | String _ s' => js_match icase r s'
      | EmptyString => None
      end
  end.

Definition seq (rs : list regex) : regex := foldr RSeq (RLit "") rs.

Fixpoint alt (rs : list regex) : regex :=
  match rs with
  | [] => ROut
  | [r] => r
  | r :: rs' => RAlt r (alt rs')
  end.

(** Every group numbered [n] in [r] is [(\d+)]. *)
Fixpoint digit_group (n : nat) (r : regex) : bool :=
  match r with
  | RGroup m r1 =>
      if Nat.eqb m n
      then match r1 with RPlus CDigit => true | _ => false end
      else digit_group n r1
  | RSeq r1 r2 | RAlt r1 r2 => digit_group n r1 && digit_group n r2
  | ROpt r1 => digit_group n r1
  | _ => true
  end.

(** The group numbered [n] takes part in every match of [r]. *)
Fixpoint takes_part (n : nat) (r : regex) : bool :=
  match r with
  | RGroup m r1 => Nat.eqb m n || takes_part n r1
  | RSeq r1 r2 => takes_part n r1 || takes_part n r2
  | RAlt r1 r2 => takes_part n r1 && takes_part n r2
  | _ => false
  end.

(** The group numbered [n] holds a non-empty string of digits. *)
Definition captured (n : nat) (c : captures) : Prop :=
  exists w, c !! n = Some w /\ Str.digits1 w = true.

End Regex.

(** ** Room normalizer *)

Module Normalizer.

(** [roomMap], in the order of its declaration. *)
Definition roomMap : list (string * string) :=
  [ ("living room", "living-room");
    ("livingroom", "living-room");
    ("living", "living-room");
    ("lounge", "living-room");
    ("front room", "living-room");
    ("main room", "living-room");
    ("living roo", "living-room");
    ("living ro", "living-room");
    ("livin", "living-room");
    ("liv", "living-room");
    ("bedroom", "bedroom");
    ("bed room", "bedroom");
    ("master bedroom", "bedroom");
    ("master", "bedroom");
    ("sleeping room", "bedroom");
    ("bed", "bedroom");
    ("kitchen", "kitchen");
    ("cooking area", "kitchen");
    ("dining room", "kitchen");
    ("kitch", "kitchen") ].

(** The names that every object inherits from [Object.prototype]. *)
Definition inherited_names : list string :=
  [ "constructor"; "__proto__"; "hasOwnProperty"; "isPrototypeOf";
    "propertyIsEnumerable"; "toLocaleString"; "toString"; "valueOf";
    "__defineGetter__"; "__defineSetter__"; "__lookupGetter__";
    "__lookupSetter__" ].

Definition inherited (key : string) : bool :=
  existsb (String.eqb key) inherited_names.

(** What the program takes for a room: the identifier of a room, a
    string, or the member of [Object.prototype] that [roomMap[key]] gives
    for the name of such a member ([Member "constructor"] is the function
    [Object], [Member "__proto__"] is [Object.prototype] itself); a member
    is no string. *)
Inductive location : Type :=
| Room (id : string)
| Member (name : string).

(** [roomMap[key]]: the value of an own key, else the member of that
    name; each member is an object or a function, which counts as true. *)
Definition roomMap_get (key : string) : option location :=
  match List.find (fun e => String.eqb (fst e) key) roomMap with
  | Some e => Some (Room (snd e))
  | None => if inherited key then Some (Member key) else None
  end.

(** The test of the partial-matching loop on one entry. *)
Definition partial (normalized : string) (e : string * string) : bool :=
  Str.startsWith (fst e) normalized || Str.startsWith normalized (fst e).

(** The loop over [Object.entries(roomMap)]: the first entry that passes
    the test. *)
Definition partial_match (normalized : string) : option (string * string) :=
  List.find (partial normalized) roomMap.

Definition normalizeRoom (roomName : string) : location :=
  match roomName with
  | EmptyString => Room "living-room"
  | _ =>
      let normalized := Str.toLowerCase (Str.trim roomName) in
      let result :=
        match roomMap_get normalized with
        | Some v => Some v
        | None => (fun e => Room (snd e)) <$> partial_match normalized
        end in
      default (Room "living-room") result
  end.

(** The canonical room identifiers. *)
Definition room_ids : list string := ["living-room"; "bedroom"; "kitchen"].

End Normalizer.

(** ** Intents *)

(** A device value: a number, which is whole or [Infinity], or a
    string. *)
Inductive value : Type :=
| VNum (n : Z)
| VStr (s : string)
| VInfinity.

(** The value that is the number [x]. *)
Definition value_of (x : Num.number) : value :=
  match x with
  | Num.Int n => VNum n
  | Num.Infinity => VInfinity
  end.

(** What [parseCommand] returns; the fields are those of the object the
    source builds.  A device command is the object without a [type]. *)
Inductive intent : Type :=
| Help
| Scene (action : string)
| Timer (device : string) (room : Normalizer.location) (action : string)
    (duration : Num.number) (unit : string)
| Settings (action : string)
| Device (device : string) (room : Normalizer.location) (action : string)
    (val : value).

(** ** Intent parser *)

Module Parser.
Import Regex.
Export Normalizer.

(** [matches[n]] for a group that takes part in every match. *)
Definition group (m : captures) (n : nat) : string := default "" (m !! n).

(** [matches[n] ? this.normalizeRoom(matches[n]) : 'living-room'] *)
Definition room_or_default (m : captures) (n : nat) : location :=
  match m !! n with
  | Some (String _ _ as w) => normalizeRoom w
  | _ => Room "living-room"
  end.

Definition ws : regex := RPlus CSpace.
Definition the_ : regex := ROpt (seq [RLit "the"; ws]).
Definition lights_ : regex := seq [RLit "light"; ROpt (RLit "s")].

(** [(living\s+room|bedroom|kitchen|living|master)] as group [n] *)
Definition rooms (n : nat) : regex :=
  RGroup n (alt [seq [RLit "living"; ws; RLit "room"]; RLit "bedroom";
                 RLit "kitchen"; RLit "living"; RLit "master"]).

(** [(?:\s+in\s+(?:the\s+)?(.+))?] with the room as group [n] *)
Definition in_room (n : nat) : regex :=
  ROpt (seq [ws; RLit "in"; ws; the_; RGroup n (RPlus CAny)]).

(** [(?:\s+(?:degrees?|<sign>f?))?]; the sign of the second alternative is, in
    the source text, the character U+00AC followed by a character above
    U+00FF. *)
Definition degrees_ : regex :=
  ROpt (seq [ws; alt [seq [RLit "degree"; ROpt (RLit "s")];
                      seq [RLit (String (ascii_of_N 172) EmptyString); ROut;
                           ROpt (RLit "f")]]]).

(** [/(turn off|stop) (.+) in (\d+) (minutes?|mins?|hours?|hrs?)/i] *)
Definition timer_re : regex :=
  seq [RGroup 1 (alt [RLit "turn off"; RLit "stop"]); RLit " ";
       RGroup 2 (RPlus CAny); RLit " in "; RGroup 3 (RPlus CDigit); RLit " ";
       RGroup 4 (alt [seq [RLit "minute"; ROpt (RLit "s")];
                      seq [RLit "min"; ROpt (RLit "s")];
                      seq [RLit "hour"; ROpt (RLit "s")];
                      seq [RLit "hr"; ROpt (RLit "s")]])].

Definition on_off (n : nat) : regex := RGroup n (alt [RLit "on"; RLit "off"]).

(** [matches[n] === 'on' ? 100 : 0] *)
Definition on_value (m : captures) (n : nat) : value :=
  if String.eqb (group m n) "on" then VNum 100 else VNum 0.

(** [action === 'play' ? 'playing' : action === 'stop' ? 'stopped' : 'paused'] *)
Definition music_value (action : string) : value :=
  if String.eqb action "play" then VStr "playing"
  else if String.eqb action "stop" then VStr "stopped"
  else VStr "paused".

(** The patterns of the array [patterns], in its order. *)

(** [/turn\s+(on|off)\s+(?:the\s+)?(living\s+room|bedroom|kitchen|living|master)\s+lights?/] *)
Definition turn_room_lights_re : regex :=
  seq [RLit "turn"; ws; on_off 1; ws; the_; rooms 2; ws; lights_].

(** [/(living\s+room|bedroom|kitchen|living|master)\s+lights?\s+(on|off)/] *)
Definition room_lights_re : regex :=
  seq [rooms 1; ws; lights_; ws; on_off 2].

(** [/(?:turn\s+)?(on|off)\s+(?:the\s+)?lights?(?:\s+in\s+(?:the\s+)?(living\s+room|bedroom|kitchen|living|master))?/] *)
Definition turn_lights_re : regex :=
  seq [ROpt (seq [RLit "turn"; ws]); on_off 1; ws; the_; lights_;
       ROpt (seq [ws; RLit "in"; ws; the_; rooms 2])].

(** [/lights?\s+(on|off)(?:\s+in\s+(?:the\s+)?(.+))?/] *)
Definition lights_re : regex :=
  seq [lights_; ws; on_off 1; in_room 2].

(** [/dim\s+(?:the\s+)?(?:(.+)\s+)?lights?\s+to\s+(\d+)(?:\s*percent|%)?/] *)
Definition dim_re : regex :=
  seq [RLit "dim"; ws; the_; ROpt (seq [RGroup 1 (RPlus CAny); ws]); lights_;
       ws; RLit "to"; ws; RGroup 2 (RPlus CDigit);
       ROpt (alt [seq [RStar CSpace; RLit "percent"]; RLit "%"])].

(** [/set\s+(?:the\s+)?temperature\s+to\s+(\d+)(?:\s+(?:degrees?|<sign>f?))?(?:\s+in\s+(?:the\s+)?(.+))?/] *)
Definition temperature_re : regex :=
  seq [RLit "set"; ws; the_; RLit "temperature"; ws; RLit "to"; ws;
       RGroup 1 (RPlus CDigit); degrees_; in_room 2].

(** [/set\s+(?:the\s+)?(.+)\s+temperature\s+to\s+(\d+)(?:\s+(?:degrees?|<sign>f?))?/] *)
Definition room_temperature_re : regex :=
  seq [RLit "set"; ws; the_; RGroup 1 (RPlus CAny); ws; RLit "temperature";
       ws; RLit "to"; ws; RGroup 2 (RPlus CDigit); degrees_].

(** [/(play|stop|pause)\s+(?:the\s+)?music(?:\s+in\s+(?:the\s+)?(.+))?/] *)
Definition play_music_re : regex :=
  seq [RGroup 1 (alt [RLit "play"; RLit "stop"; RLit "pause"]); ws; the_;
       RLit "music"; in_room 2].

(** [/music\s+(on|off|play|stop|pause)(?:\s+in\s+(?:the\s+)?(.+))?/] *)
Definition music_re : regex :=
  seq [RLit "music"; ws;
       RGroup 1 (alt [RLit "on"; RLit "off"; RLit "play"; RLit "stop"; RLit "pause"]);
       in_room 2].

(** [/(arm|disarm)\s+(?:the\s+)?security(?:\s+system)?/] *)
Definition security_re : regex :=
  seq [RGroup 1 (alt [RLit "arm"; RLit "disarm"]); ws; the_; RLit "security";
       ROpt (seq [ws; RLit "system"])].

(** The array [patterns]: each pattern with its [action]. *)
Definition patterns : list (regex * (captures -> intent)) :=
  [ (turn_room_lights_re,
     fun m => Device "lights" (normalizeRoom (group m 2)) (group m 1) (on_value m 1));
    (room_lights_re,
     fun m => Device "lights" (normalizeRoom (group m 1)) (group m 2) (on_value m 2));
    (turn_lights_re,
     fun m => Device "lights" (room_or_default m 2) (group m 1) (on_value m 1));
    (lights_re,
     fun m => Device "lights" (room_or_default m 2) (group m 1) (on_value m 1));
    (dim_re,
     fun m => Device "lights" (room_or_default m 1) "dim"
                (VNum (Num.percentage (Num.parseInt (group m 2)))));
    (temperature_re,
     fun m => Device "thermostat" (room_or_default m 2) "set"
                (value_of (Num.parseInt (group m 1))));
    (room_temperature_re,
     fun m => Device "thermostat" (normalizeRoom (group m 1)) "set"
                (value_of (Num.parseInt (group m 2))));
    (play_music_re,
     fun m => let action := group m 1 in
              Device "music" (room_or_default m 2) action (music_value action));
    (music_re,
     fun m => let action := if String.eqb (group m 1) "on" then "play"
                            else if String.eqb (group m 1) "off" then "stop"
                            else group m 1 in
              Device "music" (room_or_default m 2) action (music_value action));
    (security_re,
     fun m => Device "security" (Room "kitchen") (group m 1)
                (if String.eqb (group m 1) "arm" then VStr "armed" else VStr "disarmed")) ].

(** The loop [for (const pattern of patterns)]: the first pattern that
    matches decides. *)
Fixpoint first_pattern (ps : list (regex * (captures -> intent))) (command : string)
  : option intent :=
  match ps with
  | [] => None
  | (r, action) :: ps' =>
      match js_match false r command with
      | Some m => Some (action m)
      | None => first_pattern ps' command
      end
  end.

Definition has (command sub : string) : bool := Str.includes command sub.

Definition parseCommand (command : string) : option intent :=
  if has command "help" || has command "what can you do" || has command "commands"
  then Some Help
  else if has command "movie mode" || has command "cinema mode"
  then Some (Scene "movie")
  else if has command "goodnight" || has command "good night"
  then Some (Scene "goodnight")
  else if has command "wake up" || has command "morning mode"
  then Some (Scene "morning")
  else if has command "party mode" || has command "party time"
  then Some (Scene "party")
  else
    match js_match true timer_re command with
    | Some m =>
        Some (Timer "lights" (normalizeRoom (group m 2)) "turn off"
                (Num.parseInt (group m 3)) (Str.toLowerCase (group m 4)))
    | None =>
        if has command "turn off voice" || has command "disable voice"
        then Some (Settings "disable_voice")
        else if has command "turn on voice" || has command "enable voice"
        then Some (Settings "enable_voice")
        else if has command "use whisper" || has command "switch to whisper"
                || has command "whisper backend"
        then Some (Settings "use_whisper")
        else if has command "use web speech" || has command "switch to web speech"
                || has command "browser speech"
        then Some (Settings "use_webspeech")
        else first_pattern patterns command
    end.

End Parser.

(** ** The application state *)

Module Home.
Export Parser.

(** [this.devices]: room, then device, then value. *)
Abbreviation store := (gmap string (gmap string value)).

(** The [type] argument of [addToDebugPanel]. *)
Inductive kind : Type := Normal | Success | Error.

(** What the core sends to its feedback sinks and what escapes it. *)
Inductive feedback : Type :=
| Say (voiced : bool) (text : string)
    (* [this.speak(text)]; [voiced] tells whether [speak] went past its guard *)
| Panel (stamp : option Z) (text : string) (k : kind)
    (* [this.addToDebugPanel(text, type)]; [stamp] is the time of the
       [[timestamp]] prefix when the text has one; the mark that precedes
       the text of a success entry is not kept *)
| Uncaught (what : string)
    (* a [TypeError] that ends the running handler or callback *)
| Defaced (member property : string).
    (* a write to a property of a member of [Object.prototype]: it reaches
       an object of the host, and the embedding does not follow the page
       any further in that callback *)

(** An entry of [this.activeTimers]. *)
Record timer : Type := {
  t_room : Normalizer.location;
  t_device : string;
  t_action : string;
  t_endTime : Num.number;
  t_duration : Num.number;
  t_unit : string
}.

(** The callbacks that the core hands to [setTimeout]. *)
Inductive task : Type :=
| ApplyCommand (device : string) (room : Normalizer.location)
    (action : string) (val : value)                         (* in [executeCommand] *)
| SceneStep (room device : string) (val : value)            (* in [executeScene], per step *)
| SceneDone (sceneName : string)                            (* in [executeScene], last *)
| TimerDue (timerId room device action : string)            (* in [setTimer] *)
| HelpText                                                  (* in [showHelp] *)
| Welcome.                                                  (* in [showWelcomeMessage] *)

(** An entry of [this.commandHistory]. *)
Record entry : Type := {
  e_command : string;
  e_parsed : option intent;
  e_success : bool;
  e_timestamp : Z
}.

Record state : Type := {
  devices : store;
  saved : option store;           (* [localStorage] item [smartHomeDevices] *)
  activeTimers : gmap string timer;
  queue : list (Z * task);        (* pending callbacks with their due time,
                                     in the order of their registration *)
  now : Z;                        (* [Date.now()] *)
  draws : nat;                    (* calls of [Math.random] so far *)
  log : list feedback;            (* oldest first *)
  voiceResponseEnabled : bool;
  synthesis : bool;               (* [this.synthesis] is set *)
  useWhisperBackend : bool;
  whisperAvailable : bool;
  commandHistory : list entry
}.

Definition set_devices (d : store) (s : state) : state :=
  {| devices := d; saved := saved s; activeTimers := activeTimers s;
     queue := queue s; now := now s; draws := draws s; log := log s;
     voiceResponseEnabled := voiceResponseEnabled s; synthesis := synthesis s;
     useWhisperBackend := useWhisperBackend s;
     whisperAvailable := whisperAvailable s; commandHistory := commandHistory s |}.

Definition set_saved (v : option store) (s : state) : state :=
  {| devices := devices s; saved := v; activeTimers := activeTimers s;
     queue := queue s; now := now s; draws := draws s; log := log s;
     voiceResponseEnabled := voiceResponseEnabled s; synthesis := synthesis s;
     useWhisperBackend := useWhisperBackend s;
     whisperAvailable := whisperAvailable s; commandHistory := commandHistory s |}.

Definition set_activeTimers (t : gmap string timer) (s : state) : state :=
  {| devices := devices s; saved := saved s; activeTimers := t;
     queue := queue s; now := now s; draws := draws s; log := log s;
     voiceResponseEnabled := voiceResponseEnabled s; synthesis := synthesis s;
     useWhisperBackend := useWhisperBackend s;
     whisperAvailable := whisperAvailable s; commandHistory := commandHistory s |}.

Definition set_queue (q : list (Z * task)) (s : state) : state :=
  {| devices := devices s; saved := saved s; activeTimers := activeTimers s;
     queue := q; now := now s; draws := draws s; log := log s;
     voiceResponseEnabled := voiceResponseEnabled s; synthesis := synthesis s;
     useWhisperBackend := useWhisperBackend s;
     whisperAvailable := whisperAvailable s; commandHistory := commandHistory s |}.

Definition set_now (t : Z) (s : state) : state :=
  {| devices := devices s; saved := saved s; activeTimers := activeTimers s;
     queue := queue s; now := t; draws := draws s; log := log s;
     voiceResponseEnabled := voiceResponseEnabled s; synthesis := synthesis s;
     useWhisperBackend := useWhisperBackend s;
     whisperAvailable := whisperAvailable s; commandHistory := commandHistory s |}.

Definition set_draws (n : nat) (s : state) : state :=
  {| devices := devices s; saved := saved s; activeTimers := activeTimers s;
     queue := queue s; now := now s; draws := n; log := log s;
     voiceResponseEnabled := voiceResponseEnabled s; synthesis := synthesis s;
     useWhisperBackend := useWhisperBackend s;
     whisperAvailable := whisperAvailable s; commandHistory := commandHistory s |}.

Definition set_log (l : list feedback) (s : state) : state :=
  {| devices := devices s; saved := saved s; activeTimers := activeTimers s;
     queue := queue s; now := now s; draws := draws s; log := l;
     voiceResponseEnabled := voiceResponseEnabled s; synthesis := synthesis s;
     useWhisperBackend := useWhisperBackend s;
     whisperAvailable := whisperAvailable s; commandHistory := commandHistory s |}.

Definition set_voiceResponseEnabled (b : bool) (s : state) : state :=
  {| devices := devices s; saved := saved s; activeTimers := activeTimers s;
     queue := queue s; now := now s; draws := draws s; log := log s;
     voiceResponseEnabled := b; synthesis := synthesis s;
     useWhisperBackend := useWhisperBackend s;
     whisperAvailable := whisperAvailable s; commandHistory := commandHistory s |}.

Definition set_useWhisperBackend (b : bool) (s : state) : state :=
  {| devices := devices s; saved := saved s; activeTimers := activeTimers s;
     queue := queue s; now := now s; draws := draws s; log := log s;
     voiceResponseEnabled := voiceResponseEnabled s; synthesis := synthesis s;
     useWhisperBackend := b;
     whisperAvailable := whisperAvailable s; commandHistory := commandHistory s |}.

Definition set_commandHistory (h : list entry) (s : state) : state :=
  {| devices := devices s; saved := saved s; activeTimers := activeTimers s;
     queue := queue s; now := now s; draws := draws s; log := log s;
     voiceResponseEnabled := voiceResponseEnabled s; synthesis := synthesis s;
     useWhisperBackend := useWhisperBackend s;
     whisperAvailable := whisperAvailable s; commandHistory := h |}.

(** [this.devices[room][device]] *)
Definition get (d : store) (room device : string) : option value :=
  d !! room ≫= fun r => r !! device.

(** The default states of [loadDeviceStates]. *)
Definition defaultStates : store :=
  {[ "living-room" :=
       {[ "lights" := VNum 0; "thermostat" := VNum 72; "music" := VStr "stopped" ]};
     "bedroom" :=
       {[ "lights" := VNum 0; "thermostat" := VNum 70; "music" := VStr "stopped" ]};
     "kitchen" :=
       {[ "lights" := VNum 0; "thermostat" := VNum 68; "security" := VStr "disarmed" ]} ]}.

(** [loadDeviceStates] on the content of the storage item. *)
Definition loadDeviceStates (item : option store) : store :=
  default defaultStates item.

(** The state that the constructor and [init] leave at time [t], with
    what the storage holds: the item [item] of the device states, the
    history [history] of [loadCommandHistory], [backend] for an item
    [useWhisperBackend] that reads [true], and [welcomed] for an item
    [smartHomeWelcomed]; without that item [showWelcomeMessage] registers
    the welcome.  [speech] tells whether the host has a synthesizer and
    [whisper] what the first check of the service has found. *)
Definition boot (item : option store) (history : list entry)
    (backend welcomed : bool) (t : Z) (speech whisper : bool) : state :=
  {| devices := loadDeviceStates item; saved := item; activeTimers := ∅;
     queue := if welcomed then [] else [(t + 1000, Welcome)];
     now := t; draws := 0; log := [];
     voiceResponseEnabled := true; synthesis := speech;
     useWhisperBackend := backend; whisperAvailable := whisper;
     commandHistory := history |}.

(** The scenes of [loadScenes], each a list of (room, device, value). *)
Definition scenes : list (string * list (string * string * value)) :=
  [ ("movie",
     [ ("living-room", "lights", VNum 20);
       ("living-room", "music", VStr "playing") ]);
    ("goodnight",
     [ ("living-room", "lights", VNum 0);
       ("bedroom", "lights", VNum 0);
       ("kitchen", "lights", VNum 0);
       ("kitchen", "security", VStr "armed") ]);
    ("morning",
     [ ("bedroom", "lights", VNum 80);
       ("kitchen", "lights", VNum 100);
       ("kitchen", "security", VStr "disarmed") ]);
    ("party",
     [ ("living-room", "lights", VNum 100);
       ("bedroom", "lights", VNum 75);
       ("kitchen", "lights", VNum 100);
       ("living-room", "music", VStr "playing") ]) ].

(** [this.scenes[sceneName]] *)
Definition scene (sceneName : string) : option (list (string * string * value)) :=
  snd <$> List.find (fun e => String.eqb (fst e) sceneName) scenes.

(** [this.confidenceThreshold] *)
Definition confidenceThreshold : Q := 7 # 10.

Definition success_variations : list string :=
  [ "Done!"; "Sure thing!"; "You got it!"; "Consider it done!"; "All set!";
    "Perfect!"; "Great!" ].

Definition unrecognized_variations : list string :=
  [ "Sorry, I didn't understand that command.";
    "I'm not sure what you meant. Try saying 'help' for available commands.";
    "Could you rephrase that? Say 'help' to see what I can do.";
    "I didn't catch that. Try 'help' for a list of commands." ].

(** ** Operations of the core *)

Section Core.

(** The results of [Math.random], in the order of the calls. *)
Variable rnd : nat -> Q.

Definition emit (f : feedback) (s : state) : state := set_log (log s ++ [f]) s.

(** How a call ends: it returns, or it throws a [TypeError] with a
    message (in the words of V8); the state is the one that the call
    leaves. *)
Inductive completion : Type :=
| Returns (s : state)
| Throws (message : string) (s : state).

(** The state once the call is over, in a handler that catches nothing: an
    exception reaches the host, which reports it. *)
Definition settled (c : completion) : state :=
  match c with
  | Returns s => s
  | Throws _ s => emit (Uncaught "TypeError") s
  end.

Coercion settled : completion >-> state.

(** [speak(text)]: nothing is voiced without a synthesizer, with the voice
    responses disabled, or for an empty text. *)
Definition speak (text : string) (s : state) : state :=
  emit (Say (synthesis s && voiceResponseEnabled s
             && negb (String.eqb text "")) text) s.

Definition addToDebugPanel (stamp : option Z) (text : string) (k : kind)
    (s : state) : state :=
  emit (Panel stamp text k) s.

(** [setTimeout(callback, delay)] *)
Definition setTimeout (tk : task) (delay : Z) (s : state) : state :=
  set_queue (queue s ++ [(now s + delay, tk)]) s.

(** [saveDeviceStates]: the whole of [this.devices] goes to the storage. *)
Definition saveDeviceStates (s : state) : state :=
  set_saved (Some (devices s)) s.

(** [`${room}`], which is also the key that [this.devices[room]] reads:
    a member that is a function gives its source text (in the words of
    V8). *)
Definition member_text (name : string) : string :=
  if String.eqb name "__proto__" then "[object Object]"
  else if String.eqb name "constructor" then "function Object() { [native code] }"
  else "function " +:+ name +:+ "() { [native code] }".

Definition key (room : location) : string :=
  match room with
  | Room id => id
  | Member name => member_text name
  end.

(** [this.devices[k]]: the room of an own key, else the inherited member
    of that name, else [undefined]. *)
Inductive found : Type :=
| Own (r : gmap string value)
| Inherited (name : string)
| Missing.

Definition room_of (d : store) (k : string) : found :=
  match d !! k with
  | Some r => Own r
  | None => if inherited k then Inherited k else Missing
  end.

(** The own properties of the function [Object] besides [length], [name]
    and [prototype]. *)
Definition object_statics : list string :=
  [ "assign"; "create"; "defineProperties"; "defineProperty"; "entries";
    "freeze"; "fromEntries"; "getOwnPropertyDescriptor";
    "getOwnPropertyDescriptors"; "getOwnPropertyNames";
    "getOwnPropertySymbols"; "getPrototypeOf"; "groupBy"; "hasOwn"; "is";
    "isExtensible"; "isFrozen"; "isSealed"; "keys"; "preventExtensions";
    "seal"; "setPrototypeOf"; "values" ].

(** [member.hasOwnProperty(device)] for the inherited member [name]:
    [Object.prototype] owns the inherited names, a function owns [length]
    and [name], and [Object] its own properties besides. *)
Definition member_owns (name device : string) : bool :=
  if String.eqb name "__proto__" then inherited device
  else
    existsb (String.eqb device)
      ("length" :: "name" ::
       (if String.eqb name "constructor" then "prototype" :: object_statics
        else [])).

(** [this.devices[room][device] = val] for a room of the store; [None]
    when the store has no such room. *)
Definition assign (room device : string) (val : value) (d : store) : option store :=
  match d !! room with
  | Some r => Some (<[room := <[device := val]> r]> d)
  | None => None
  end.

(** What the assignment comes to when the store has no room [k]: on
    [undefined] it raises a [TypeError]; on an inherited member it writes
    to an object of the host. *)
Definition escape (k device : string) : feedback :=
  if inherited k then Defaced k device else Uncaught "TypeError".

(** [room.replace('-', ' ')] *)
Definition roomName (room : string) : string := Str.replace room "-" " ".

(** [`${value}`] *)
Definition show (v : value) : string :=
  match v with
  | VNum n => Num.show (Num.Int n)
  | VStr s => s
  | VInfinity => Num.show Num.Infinity
  end.

(** The unit that follows the temperature in [formatSuccessMessage]: its
    sign in the source text holds a character above U+00FF, written [?]
    here. *)
Definition degreesF : string := String (ascii_of_N 172) "?F".

(** [formatSuccessMessage] for a room that is a string; for a room that
    is none its first line, [room.replace('-', ' ')], throws. *)
Definition formatSuccessMessage (device room action : string) (val : value)
  : string :=
  if String.eqb device "lights" then
    if String.eqb action "dim"
    then roomName room +:+ " lights dimmed to " +:+ show val +:+ "%"
    else roomName room +:+ " lights turned " +:+ action
  else if String.eqb device "thermostat" then
    roomName room +:+ " temperature set to " +:+ show val +:+ degreesF
  else if String.eqb device "music" then
    "Music " +:+ show val +:+ " in " +:+ roomName room
  else if String.eqb device "security" then
    "Security system " +:+ show val
  else device +:+ " in " +:+ roomName room +:+ " updated".

(** [Math.floor(Math.random() * n)] on the draw [u] *)
Definition pick (u : Q) (n : nat) : nat :=
  Z.to_nat (Qfloor (u * inject_Z (Z.of_nat n))).

(** [responses[i]]; an index out of range reads [undefined]. *)
Definition variation (l : list string) (i : nat) : string :=
  nth i l "undefined".

(** [getRandomResponse('success', message)] on the draw [u] *)
Definition successResponse (u : Q) (message : string) : string :=
  variation success_variations (pick u (length success_variations))
    +:+ " " +:+ message.

(** [getRandomResponse('unrecognized')] on the draw [u] *)
Definition unrecognizedResponse (u : Q) : string :=
  variation unrecognized_variations (pick u (length unrecognized_variations)).

(** The next result of [Math.random] and the state after the call. *)
Definition random (s : state) : Q * state :=
  (rnd (draws s), set_draws (S (draws s)) s).

(** [showHelp] *)
Definition showHelp (s : state) : state :=
  setTimeout HelpText 1000
    (speak "I can control your smart home devices. Try saying things like turn on living room lights, set temperature to 72, play music, movie mode, or goodnight. You can also set timers by saying turn off lights in 10 minutes."
       (addToDebugPanel None "Help system activated" Success s)).

(** [scenes.forEach((command, index) => setTimeout(..., index * 500))] from
    the index [index] on. *)
Fixpoint scheduleSteps (steps : list (string * string * value)) (index : Z)
    (s : state) : state :=
  match steps with
  | [] => s
  | (room, device, val) :: steps' =>
      scheduleSteps steps' (index + 1)
        (setTimeout (SceneStep room device val) (index * 500) s)
  end.

(** [executeScene]; for the name of an inherited member,
    [this.scenes[sceneName]] is that member, which has no [forEach]. *)
Definition executeScene (sceneName : string) (s : state) : completion :=
  match scene sceneName with
  | None =>
      if inherited sceneName then
        Throws "scenes.forEach is not a function"
          (speak ("Activating " +:+ sceneName +:+ " mode.")
             (addToDebugPanel None ("Executing " +:+ sceneName +:+ " scene...")
                Success s))
      else
        Returns (speak ("Sorry, I don't know the " +:+ sceneName +:+ " scene.") s)
  | Some steps =>
      let s1 := addToDebugPanel None ("Executing " +:+ sceneName +:+ " scene...")
                  Success s in
      let s2 := speak ("Activating " +:+ sceneName +:+ " mode.") s1 in
      let s3 := scheduleSteps steps 0 s2 in
      let s4 := saveDeviceStates s3 in
      Returns (setTimeout (SceneDone sceneName) (Z.of_nat (length steps) * 500) s4)
  end.

Definition is_hour (unit : string) : bool := Str.includes unit "hour".

(** The number of milliseconds that [setTimer] computes. *)
Definition milliseconds (duration : Num.number) (unit : string) : Num.number :=
  if is_hour unit then Num.times duration 3600000 else Num.times duration 60000.

(** [`${room}-${device}-${Date.now()}`] *)
Definition timerId (room device : string) (t : Z) : string :=
  room +:+ "-" +:+ device +:+ "-" +:+ pretty t.

(** [setTimer]; for a room that is no string, [room.replace('-', ' ')]
    throws once the timer is in [this.activeTimers] and before anything is
    reported or registered. *)
Definition setTimer (device : string) (room : location) (action : string)
    (duration : Num.number) (unit : string) (s : state) : completion :=
  let ms := milliseconds duration unit in
  let id := timerId (key room) device (now s) in
  let endTime := Num.plus (now s) ms in
  let unitName := if is_hour unit then "hour" else "minute" in
  let s1 := set_activeTimers
              (<[id := {| t_room := room; t_device := device; t_action := action;
                          t_endTime := endTime; t_duration := duration;
                          t_unit := unitName |}]> (activeTimers s)) s in
  let timeText := Num.show duration +:+ " " +:+ unitName
                  +:+ (if Num.above_one duration then "s" else "") in
  match room with
  | Member _ => Throws "room.replace is not a function" s1
  | Room r =>
      let s2 := addToDebugPanel None
                  ("Timer set: " +:+ action +:+ " " +:+ roomName r +:+ " "
                   +:+ device +:+ " in " +:+ timeText) Success s1 in
      let s3 := speak ("Timer set. I'll " +:+ action +:+ " the " +:+ roomName r
                       +:+ " " +:+ device +:+ " in " +:+ timeText +:+ ".") s2 in
      Returns (setTimeout (TimerDue id r device action) (Num.timeout ms) s3)
  end.

(** [handleSettings] *)
Definition handleSettings (action : string) (s : state) : state :=
  if String.eqb action "disable_voice" then
    speak "Voice responses are now disabled."
      (addToDebugPanel None "Voice responses disabled" Success
         (set_voiceResponseEnabled false s))
  else if String.eqb action "enable_voice" then
    speak "Voice responses are now enabled."
      (addToDebugPanel None "Voice responses enabled" Success
         (set_voiceResponseEnabled true s))
  else if String.eqb action "use_whisper" then
    if whisperAvailable s then
      speak "Now using Whisper for more accurate speech recognition."
        (addToDebugPanel None "Switched to Whisper backend" Success
           (set_useWhisperBackend true s))
    else
      speak "Whisper backend is not available. Please start the Python server."
        (addToDebugPanel None "Whisper backend not available" Error s)
  else if String.eqb action "use_webspeech" then
    speak "Now using browser speech recognition."
      (addToDebugPanel None "Switched to Web Speech API" Success
         (set_useWhisperBackend false s))
  else s.

(** The delay of the device response: [Math.random() * 500 + 200] on the
    draw [u], each operation rounded as binary64 rounds, and of the result
    the whole milliseconds that the host keeps. *)
Definition responseDelay (u : Q) : Z :=
  Qfloor (Num.double (Num.double (u * 500) + 200)).

(** The report of a device that the room does not have; the room is
    spoken with [room.replace('-', ' ')], which throws for a room that is
    no string. *)
Definition deviceNotFound (device : string) (room : location) (s : state)
  : completion :=
  let s1 := addToDebugPanel None
              ("Device " +:+ device +:+ " not found in " +:+ key room) Error s in
  match room with
  | Room id =>
      Returns (speak ("Sorry, I couldn't find the " +:+ device +:+ " in the "
                      +:+ roomName id +:+ ".") s1)
  | Member _ => Throws "room.replace is not a function" s1
  end.

(** The callback of the device response is registered. *)
Definition respond (device : string) (room : location) (action : string)
    (val : value) (s : state) : completion :=
  let (u, s1) := random s in
  Returns (setTimeout (ApplyCommand device room action val) (responseDelay u) s1).

(** [executeCommand].  The test of the room is [!this.devices[room]], which
    an inherited member passes; the test of the device is
    [hasOwnProperty], called on the room: a room of the store that has a
    device of that name has a value there, which cannot be called. *)
Definition executeCommand (command : intent) (s : state) : completion :=
  match command with
  | Help => Returns (showHelp s)
  | Scene action => executeScene action s
  | Timer device room action duration unit =>
      setTimer device room action duration unit s
  | Settings action => Returns (handleSettings action s)
  | Device device room action val =>
      match room_of (devices s) (key room) with
      | Missing =>
          let s1 := addToDebugPanel None ("Room " +:+ key room +:+ " not found")
                      Error s in
          match room with
          | Room id =>
              Returns (speak ("Sorry, I don't have a " +:+ roomName id
                              +:+ " configured.") s1)
          | Member _ => Throws "room.replace is not a function" s1
          end
      | Own r =>
          match r !! "hasOwnProperty" with
          | Some _ =>
              Throws "this.devices[room].hasOwnProperty is not a function" s
          | None =>
              match r !! device with
              | None => deviceNotFound device room s
              | Some _ => respond device room action val s
              end
          end
      | Inherited name =>
          if member_owns name device then respond device room action val s
          else deviceNotFound device room s
      end
  end.

(** [action === 'turn off' ? 0 : 'stopped'] *)
Definition timerValue (action : string) : value :=
  if String.eqb action "turn off" then VNum 0 else VStr "stopped".

(** The text of the welcome, which quotes two utterances. *)
Definition welcomeText : string :=
  "Welcome! Say " +:+ Str.dquote +:+ "help" +:+ Str.dquote
  +:+ " to learn what I can do, or try " +:+ Str.dquote
  +:+ "turn on living room lights" +:+ Str.dquote.

(** The body of a callback, run by the host when it fires. *)
Definition fire (tk : task) (s : state) : state :=
  match tk with
  | ApplyCommand device room action val =>
      match assign (key room) device val (devices s) with
      | None => emit (escape (key room) device) s
      | Some d =>
          let s1 := saveDeviceStates (set_devices d s) in
          match room with
          | Member _ => emit (Uncaught "TypeError") s1
          | Room id =>
              let message := formatSuccessMessage device id action val in
              let s2 := addToDebugPanel (Some (now s)) message Success s1 in
              let (u, s3) := random s2 in
              speak (successResponse u message) s3
          end
      end
  | SceneStep room device val =>
      match assign room device val (devices s) with
      | None => emit (escape room device) s
      | Some d => set_devices d s
      end
  | SceneDone sceneName =>
      let (u, s1) := random s in
      speak (successResponse u (sceneName +:+ " mode activated.")) s1
  | TimerDue id room device action =>
      match activeTimers s !! id with
      | None => s
      | Some _ =>
          match assign room device (timerValue action) (devices s) with
          | None => emit (escape room device) s
          | Some d =>
              let s1 := saveDeviceStates (set_devices d s) in
              let s2 := addToDebugPanel None
                          ("Timer executed: " +:+ action +:+ " " +:+ roomName room
                           +:+ " " +:+ device) Success s1 in
              let s3 := speak ("Timer completed. I've turned off the "
                               +:+ roomName room +:+ " " +:+ device +:+ ".") s2 in
              set_activeTimers (delete id (activeTimers s3)) s3
          end
      end
  | HelpText =>
      (* the help text, of which the first line is kept *)
      addToDebugPanel None "Here are the commands I understand:" Success s
  | Welcome =>
      speak "Welcome to your smart home! Say help to learn what I can do."
        (addToDebugPanel None welcomeText Success s)
  end.

(** [addCommandToHistory]: newest first, at most ten entries. *)
Definition addCommandToHistory (command : string) (parsed : option intent)
    (success : bool) (s : state) : state :=
  set_commandHistory
    (take 10 ({| e_command := command; e_parsed := parsed; e_success := success;
                 e_timestamp := now s |} :: commandHistory s)) s.

(** [Math.round(confidence * 100)] *)
Definition percent (confidence : Q) : Z := Qfloor (confidence * 100 + (1 # 2)).

(** [x < y] on numbers *)
Definition ltb (x y : Q) : bool := (Qnum x * QDen y <? Qnum y * QDen x)%Z.

(** The test [confidence < this.confidenceThreshold && confidence < 1] *)
Definition lowConfidence (confidence : Q) : bool :=
  ltb confidence confidenceThreshold && ltb confidence 1.

Definition lowConfidenceText : string := "Low confidence, please repeat".
Definition repeatText : string :=
  "Sorry, I didn't hear that clearly. Could you please repeat?".

(** [processCommand]; an exception of [executeCommand] ends it before the
    history gets its entry. *)
Definition processCommand (command : string) (confidence : Q) (s : state)
  : completion :=
  let confidenceText :=
    if ltb confidence 1 then " (" +:+ pretty (percent confidence) +:+ "%)"
    else "" in
  let s1 := addToDebugPanel (Some (now s))
              (Str.dquote +:+ command +:+ Str.dquote +:+ confidenceText) Normal s in
  if lowConfidence confidence then
    Returns (speak repeatText
               (addToDebugPanel (Some (now s)) lowConfidenceText Error s1))
  else
    match parseCommand (Str.toLowerCase command) with
    | Some parsed =>
        match executeCommand parsed s1 with
        | Returns s2 => Returns (addCommandToHistory command (Some parsed) true s2)
        | Throws message s2 => Throws message s2
        end
    | None =>
        let s2 := addToDebugPanel (Some (now s)) "Command not recognized" Error s1 in
        let (u, s3) := random s2 in
        Returns (addCommandToHistory command None false
                   (speak (unrecognizedResponse u) s3))
    end.

(** ** The host

    The host fires the pending callbacks: the one that is due first, and
    among those due together the one registered first. *)

(** The index of the next callback among [q], given the best so far. *)
Fixpoint next_from (best : nat) (due : Z) (i : nat) (q : list (Z * task)) : nat :=
  match q with
  | [] => best
  | (d, _) :: q' =>
      if d <? due then next_from i d (S i) q' else next_from best due (S i) q'
  end.

Definition next (q : list (Z * task)) : option nat :=
  match q with
  | [] => None
  | (d, _) :: q' => Some (next_from 0 d 1 q')
  end.

(** The host takes the next callback out of the queue and runs it, time
    having reached its due time: the time of the firing, the callback and
    the state it leaves. *)
Definition run_next (s : state) : option (Z * task * state) :=
  match next (queue s) with
  | None => None
  | Some i =>
      match queue s !! i with
      | None => None
      | Some (due, tk) =>
          let t := Z.max (now s) due in
          Some (t, tk, fire tk (set_now t (set_queue (delete i (queue s)) s)))
      end
  end.

(** Run [fuel] callbacks: the firings in their order and the last state. *)
Fixpoint drain (fuel : nat) (s : state) : list (Z * task) * state :=
  match fuel with
  | O => ([], s)
  | S fuel' =>
      match run_next s with
      | None => ([], s)
      | Some (t, tk, s') =>
          let (firings, s'') := drain fuel' s' in ((t, tk) :: firings, s'')
      end
  end.

(** Run every pending callback; no callback of the core registers another
    one, so the length of the queue is fuel enough (see [settle_queue]). *)
Definition settle (s : state) : list (Z * task) * state :=
  drain (length (queue s)) s.

(** What can happen to the application: an utterance arrives with its
    confidence, time passes, a pending callback that is due fires. *)
Inductive step : state -> state -> Prop :=
| step_utterance (command : string) (confidence : Q) (s : state) :
    step s (processCommand command confidence s)
| step_time (t : Z) (s : state) :
    now s <= t -> step s (set_now t s)
| step_fire (i : nat) (due : Z) (tk : task) (s : state) :
    queue s !! i = Some (due, tk) -> due <= now s ->
    step s (fire tk (set_queue (delete i (queue s)) s)).

(** The states that the application reaches from [s0]. *)
Inductive reachable (s0 : state) : state -> Prop :=
| reach_start : reachable s0 s0
| reach_step (s s' : state) : reachable s0 s -> step s s' -> reachable s0 s'.

End Core.

(** ** Value domains *)

(** Does the value [v] belong to the domain of the device kind? *)
Definition in_domain (device : string) (v : value) : bool :=
  if String.eqb device "lights" then
    match v with
    | VNum n => (0 <=? n) && (n <=? 100)
    | _ => false
    end
  else if String.eqb device "music" then
    match v with
    | VStr s => String.eqb s "playing" || String.eqb s "paused" || String.eqb s "stopped"
    | _ => false
    end
  else if String.eqb device "security" then
    match v with
    | VStr s => String.eqb s "armed" || String.eqb s "disarmed"
    | _ => false
    end
  else if String.eqb device "thermostat" then
    match v with
    | VNum _ | VInfinity => true
    | VStr _ => false
    end
  else true.

(** Every value of the store is in the domain of its device. *)
Definition store_ok (d : store) : Prop :=
  forall room r device v,
    d !! room = Some r -> r !! device = Some v -> in_domain device v = true.

(** The value that a pending callback will write is in its domain. *)
Definition task_ok (tk : task) : Prop :=
  match tk with
  | ApplyCommand device _ _ val => in_domain device val = true
  | SceneStep _ device val => in_domain device val = true
  | TimerDue _ _ device action => in_domain device (timerValue action) = true
  | SceneDone _ | HelpText | Welcome => True
  end.

(** ** Vocabulary of the statements *)

(** What an operation that only reports leaves: the state as it was, but
    for [entries] sent to the sinks. *)
Definition only_reports (s s' : state) (entries : list feedback) : Prop :=
  s' = set_log (log s ++ entries) s.

(** A panel entry without a time prefix, or a spoken text. *)
Definition unstamped (f : feedback) : Prop :=
  match f with
  | Panel (Some _) _ _ => False
  | _ => True
  end.

(** The entry that the panel gets when the input is rejected. *)
Definition rejection (s : state) : feedback :=
  Panel (Some (now s)) lowConfidenceText Error.

(** The entry that echoes the utterance. *)
Definition echo (command : string) (confidence : Q) (s : state) : feedback :=
  Panel (Some (now s))
    (Str.dquote +:+ command +:+ Str.dquote +:+
     (if ltb confidence 1 then " (" +:+ pretty (percent confidence) +:+ "%)" else ""))
    Normal.

(** The device and the value of an intent agree. *)
Definition intent_ok (i : intent) : Prop :=
  match i with
  | Device device _ _ val => in_domain device val = true
  | Timer device _ action _ _ => in_domain device (timerValue action) = true
  | _ => True
  end.

(** The invariant of the application: the store, the saved snapshot and the
    values that the pending callbacks carry are in their domains. *)
Definition invariant (s : state) : Prop :=
  store_ok (devices s) /\
  (forall d, saved s = Some d -> store_ok d) /\
  Forall (fun e => task_ok (snd e)) (queue s).

(** The domains, spelled out for the three kinds with an enumerated or
    bounded domain. *)
Definition within_domain (device : string) (v : value) : Prop :=
  (device = "lights" -> exists n, v = VNum n /\ 0 <= n <= 100) /\
  (device = "music" ->
     v = VStr "playing" \/ v = VStr "paused" \/ v = VStr "stopped") /\
  (device = "security" -> v = VStr "armed" \/ v = VStr "disarmed").

(** A source of draws and a start for the instances below. *)
Definition rnd0 : nat -> Q := fun _ => 0%Q.
Definition s0 : state := boot None [] false true 0 true false.

End Home.

(** ** Prefixes *)

Module Prefix.
Import Normalizer.

(** [p] is a prefix of [s]. *)
Definition is_prefix (p s : string) : Prop := exists t, s = p +:+ t.

(** [p] is a prefix of [s] other than [s]: a truncation of [s]. *)
Definition proper_prefix (p s : string) : Prop := is_prefix p s /\ p <> s.

(** The truncations of [s], the shortest first. *)
Fixpoint truncations (s : string) : list string :=
  match s with
  | EmptyString => []
  | String c s' => EmptyString :: map (String c) (truncations s')
  end.

(** Every truncation of every alias stands, once normalized, in the prefix
    relation with some entry of the table. *)
Definition truncations_matched : bool :=
  forallb (fun e =>
    forallb (fun p =>
      match partial_match (Str.toLowerCase (Str.trim p)) with
      | Some _ => true
      | None => false
      end) (truncations (fst e))) roomMap.

(** The truncations that an entry of another room takes before the alias
    they truncate is reached. *)
Definition taken_early : list string := [""; "m"; "ma"].

(** Does the truncation [p] resolve as the statement on truncations says:
    to the living room when it is taken early, and to the room [canonical]
    of its alias otherwise? *)
Definition resolves (p canonical : string) : bool :=
  match normalizeRoom p with
  | Room r =>
      String.eqb r (if existsb (String.eqb p) taken_early then "living-room"
                    else canonical)
  | Member _ => false
  end.

Definition truncations_resolved : bool :=
  forallb (fun e => forallb (fun p => resolves p (snd e)) (truncations (fst e)))
    roomMap.

(** The upper case of [s], with blanks around it. *)
Fixpoint shout (s : string) : string :=
  match s with
  | EmptyString => EmptyString
  | String c s' => String (Str.upper c) (shout s')
  end.

Definition padded (s : string) : string := "  " +:+ shout s +:+ " ".

End Prefix.

(** ** Finite languages of groups

    What a group without [+] and [*] can capture: finitely many words. *)

Module Words.
Import Regex.

(** The text of a capture as the parser compares it: under the [i] flag,
    in lower case. *)
Definition fold (icase : bool) (s : string) : string :=
  if icase then Str.toLowerCase s else s.

(** The code units. *)
Definition all_chars : list ascii := map ascii_of_nat (List.seq 0 256).

(** Under the [i] flag, every character that matches the literal [a] has
    [a] as its lower case. *)
Definition stable (a : ascii) : bool :=
  forallb (fun b =>
    implb (Ascii.eqb (Str.upper a) (Str.upper b)) (Ascii.eqb (Str.lower b) a))
    all_chars.

(** The words that [r] matches, when they are finitely many. *)
Fixpoint words (icase : bool) (r : regex) : option (list string) :=
  match r with
  | RLit p => if implb icase (Str.all stable p) then Some [p] else None
  | ROut => Some []
  | RPlus _ | RStar _ => None
  | RSeq r1 r2 =>
      match words icase r1, words icase r2 with
      | Some l1, Some l2 =>
          Some (flat_map (fun w1 => map (String.append w1) l2) l1)
      | _, _ => None
      end
  | RAlt r1 r2 =>
      match words icase r1, words icase r2 with
      | Some l1, Some l2 => Some (l1 ++ l2)
      | _, _ => None
      end
  | ROpt r1 =>
      match words icase r1 with
      | Some l1 => Some (EmptyString :: l1)
      | None => None
      end
  | RGroup _ r1 => words icase r1
  end.

(** Every group numbered [n] in [r] matches finitely many words, all of
    which pass [p]. *)
Fixpoint group_in (icase : bool) (p : string -> bool) (n : nat) (r : regex) : bool :=
  match r with
  | RGroup m r1 =>
      if Nat.eqb m n
      then match words icase r1 with
           | Some l => forallb p l
           | None => false
           end
      else group_in icase p n r1
  | RSeq r1 r2 | RAlt r1 r2 => group_in icase p n r1 && group_in icase p n r2
  | ROpt r1 => group_in icase p n r1
  | _ => true
  end.

(** The group numbered [n] holds a text that passes [p]. *)
Definition captured_by (icase : bool) (p : string -> bool) (n : nat)
    (c : captures) : Prop :=
  exists w, c !! n = Some w /\ p (fold icase w) = true.

(** [w] is one of [l]. *)
Definition one_of (l : list string) (w : string) : bool :=
  existsb (String.eqb w) l.

End Words.

(** ** Handlers of the page and of the recognizers *)

Module Handlers.
Export Home.

(** A result of the browser recognizer: [results[i].isFinal],
    [results[i][0].transcript] and [results[i][0].confidence], which a
    recognizer may leave out. *)
Record segment : Type := {
  isFinal : bool;
  transcript : string;
  reported : option Q
}.

(** [confidence || 1]: the confidence that is absent and the confidence 0
    read 1. *)
Definition or_one (c : option Q) : Q :=
  match c with
  | Some x => if Qeq_bool x 0 then 1 else x
  | None => 1
  end.

(** The loop of [recognition.onresult] over the results from
    [event.resultIndex] on. *)
Fixpoint collect (results : list segment) (finalTranscript : string)
    (confidence : Q) : string * Q :=
  match results with
  | [] => (finalTranscript, confidence)
  | r :: results' =>
      if isFinal r
      then collect results' (finalTranscript +:+ transcript r) (or_one (reported r))
      else collect results' finalTranscript confidence
  end.

(** The [confidence] of an answer of the transcription service: it has
    none, it is [null], or it is a number. *)
Inductive reading : Type :=
| Unset
| Null
| Number (c : Q).

(** The confidence that [processCommand] works with: its parameter has the
    default 1, which stands in for an argument that is [undefined] only;
    [null] counts as 0 in each of its comparisons and in the product. *)
Definition confidence_of (c : reading) : Q :=
  match c with
  | Unset => 1
  | Null => 0
  | Number q => q
  end.

(** The answer of the transcription service, as [processWhisperAudio]
    reads it; the empty [r_error] stands for an answer without [error]. *)
Record response : Type := {
  r_status : string;
  r_text : string;
  r_confidence : reading;
  r_error : string
}.

(** What the request to the service comes to: it fails (no connection, a
    status that is not ok), with a message, or it answers. *)
Inductive outcome : Type :=
| Failed (message : string)
| Answer (r : response).

(** What the request of [checkWhisperAvailability] comes to: it raises, or
    it answers with [response.ok] and the [status] of its body. *)
Inductive health : Type :=
| Unreachable
| Health (ok : bool) (status : string).

Definition set_whisperAvailable (b : bool) (s : state) : state :=
  {| devices := devices s; saved := saved s; activeTimers := activeTimers s;
     queue := queue s; now := now s; draws := draws s; log := log s;
     voiceResponseEnabled := voiceResponseEnabled s; synthesis := synthesis s;
     useWhisperBackend := useWhisperBackend s;
     whisperAvailable := b; commandHistory := commandHistory s |}.

(** [checkWhisperAvailability] *)
Definition checkWhisperAvailability (h : health) (s : state) : state :=
  match h with
  | Health true status =>
      let s1 := set_whisperAvailable (String.eqb status "healthy") s in
      if whisperAvailable s1
      then addToDebugPanel None "Whisper backend available" Success s1
      else s1
  | Health false _ => s
  | Unreachable =>
      let s1 := set_whisperAvailable false s in
      if useWhisperBackend s1
      then set_useWhisperBackend false
             (addToDebugPanel None
                "Whisper backend unavailable, falling back to Web Speech API"
                Error s1)
      else s1
  end.

(** The test of [startListening]: does the application record for the
    transcription service? *)
Definition listensWithWhisper (s : state) : bool :=
  useWhisperBackend s && whisperAvailable s.

(** [showError] *)
Definition showError (message : string) (s : state) : state :=
  addToDebugPanel (Some (now s)) ("Error: " +:+ message) Error s.

(** [value === text] *)
Definition is_text (v : option value) (text : string) : bool :=
  match v with
  | Some (VStr t) => String.eqb t text
  | _ => false
  end.

Section Handlers.

Variable rnd : nat -> Q.

(** The outcome of [text > 0] for a string, which follows the conversion of
    the string to a number. *)
Variable positive : string -> bool.

(** [recognition.onresult] *)
Definition onresult (results : list segment) (s : state) : state :=
  let (finalTranscript, confidence) := collect results "" 0 in
  match Str.trim finalTranscript with
  | EmptyString => s
  | command => processCommand rnd command confidence s
  end.

(** The end of [processWhisperAudio], from the answer of the service on;
    its [catch] reports an exception of [processCommand]. *)
Definition processWhisperAudio (o : outcome) (s : state) : state :=
  match o with
  | Failed message => showError ("Whisper processing failed: " +:+ message) s
  | Answer r =>
      if String.eqb (r_status r) "success"
         && negb (String.eqb (Str.trim (r_text r)) "")
      then
        match processCommand rnd (Str.trim (r_text r))
                (confidence_of (r_confidence r)) s with
        | Returns s' => s'
        | Throws message s' =>
            showError ("Whisper processing failed: " +:+ message) s'
        end
      else if String.eqb (r_status r) "no_speech_detected"
      then addToDebugPanel None "No speech detected" Error s
      else if negb (String.eqb (r_error r) "")
      then showError ("Whisper error: " +:+ r_error r) s
      else s
  end.

(** [currentValue > 0] *)
Definition above_zero (v : option value) : bool :=
  match v with
  | Some (VNum n) => 0 <? n
  | Some (VStr t) => positive t
  | Some VInfinity => true
  | None => false
  end.

(** The command that the click handler of a device card builds from the
    current value; [None] for a device that the [switch] does not know. *)
Definition toggle (room device : string) (currentValue : option value)
  : option intent :=
  if String.eqb device "lights" then
    let isOn := above_zero currentValue in
    Some (Device "lights" (Room room) (if isOn then "off" else "on")
            (VNum (if isOn then 0 else 100)))
  else if String.eqb device "music" then
    let isPlaying := is_text currentValue "playing" in
    Some (Device "music" (Room room) (if isPlaying then "stop" else "play")
            (VStr (if isPlaying then "stopped" else "playing")))
  else if String.eqb device "security" then
    let isArmed := is_text currentValue "armed" in
    Some (Device "security" (Room room) (if isArmed then "disarm" else "arm")
            (VStr (if isArmed then "disarmed" else "armed")))
  else if String.eqb device "thermostat" then
    let temp := match currentValue with
                | Some (VNum n) => Num.Int n
                | Some VInfinity => Num.Infinity
                | _ => Num.Int 72
                end in
    let temp := match temp with
                | Num.Int n => if 76 <=? n then 68 else n + 1
                | Num.Infinity => 68
                end in
    Some (Device "thermostat" (Room room) "set" (VNum temp))
  else None.

(** [this.devices[room][device]] as the click handler reads it, for a
    device of its [switch]: no inherited member has a property of such a
    name.  [None] when [this.devices[room]] is [undefined] and the reading
    raises a [TypeError]. *)
Definition currentValue (room device : string) (s : state)
  : option (option value) :=
  match room_of (devices s) room with
  | Own r => Some (r !! device)
  | Inherited _ => Some None
  | Missing => None
  end.

(** The click handler that [setupDeviceCardHandlers] gives to the card of
    [device] in [room]; an empty name stands for a missing attribute. *)
Definition clickDeviceCard (room device : string) (s : state) : state :=
  if String.eqb room "" || String.eqb device "" then s
  else
    match currentValue room device s with
    | None => emit (Uncaught "TypeError") s
    | Some current =>
        match toggle room device current with
        | None => s
        | Some command =>
            executeCommand rnd command
              (addToDebugPanel None
                 ("Manual control: " +:+ device +:+ " in " +:+ room) Success s)
        end
    end.


(** What can happen to the application, the clicks on the cards and the
    answers of the recognizers included. *)
Inductive event_step : state -> state -> Prop :=
| ev_core (s s' : state) : step rnd s s' -> event_step s s'
| ev_result (results : list segment) (s : state) :
    event_step s (onresult results s)
| ev_whisper (o : outcome) (s : state) :
    event_step s (processWhisperAudio o s)
| ev_click (room device : string) (s : state) :
    event_step s (clickDeviceCard room device s)
| ev_health (h : health) (s : state) :
    event_step s (checkWhisperAvailability h s).

Inductive event_reachable (s0 : state) : state -> Prop :=
| ev_start : event_reachable s0 s0
| ev_next (s s' : state) :
    event_reachable s0 s -> event_step s s' -> event_reachable s0 s'.

End Handlers.

End Handlers.

(** ** Vocabulary of the further statements *)

Module Vocabulary.
Export Handlers.

(** The units that the timer pattern accepts. *)
Definition timer_units : list string :=
  ["minutes"; "minute"; "mins"; "min"; "hours"; "hour"; "hrs"; "hr"].

(** The names of the scenes and the actions of the settings that the parser
    builds. *)
Definition scene_names : list string := ["movie"; "goodnight"; "morning"; "party"].
Definition settings_actions : list string :=
  ["disable_voice"; "enable_voice"; "use_whisper"; "use_webspeech"].

(** The room that an intent names. *)
Definition intent_room (i : intent) : option location :=
  match i with
  | Device _ room _ _ | Timer _ room _ _ _ => Some room
  | _ => None
  end.

(** What the parser can take for a room: one of the three rooms, or the
    member that every object inherits under a name in lower case. *)
Definition room_or_member (room : location) : Prop :=
  match room with
  | Room id => In id room_ids
  | Member name => name = "constructor" \/ name = "__proto__"
  end.

(** The action and the value of a device command agree. *)
Definition coherent (device action : string) (val : value) : Prop :=
  (device = "lights" /\
     ((action = "on" /\ val = VNum 100) \/ (action = "off" /\ val = VNum 0) \/
      (action = "dim" /\ exists n, val = VNum n /\ 0 <= n <= 100))) \/
  (device = "thermostat" /\ action = "set" /\
     (val = VInfinity \/ exists n, val = VNum n /\ 0 <= n)) \/
  (device = "music" /\
     ((action = "play" /\ val = VStr "playing") \/
      (action = "stop" /\ val = VStr "stopped") \/
      (action = "pause" /\ val = VStr "paused"))) \/
  (device = "security" /\
     ((action = "arm" /\ val = VStr "armed") \/
      (action = "disarm" /\ val = VStr "disarmed"))).

(** The transcripts of the final results, one after the other. *)
Fixpoint finals (results : list segment) : string :=
  match results with
  | [] => EmptyString
  | r :: results' =>
      if isFinal r then transcript r +:+ finals results' else finals results'
  end.

(** The last final result. *)
Fixpoint last_final (results : list segment) : option segment :=
  match results with
  | [] => None
  | r :: results' =>
      match last_final results' with
      | Some r' => Some r'
      | None => if isFinal r then Some r else None
      end
  end.

(** A spoken text that was not voiced, or another entry. *)
Definition unvoiced (f : feedback) : Prop :=
  match f with
  | Say true _ => False
  | _ => True
  end.

(** An entry of the history records the parse of its own utterance. *)
Definition entry_ok (e : entry) : Prop :=
  e_parsed e = parseCommand (Str.toLowerCase (e_command e)) /\
  e_success e = match e_parsed e with Some _ => true | None => false end.

(** The temperature after a click on the card of a thermostat at [t]. *)
Definition next_temperature (t : Z) : Z := if 76 <=? t then 68 else t + 1.

(** A click on the card of [device] in [room], and then the callbacks
    that are pending. *)
Definition click_and_settle (rnd : nat -> Q) (positive : string -> bool)
    (room device : string) (s : state) : state :=
  snd (settle rnd (clickDeviceCard rnd positive room device s)).

(** Nothing is pending, and [room] is a room of the store whose devices
    include none of the name [hasOwnProperty], with the thermostat at
    [t]. *)
Definition thermostat_at (room : string) (t : Z) (s : state) : Prop :=
  queue s = [] /\
  exists r, devices s !! room = Some r /\ r !! "hasOwnProperty" = None /\
            r !! "thermostat" = Some (VNum t).

(** The confidence that [recognition.onresult] hands on. *)
Definition heard (results : list segment) : Q :=
  match last_final results with
  | Some r => or_one (reported r)
  | None => 0
  end.

(** The entry that the history gets for [command] at the time [t]. *)
Definition recorded (command : string) (t : Z) : entry :=
  let parsed := parseCommand (Str.toLowerCase command) in
  {| e_command := command; e_parsed := parsed;
     e_success := match parsed with Some _ => true | None => false end;
     e_timestamp := t |}.

(** One utterance after the other, each with its confidence. *)
Definition process_all (rnd : nat -> Q) (inputs : list (string * Q)) (s : state)
  : state :=
  foldl (fun st input => settled (processCommand rnd (fst input) (snd input) st))
    s inputs.

Definition throws (c : completion) : bool :=
  match c with
  | Throws _ _ => true
  | Returns _ => false
  end.

(** Does the execution of what [command] parses to throw in [s]? *)
Definition fails (rnd : nat -> Q) (command : string) (s : state) : bool :=
  match parseCommand (Str.toLowerCase command) with
  | Some parsed => throws (executeCommand rnd parsed s)
  | None => false
  end.

(** The utterances that pass the gate of the confidence and whose
    execution does not throw in [s]. *)
Definition passed (rnd : nat -> Q) (inputs : list (string * Q)) (s : state)
  : list string :=
  map fst (filter (fun input => negb (lowConfidence (snd input))
                                && negb (fails rnd (fst input) s)) inputs).

(** [s] contains [sub]. *)
Definition contains (s sub : string) : Prop := exists a b, s = a +:+ sub +:+ b.

(** The store after the steps of a scene, one after the other. *)
Fixpoint run_steps (steps : list (string * string * value)) (d : store) : store :=
  match steps with
  | [] => d
  | (room, device, val) :: steps' =>
      run_steps steps' (default d (assign room device val d))
  end.

(** The callbacks of the steps of a scene from the index [index] on, each
    with the time at which it is due when the scene is called at [t]. *)
Fixpoint step_firings (steps : list (string * string * value)) (index t : Z)
  : list (Z * task) :=
  match steps with
  | [] => []
  | (room, device, val) :: steps' =>
      (t + index * 500, SceneStep room device val)
      :: step_firings steps' (index + 1) t
  end.

End Vocabulary.

(** * Properties *)

(** ** Strings and prefixes *)

Module StrFacts.
Import Str Prefix.

Lemma startsWith_prefix (s p : string) :
  startsWith s p = true <-> is_prefix p s.
Proof.
  revert s; induction p as [|a p IH]; intros s; simpl.
  - split; [intros _; exists s; reflexivity | reflexivity].
  - destruct s as [|b s].
    + split; [discriminate | intros [t Ht]; discriminate].
    + destruct (Ascii.eqb_spec a b) as [->|Hne].
      * rewrite IH. split; intros [t Ht]; exists t; simpl in *;
          [rewrite Ht; reflexivity | injection Ht; auto].
      * split; [discriminate | intros [t Ht]; simpl in Ht; injection Ht; intros; subst; tauto].
Qed.

Lemma startsWith_not_prefix (s p : string) :
  startsWith s p = false <-> ~ is_prefix p s.
Proof.
  rewrite <- startsWith_prefix. destruct (startsWith s p); split; congruence.
Qed.

Lemma truncations_spec (p s : string) :
  proper_prefix p s <-> In p (truncations s).
Proof.
  revert p; induction s as [|c s IH]; intros p; simpl.
  - split; [|contradiction].
    intros [[t Ht] Hne]. destruct p; [congruence | discriminate].
  - split.
    + intros [[t Ht] Hne]. destruct p as [|a p]; [left; reflexivity | right].
      simpl in Ht. injection Ht as <- ->. apply in_map, IH.
      split; [exists t; reflexivity | congruence].
    + intros [<- | Hin].
      * split; [exists (String c s); reflexivity | discriminate].
      * apply in_map_iff in Hin as (q & <- & Hq). apply IH in Hq as [[t ->] Hne].
        split; [exists t; reflexivity | congruence].
Qed.

(** [find] returns the first element that passes the test. *)
Lemma find_first {A : Type} (f : A -> bool) (l : list A) (x : A) :
  List.find f l = Some x ->
  exists l1 l2, l = l1 ++ x :: l2 /\ f x = true /\ Forall (fun y => f y = false) l1.
Proof.
  induction l as [|a l IH]; simpl; [discriminate|].
  destruct (f a) eqn:Ha.
  - intros [= ->]. exists [], l. auto.
  - intros H. destruct (IH H) as (l1 & l2 & -> & Hx & Hl1).
    exists (a :: l1), l2. auto.
Qed.

Lemma lower_idem (c : ascii) : lower (lower c) = lower c.
Proof. destruct c as [[] [] [] [] [] [] [] []]; reflexivity. Qed.

(** A lower-cased string is its own lower case. *)
Lemma toLowerCase_idem (s : string) : toLowerCase (toLowerCase s) = toLowerCase s.
Proof.
  induction s as [|c s IH]; simpl; [reflexivity|]. rewrite lower_idem, IH. reflexivity.
Qed.

End StrFacts.

(** ** Regular expressions: the digit groups *)

Module RegexFacts.
Import Str Regex.

Lemma length_append (w s : string) :
  String.length (w +:+ s) = (String.length w + String.length s)%nat.
Proof. induction w as [|a w IH]; simpl; [reflexivity | rewrite IH; reflexivity]. Qed.

Lemma substring_append (w s : string) :
  String.substring 0 (String.length w) (w +:+ s) = w.
Proof.
  induction w as [|a w IH]; simpl; [destruct s; reflexivity | rewrite IH; reflexivity].
Qed.

Lemma consumed_append (w s : string) : consumed (w +:+ s) s = w.
Proof.
  unfold consumed. rewrite length_append.
  replace (String.length w + String.length s - String.length s)%nat
    with (String.length w) by lia.
  apply substring_append.
Qed.

(** A success of [cs*] is a success of what follows, after a run of [cs]. *)
Lemma star_then (cs : cset) (s : string) (k : string -> option captures)
    (c : captures) :
  star cs s k = Some c ->
  exists w s', s = w +:+ s' /\ all (cset_mem cs) w = true /\ k s' = Some c.
Proof.
  induction s as [|a s IH]; simpl.
  - intros H. exists "", "". auto.
  - destruct (cset_mem cs a) eqn:Ha.
    + destruct (star cs s k) as [c0|] eqn:Hs.
      * intros [= ->]. destruct (IH eq_refl) as (w & s' & -> & Hw & Hk).
        exists (String a w), s'. simpl. rewrite Ha, Hw. auto.
      * intros H. exists "", (String a s). auto.
    + intros H. exists "", (String a s). auto.
Qed.

Lemma plus_then (cs : cset) (s : string) (k : string -> option captures)
    (c : captures) :
  plus cs s k = Some c ->
  exists w s', s = w +:+ s' /\ w <> "" /\ all (cset_mem cs) w = true /\
               k s' = Some c.
Proof.
  unfold plus. destruct s as [|a s]; [discriminate|].
  destruct (cset_mem cs a) eqn:Ha; [|discriminate].
  intros H. apply star_then in H as (w & s' & -> & Hw & Hk).
  exists (String a w), s'. simpl. rewrite Ha, Hw.
  split; [reflexivity|]. split; [discriminate|]. split; [reflexivity | exact Hk].
Qed.

(** A success of [run] is a success of its continuation. *)
Lemma run_then (icase : bool) (r : regex) (s : string) (caps : captures)
    (k : string -> captures -> option captures) (c : captures) :
  run icase r s caps k = Some c -> exists s' caps', k s' caps' = Some c.
Proof.
  revert s caps k. induction r as [p| |cs|cs|r1 IH1 r2 IH2|r1 IH1 r2 IH2|r1 IH1|m r1 IH1];
    intros s caps k; simpl.
  - destruct (lit icase p s); [eauto | discriminate].
  - discriminate.
  - intros H. apply plus_then in H as (w & s' & _ & _ & _ & H). eauto.
  - intros H. apply star_then in H as (w & s' & _ & _ & H). eauto.
  - intros H. apply IH1 in H as (s1 & c1 & H). apply IH2 in H. exact H.
  - destruct (run icase r1 s caps k) as [c0|] eqn:H1.
    + intros [= ->]. apply IH1 in H1. exact H1.
    + apply IH2.
  - destruct (run icase r1 s caps k) as [c0|] eqn:H1.
    + intros [= ->]. apply IH1 in H1. exact H1.
    + eauto.
  - intros H. apply IH1 in H as (s1 & c1 & H). eauto.
Qed.

Section Digits.

Variable n : nat.

Lemma captured_insert (w : string) (caps : captures) :
  w <> "" -> all is_digit w = true -> captured n (<[n := w]> caps).
Proof.
  intros Hne Hw. exists w. rewrite lookup_insert_eq. split; [reflexivity|].
  destruct w; [congruence | exact Hw].
Qed.

Lemma captured_insert_ne (m : nat) (w : string) (caps : captures) :
  m <> n -> captured n caps -> captured n (<[m := w]> caps).
Proof.
  intros Hne (v & Hv & Hd). exists v. rewrite lookup_insert_ne by exact Hne. auto.
Qed.

Lemma run_group (icase : bool) (r1 : regex) (s : string) (caps : captures)
    (k : string -> captures -> option captures) (c : captures) :
  match r1 with RPlus CDigit => true | _ => false end = true ->
  run icase (RGroup n r1) s caps k = Some c ->
  exists s' caps', captured n caps' /\ k s' caps' = Some c.
Proof.
  destruct r1 as [| |[]| | | | |]; try discriminate. intros _. simpl.
  intros H. apply plus_then in H as (w & s' & -> & Hne & Hw & Hk).
  rewrite consumed_append in Hk. eexists _, _. split; [|exact Hk].
  apply captured_insert; assumption.
Qed.

(** A match keeps the digits of the group. *)
Lemma run_keeps (icase : bool) (r : regex) (s : string) (caps : captures)
    (k : string -> captures -> option captures) (c : captures) :
  digit_group n r = true -> captured n caps ->
  run icase r s caps k = Some c ->
  exists s' caps', captured n caps' /\ k s' caps' = Some c.
Proof.
  revert s caps k. induction r as [p| |cs|cs|r1 IH1 r2 IH2|r1 IH1 r2 IH2|r1 IH1|m r1 IH1];
    intros s caps k Hd Hc.
  - simpl. destruct (lit icase p s); [eauto | discriminate].
  - discriminate.
  - simpl. intros H. apply plus_then in H as (w & s' & _ & _ & _ & H). eauto.
  - simpl. intros H. apply star_then in H as (w & s' & _ & _ & H). eauto.
  - simpl in Hd. apply andb_true_iff in Hd as [Hd1 Hd2]. simpl. intros H.
    apply (IH1 _ _ _ Hd1 Hc) in H as (s1 & c1 & Hc1 & H).
    exact (IH2 _ _ _ Hd2 Hc1 H).
  - simpl in Hd. apply andb_true_iff in Hd as [Hd1 Hd2]. simpl.
    destruct (run icase r1 s caps k) as [c0|] eqn:H1.
    + intros [= ->]. exact (IH1 _ _ _ Hd1 Hc H1).
    + apply IH2; assumption.
  - simpl in Hd. simpl. destruct (run icase r1 s caps k) as [c0|] eqn:H1.
    + intros [= ->]. exact (IH1 _ _ _ Hd Hc H1).
    + eauto.
  - simpl in Hd. destruct (Nat.eqb_spec m n) as [->|Hne].
    + apply run_group. exact Hd.
    + simpl. intros H. apply (IH1 _ _ _ Hd Hc) in H as (s1 & c1 & Hc1 & H).
      eexists _, _. split; [|exact H]. apply captured_insert_ne; assumption.
Qed.

(** A match sets the group that takes part in it. *)
Lemma run_captures (icase : bool) (r : regex) (s : string) (caps : captures)
    (k : string -> captures -> option captures) (c : captures) :
  digit_group n r = true -> takes_part n r = true ->
  run icase r s caps k = Some c ->
  exists s' caps', captured n caps' /\ k s' caps' = Some c.
Proof.
  revert s caps k. induction r as [p| |cs|cs|r1 IH1 r2 IH2|r1 IH1 r2 IH2|r1 IH1|m r1 IH1];
    intros s caps k Hd Ht; try discriminate.
  - simpl in Hd, Ht. apply andb_true_iff in Hd as [Hd1 Hd2]. simpl. intros H.
    destruct (takes_part n r1) eqn:Ht1.
    + apply (IH1 _ _ _ Hd1 eq_refl) in H as (s1 & c1 & Hc1 & H).
      exact (run_keeps _ _ _ _ _ _ Hd2 Hc1 H).
    + apply run_then in H as (s1 & c1 & H). exact (IH2 _ _ _ Hd2 Ht H).
  - simpl in Hd, Ht. apply andb_true_iff in Hd as [Hd1 Hd2].
    apply andb_true_iff in Ht as [Ht1 Ht2]. simpl.
    destruct (run icase r1 s caps k) as [c0|] eqn:H1.
    + intros [= ->]. exact (IH1 _ _ _ Hd1 Ht1 H1).
    + apply IH2; assumption.
  - simpl in Hd, Ht. destruct (Nat.eqb_spec m n) as [->|Hne].
    + apply run_group. exact Hd.
    + simpl in Ht. simpl. intros H.
      apply (IH1 _ _ _ Hd Ht) in H as (s1 & c1 & Hc1 & H).
      eexists _, _. split; [|exact H]. apply captured_insert_ne; assumption.
Qed.

Lemma js_match_captures (icase : bool) (r : regex) (s : string) (c : captures) :
  digit_group n r = true -> takes_part n r = true ->
  js_match icase r s = Some c -> captured n c.
Proof.
  intros Hd Ht. induction s as [|a s IH]; simpl.
  - destruct (run icase r "" ∅ _) as [c0|] eqn:H; [|discriminate].
    intros [= ->]. apply (run_captures _ _ _ _ _ _ Hd Ht) in H
      as (s1 & c1 & Hc1 & [= ->]). exact Hc1.
  - destruct (run icase r (String a s) ∅ _) as [c0|] eqn:H; [|exact IH].
    intros [= ->]. apply (run_captures _ _ _ _ _ _ Hd Ht) in H
      as (s1 & c1 & Hc1 & [= ->]). exact Hc1.
Qed.

End Digits.

(** Whenever the parser applies [parseInt] to a group, the group holds a
    non-empty string of digits. *)
Lemma digit_groups_captured (command : string) (m : captures) :
  (js_match true Parser.timer_re command = Some m -> captured 3 m) /\
  (js_match false Parser.dim_re command = Some m -> captured 2 m) /\
  (js_match false Parser.temperature_re command = Some m -> captured 1 m) /\
  (js_match false Parser.room_temperature_re command = Some m -> captured 2 m).
Proof. repeat split; apply js_match_captures; reflexivity. Qed.

End RegexFacts.

(** ** Numbers *)

Module NumFacts.
Import Num.

Lemma nearest_nonneg (n : Z) : 0 <= n -> 0 <= nearest n.
Proof.
  intros Hn. unfold nearest. destruct (Z.leb_spec (Z.log2 n - 52) 0); [exact Hn|].
  apply Z.shiftl_nonneg.
  assert (0 <= Z.shiftr n (Z.log2 n - 52)) by (apply Z.shiftr_nonneg; exact Hn).
  destruct (_ || _); lia.
Qed.

(** A whole number up to [2^53] is a number as it is. *)
Lemma nearest_exact (n : Z) : 0 <= n <= 2 ^ 53 -> nearest n = n.
Proof.
  intros [Hn Hle]. unfold nearest.
  destruct (Z.leb_spec (Z.log2 n - 52) 0) as [|He]; [reflexivity|].
  assert (Hn53 : n = 2 ^ 53).
  { destruct (Z.lt_ge_cases n (2 ^ 53)) as [Hlt|]; [|lia].
    assert (0 < n) by (destruct (Z.eq_dec n 0) as [->|]; [simpl in He|]; lia).
    apply Z.log2_lt_pow2 in Hlt; lia. }
  subst n. vm_compute. reflexivity.
Qed.

Lemma of_Z_exact (n : Z) : 0 <= n <= 2 ^ 53 -> of_Z n = Int n.
Proof.
  intros Hn. unfold of_Z. rewrite (nearest_exact n Hn).
  assert (H : 2 ^ 53 < 2 ^ 1024) by (vm_compute; reflexivity).
  destruct (Z.ltb_spec n (2 ^ 1024)); [reflexivity | lia].
Qed.

(** The number for a whole number that is not negative is [Infinity] or a
    whole number that is not negative. *)
Lemma of_Z_cases (n : Z) :
  0 <= n -> of_Z n = Infinity \/ exists m, of_Z n = Int m /\ 0 <= m.
Proof.
  intros Hn. unfold of_Z. destruct (_ <? _); [right | left; reflexivity].
  eexists. split; [reflexivity | apply nearest_nonneg, Hn].
Qed.


Lemma timeout_nonneg (x : number) : 0 <= timeout x.
Proof. destruct x; simpl; lia. Qed.

(** *** Rounding a rational *)

Lemma to_even_ge (y : Q) (n : Z) : (inject_Z n <= y)%Q -> n <= to_even y.
Proof.
  intros H. assert (Hf : n <= Qfloor y).
  { rewrite <- (Qfloor_Z n). apply Qfloor_resp_le. exact H. }
  unfold to_even. destruct (Qcompare _ _); [destruct (Z.even _)| |]; lia.
Qed.

Lemma to_even_le (y : Q) (n : Z) : (y <= inject_Z n)%Q -> to_even y <= n.
Proof.
  intros H. pose proof (Qfloor_le y) as Hf.
  assert (Hle : Qfloor y <= n).
  { rewrite Zle_Qle. eapply Qle_trans; [exact Hf | exact H]. }
  assert (Hup : (0 < y - inject_Z (Qfloor y))%Q -> Qfloor y + 1 <= n).
  { intros Hpos. assert (Hlt : (inject_Z (Qfloor y) < inject_Z n)%Q).
    { eapply Qlt_le_trans; [|exact H]. 
      apply (Qplus_lt_l _ _ (- inject_Z (Qfloor y))). 
      rewrite Qplus_opp_r. exact Hpos. }
    rewrite <- Zlt_Qlt in Hlt. lia. }
  unfold to_even. destruct (Qcompare _ _) eqn:Hc.
  - destruct (Z.even _); [exact Hle|]. apply Hup.
    apply Qeq_alt in Hc. rewrite Hc. reflexivity.
  - exact Hle.
  - apply Hup. apply Qgt_alt in Hc. eapply Qlt_trans; [|exact Hc]. reflexivity.
Qed.

Lemma exponent_le (x : Q) (k : Z) :
  (0 < x)%Q -> (x <= inject_Z (2 ^ k))%Q -> 0 <= k -> exponent x <= k.
Proof.
  intros Hpos Hle Hk.
  assert (He : Z.log2 (Qnum x) - Z.log2 (Z.pos (Qden x)) <= k).
  { destruct x as [n d]. unfold Qle in Hle. unfold Qlt in Hpos.
    cbn [Qnum Qden inject_Z] in *. rewrite Z.mul_1_r in *.
    assert (Hn : n <= Z.pos d * 2 ^ k) by lia.
    apply Z.log2_le_mono in Hn. rewrite Z.log2_mul_pow2 in Hn by lia. lia. }
  unfold exponent. destruct (Qle_bool _ _); lia.
Qed.

Lemma Qpower_2_opp (k : Z) :
  0 <= k -> (Qpower 2 (- k) * inject_Z (2 ^ k) == 1)%Q.
Proof.
  intros Hk. rewrite Qpower_opp.
  assert (H : (inject_Z (2 ^ k) == Qpower 2 k)%Q) by (apply Zpower_Qpower; exact Hk).
  rewrite H. rewrite Qmult_comm. apply Qmult_inv_r.
  rewrite <- H. intros H0. 
  assert (0 < 2 ^ k) by (apply Z.pow_pos_nonneg; lia).
  unfold Qeq in H0. simpl in H0. lia.
Qed.

Lemma double_between (a b : Z) (x : Q) :
  (inject_Z a <= x)%Q -> (x <= inject_Z b)%Q -> b <= 2 ^ 52 ->
  (inject_Z a <= double x)%Q /\ (double x <= inject_Z b)%Q.
Proof.
  intros Ha Hb Hb52. unfold double.
  destruct (Qle_bool x 0) eqn:H0; [auto|].
  assert (Hpos : (0 < x)%Q).
  { apply Qnot_le_lt. intros H. apply Qle_bool_iff in H. congruence. }
  assert (He : exponent x <= 52).
  { apply exponent_le; [exact Hpos | | lia].
    eapply Qle_trans; [exact Hb|]. rewrite <- Zle_Qle. exact Hb52. }
  set (k := 52 - exponent x). assert (Hk : 0 <= k) by lia.
  replace (exponent x - 52) with (- k) by lia.
  pose proof (Qpower_2_opp k Hk) as Hinv.
  assert (Hp : (0 < inject_Z (2 ^ k))%Q).
  { change 0%Q with (inject_Z 0). rewrite <- Zlt_Qlt. apply Z.pow_pos_nonneg; lia. }
  assert (Hq : (0 < Qpower 2 (- k))%Q).
  { apply Qpower_0_lt. reflexivity. }
  assert (Hy : (x / Qpower 2 (- k) == x * inject_Z (2 ^ k))%Q).
  { unfold Qdiv. apply Qmult_comp; [reflexivity|].
    rewrite <- (Qmult_1_l (/ Qpower 2 (- k))), <- Hinv.
    rewrite (Qmult_comm (Qpower 2 (- k))), <- Qmult_assoc, Qmult_inv_r, Qmult_1_r;
      [reflexivity|].
    intros Hz. rewrite Hz in Hq. discriminate. }
  assert (Hback : forall n, (inject_Z (n * 2 ^ k) * Qpower 2 (- k) == inject_Z n)%Q).
  { intros n. rewrite inject_Z_mult, <- Qmult_assoc, (Qmult_comm (inject_Z (2 ^ k))),
      Hinv, Qmult_1_r. reflexivity. }
  split.
  - rewrite <- (Hback a). apply Qmult_le_compat_r; [|apply Qlt_le_weak, Hq].
    rewrite <- Zle_Qle. apply to_even_ge. rewrite Hy, inject_Z_mult.
    apply Qmult_le_compat_r; [exact Ha | apply Qlt_le_weak, Hp].
  - rewrite <- (Hback b). apply Qmult_le_compat_r; [|apply Qlt_le_weak, Hq].
    rewrite <- Zle_Qle. apply to_even_le. rewrite Hy, inject_Z_mult.
    apply Qmult_le_compat_r; [exact Hb | apply Qlt_le_weak, Hp].
Qed.

Example of_Z_rounds :
  of_Z (9007199254740991 * 60000) = Int 540431955284459454464 /\
  of_Z (2 ^ 53 + 1) = Int (2 ^ 53) /\ of_Z (2 ^ 53 + 3) = Int (2 ^ 53 + 4) /\
  of_Z (2 ^ 1024) = Infinity.
Proof. vm_compute. repeat split; reflexivity. Qed.

Example show_numbers :
  show (Int 72) = "72" /\ show (of_Z (10 ^ 21)) = "1e+21" /\
  show (of_Z (9007199254740991 * 60000)) = "540431955284459450000" /\
  show Infinity = "Infinity".
Proof. vm_compute. repeat split; reflexivity. Qed.

Example timeout_wraps :
  timeout (Int 2147483647) = 2147483647 /\ timeout (Int 2147520000) = 0 /\
  timeout (Int 4294967296) = 0 /\ timeout (Int 4295027296) = 60000.
Proof. vm_compute. repeat split; reflexivity. Qed.

End NumFacts.

(** ** Room normalizer *)

Module NormalizerFacts.
Import Str Prefix StrFacts Normalizer.

Ltac each_entry H :=
  unfold roomMap in H; simpl in H;
  repeat (destruct H as [H | H]; [try (injection H as <- <-); try subst|]);
  [..|contradiction].

Lemma roomMap_values (e : string * string) :
  In e roomMap -> In (snd e) room_ids.
Proof. intros H. each_entry H; simpl; tauto. Qed.

Lemma inherited_In (key : string) :
  inherited key = true <-> In key inherited_names.
Proof.
  unfold inherited. rewrite existsb_exists. split.
  - intros (k & Hin & Heq). apply String.eqb_eq in Heq as ->. exact Hin.
  - intros Hin. exists key. split; [exact Hin | apply String.eqb_refl].
Qed.

(** No inherited name is a key of the table. *)
Lemma inherited_no_key (key : string) :
  inherited key = true -> roomMap_get key = Some (Member key).
Proof.
  intros H. pose proof H as Hin. apply inherited_In in Hin.
  unfold roomMap_get. rewrite H. simpl in Hin.
  repeat (destruct Hin as [<-|Hin]; [reflexivity|]). contradiction.
Qed.

Lemma roomMap_get_In (key v : string) :
  roomMap_get key = Some (Room v) -> In (key, v) roomMap.
Proof.
  unfold roomMap_get. destruct (List.find _ roomMap) as [[k w]|] eqn:Hf.
  - intros [= <-]. apply find_some in Hf as [Hin Heq]. simpl in Heq.
    apply String.eqb_eq in Heq as <-. exact Hin.
  - destruct (inherited key); discriminate.
Qed.

Lemma roomMap_get_own (key : string) :
  inherited key = false ->
  roomMap_get key = None \/ exists v, roomMap_get key = Some (Room v).
Proof.
  intros H. unfold roomMap_get. rewrite H.
  destruct (List.find _ roomMap) as [[k w]|]; eauto.
Qed.

(** Of the inherited names, [constructor] and [__proto__] are in lower
    case: a lower-cased string names no other. *)
Lemma inherited_lower (s : string) :
  inherited (toLowerCase s) = true <->
  toLowerCase s = "constructor" \/ toLowerCase s = "__proto__".
Proof.
  split.
  - intros H. apply inherited_In in H. pose proof (toLowerCase_idem s) as Hi.
    simpl in H.
    repeat (destruct H as [H|H];
            [first [left; symmetry; exact H | right; symmetry; exact H
                   | rewrite <- H in Hi; vm_compute in Hi; discriminate Hi]|]).
    contradiction.
  - intros [->| ->]; reflexivity.
Qed.

Lemma not_inherited (s : string) :
  toLowerCase s <> "constructor" -> toLowerCase s <> "__proto__" ->
  inherited (toLowerCase s) = false.
Proof.
  intros H1 H2. destruct (inherited (toLowerCase s)) eqn:Hi; [|reflexivity].
  apply inherited_lower in Hi as [Hi|Hi]; contradiction.
Qed.

(** On a key of the table, the exact match and the first entry of the scan
    name the same room. *)
Lemma exact_agrees_with_scan (k v : string) :
  In (k, v) roomMap -> snd <$> partial_match k = Some v.
Proof. intros H. each_entry H; reflexivity. Qed.

(** The result is the member, for an input whose trimmed, lower-cased
    form names an inherited member; otherwise it is the room of the first
    entry that stands in the prefix relation with that form, and the
    default room when there is none. *)
Lemma normalizeRoom_scan (s : string) :
  normalizeRoom s =
  if inherited (toLowerCase (trim s)) then Member (toLowerCase (trim s))
  else Room (default "living-room"
               (snd <$> partial_match (toLowerCase (trim s)))).
Proof.
  unfold normalizeRoom. destruct s as [|c s]; [reflexivity|].
  destruct (inherited _) eqn:Hi.
  - rewrite (inherited_no_key _ Hi). reflexivity.
  - destruct (roomMap_get_own _ Hi) as [Hg|[v Hg]]; rewrite Hg.
    + simpl. destruct (partial_match _); reflexivity.
    + apply roomMap_get_In, exact_agrees_with_scan in Hg.
      simpl. destruct (partial_match _) as [e|]; simpl in *; congruence.
Qed.

(** C6 as stated fails.  Its third part does on [Kitchen], which is no key
    of the table and stands in no prefix relation with a key, and resolves
    to the kitchen: the table is searched for the trimmed, lower-cased
    input.  Its first part does on [constructor] and on [__proto__], for
    which [roomMap] gives what every object inherits under that name, the
    function [Object] and the object [Object.prototype]: no room id. *)
Lemma normalizeRoom_not_as_stated :
  ~ (forall s,
       (forall key v, In (key, v) roomMap ->
          key <> s /\ ~ is_prefix key s /\ ~ is_prefix s key) ->
       normalizeRoom s = Room "living-room") /\
  ~ (forall s, exists id, normalizeRoom s = Room id /\ In id room_ids) /\
  normalizeRoom "Kitchen" = Room "kitchen" /\
  normalizeRoom "constructor" = Member "constructor" /\
  normalizeRoom "__proto__" = Member "__proto__".
Proof.
  split; [|split; [|repeat split; reflexivity]].
  - intros H. specialize (H "Kitchen").
    assert (Hn : normalizeRoom "Kitchen" = Room "kitchen") by reflexivity.
    rewrite H in Hn; [discriminate|].
    intros key v Hin.
    each_entry Hin; (split; [discriminate | split; intros [t Ht]; discriminate]).
  - intros H. destruct (H "constructor") as (id & Hid & _).
    vm_compute in Hid. discriminate.
Qed.

(** C6 (normalizer, totality and table), amended: on every input whose
    trimmed, lower-cased form is neither [constructor] nor [__proto__],
    [normalizeRoom] returns one of the three room ids; on every alias of
    the table it returns the canonical id of that alias, also when the
    alias comes in upper case and with blanks around it; and on an input
    whose trimmed, lower-cased form is neither of the two names, is no key
    of the table, has no key as a prefix and is a prefix of no key, it
    returns the default room [living-room]. *)
Theorem normalizeRoom_total :
  (forall s,
     toLowerCase (trim s) <> "constructor" -> toLowerCase (trim s) <> "__proto__" ->
     exists id, normalizeRoom s = Room id /\ In id room_ids) /\
  (forall alias canonical, In (alias, canonical) roomMap ->
     normalizeRoom alias = Room canonical /\
     normalizeRoom (padded alias) = Room canonical) /\
  (forall s,
     toLowerCase (trim s) <> "constructor" -> toLowerCase (trim s) <> "__proto__" ->
     (forall key v, In (key, v) roomMap ->
        key <> toLowerCase (trim s) /\
        ~ is_prefix key (toLowerCase (trim s)) /\
        ~ is_prefix (toLowerCase (trim s)) key) ->
     normalizeRoom s = Room "living-room").
Proof.
  split; [|split].
  - intros s H1 H2. rewrite normalizeRoom_scan, (not_inherited _ H1 H2).
    eexists. split; [reflexivity|].
    destruct (partial_match _) as [e|] eqn:Hf; simpl; [|tauto].
    apply find_some in Hf as [Hin _]. exact (roomMap_values _ Hin).
  - intros alias canonical H. each_entry H; split; reflexivity.
  - intros s H1 H2 H. rewrite normalizeRoom_scan, (not_inherited _ H1 H2).
    destruct (partial_match _) as [[k v]|] eqn:Hf; [|reflexivity].
    apply find_some in Hf as [Hin Hp]. destruct (H _ _ Hin) as (_ & H3 & H4).
    unfold partial in Hp. simpl in Hp. apply orb_true_iff in Hp as [Hp|Hp];
      apply startsWith_prefix in Hp; contradiction.
Qed.

Lemma normalizeRoom_total_witness :
  (exists id, normalizeRoom "  Garage " = Room id /\ In id room_ids) /\
  normalizeRoom "bed room" = Room "bedroom" /\
  normalizeRoom "  BED ROOM " = Room "bedroom" /\
  normalizeRoom "  Garage " = Room "living-room".
Proof.
  destruct normalizeRoom_total as (A & B & C).
  split; [apply A; discriminate | split; [|split]].
  - apply (B "bed room" "bedroom"). simpl. tauto.
  - apply (B "bed room" "bedroom"). simpl. tauto.
  - apply C; [discriminate | discriminate |]. intros key v H.
    each_entry H; (split; [discriminate | split; intros [t Ht]; discriminate]).
Defined.

Lemma truncations_matched_true : truncations_matched = true.
Proof. vm_compute. reflexivity. Qed.

Lemma truncations_resolved_true : truncations_resolved = true.
Proof. vm_compute. reflexivity. Qed.

Lemma truncation_matched (s alias canonical : string) :
  In (alias, canonical) roomMap -> proper_prefix s alias ->
  exists e, partial_match (toLowerCase (trim s)) = Some e.
Proof.
  intros Hin Hp. apply truncations_spec in Hp.
  pose proof truncations_matched_true as H. unfold truncations_matched in H.
  rewrite forallb_forall in H. specialize (H _ Hin). simpl in H.
  rewrite forallb_forall in H. specialize (H _ Hp).
  destruct (partial_match _) as [e|]; [exists e; reflexivity | discriminate].
Qed.

Lemma truncation_resolved (s alias canonical : string) :
  In (alias, canonical) roomMap -> proper_prefix s alias ->
  resolves s canonical = true.
Proof.
  intros Hin Hp. apply truncations_spec in Hp.
  pose proof truncations_resolved_true as H. unfold truncations_resolved in H.
  rewrite forallb_forall in H. specialize (H _ Hin). simpl in H.
  rewrite forallb_forall in H. exact (H _ Hp).
Qed.

Lemma taken_early_In (s : string) :
  existsb (String.eqb s) taken_early = true <-> In s taken_early.
Proof.
  rewrite existsb_exists. split.
  - intros (k & Hin & Heq). apply String.eqb_eq in Heq as ->. exact Hin.
  - intros Hin. exists s. split; [exact Hin | apply String.eqb_refl].
Qed.

(** C7 as stated fails: [m] truncates the alias [master] of the bedroom, and
    resolves to the living room, through the earlier entry [main room];
    so does [ma], and so does the empty string, which is taken for no room
    at all. *)
Lemma truncation_other_room :
  ~ (forall s alias canonical,
       In (alias, canonical) roomMap -> proper_prefix s alias ->
       normalizeRoom s = Room canonical) /\
  In ("master", "bedroom") roomMap /\
  Forall (fun s => proper_prefix s "master" /\ normalizeRoom s = Room "living-room")
    taken_early.
Proof.
  split; [|split].
  - intros H. specialize (H "m" "master" "bedroom").
    assert (Hn : normalizeRoom "m" = Room "living-room") by reflexivity.
    rewrite H in Hn; [discriminate | simpl; tauto |].
    split; [exists "aster"; reflexivity | discriminate].
  - simpl. tauto.
  - repeat constructor; try discriminate.
    + exists "master". reflexivity.
    + exists "aster". reflexivity.
    + exists "ster". reflexivity.
Qed.

(** C7 (normalizer, truncations), amended: an input that is a proper
    prefix of an alias of the table, other than the empty string, [m] and
    [ma], resolves to the canonical room of that alias; the empty string,
    [m] and [ma] resolve to the living room.  In each case the room is that
    of the first entry, in the order of the table, whose key is a prefix of
    the trimmed, lower-cased input or has it as a prefix. *)
Theorem truncation_first_entry (s alias canonical : string) :
  In (alias, canonical) roomMap -> proper_prefix s alias ->
  (~ In s taken_early -> normalizeRoom s = Room canonical) /\
  (In s taken_early -> normalizeRoom s = Room "living-room") /\
  exists before key room after,
    roomMap = before ++ (key, room) :: after /\
    (is_prefix key (toLowerCase (trim s)) \/ is_prefix (toLowerCase (trim s)) key) /\
    Forall (fun e => ~ is_prefix (fst e) (toLowerCase (trim s)) /\
                     ~ is_prefix (toLowerCase (trim s)) (fst e)) before /\
    normalizeRoom s = Room room.
Proof.
  intros Hin Hp.
  pose proof (truncation_resolved _ _ _ Hin Hp) as Hr. unfold resolves in Hr.
  destruct (normalizeRoom s) as [r|m] eqn:Hn; [|discriminate].
  apply String.eqb_eq in Hr.
  split; [|split].
  - intros Hs. destruct (existsb _ taken_early) eqn:He.
    + apply taken_early_In in He. contradiction.
    + congruence.
  - intros Hs. apply taken_early_In in Hs. rewrite Hs in Hr. congruence.
  - destruct (truncation_matched _ _ _ Hin Hp) as [[key room] Hf].
    pose proof (normalizeRoom_scan s) as Hc. rewrite Hn, Hf in Hc.
    destruct (inherited _); [discriminate|]. simpl in Hc.
    apply find_first in Hf as (before & after & Heq & Hk & Hb).
    exists before, key, room, after.
    split; [exact Heq|]. split; [|split; [|exact Hc]].
    + unfold partial in Hk. simpl in Hk. apply orb_true_iff in Hk as [Hk|Hk];
        apply startsWith_prefix in Hk; [right | left]; exact Hk.
    + eapply Forall_impl; [exact Hb|]. intros e He. unfold partial in He.
      apply orb_false_iff in He as [H1 H2].
      apply startsWith_not_prefix in H1, H2. split; assumption.
Qed.

Lemma truncation_first_entry_witness :
  (~ In "kit" taken_early -> normalizeRoom "kit" = Room "kitchen") /\
  (In "kit" taken_early -> normalizeRoom "kit" = Room "living-room") /\
  exists before key room after,
    roomMap = before ++ (key, room) :: after /\
    (is_prefix key (toLowerCase (trim "kit")) \/
     is_prefix (toLowerCase (trim "kit")) key) /\
    Forall (fun e => ~ is_prefix (fst e) (toLowerCase (trim "kit")) /\
                     ~ is_prefix (toLowerCase (trim "kit")) (fst e)) before /\
    normalizeRoom "kit" = Room room.
Proof.
  apply (truncation_first_entry "kit" "kitchen" "kitchen").
  - simpl. tauto.
  - split; [exists "chen"; reflexivity | discriminate].
Defined.

Example normalize_trims_and_lowers : normalizeRoom "  Kitchen " = Room "kitchen".
Proof. reflexivity. Qed.

Example normalize_truncation : normalizeRoom "living roo" = Room "living-room".
Proof. reflexivity. Qed.

Example normalize_longer_input : normalizeRoom "bedroom lights" = Room "bedroom".
Proof. reflexivity. Qed.

Example normalize_inherited :
  normalizeRoom " Constructor" = Member "constructor" /\
  normalizeRoom "__proto__" = Member "__proto__".
Proof. split; reflexivity. Qed.

End NormalizerFacts.

(** ** Intent parser *)
Module ParserFacts.
Import Str Num Regex Parser.

(** The intent of the pattern loop comes from the action of a pattern of the
    array, applied to the captures of its match. *)
Lemma first_pattern_action (ps : list (regex * (captures -> intent)))
    (command : string) (i : intent) :
  first_pattern ps command = Some i ->
  exists r action m,
    In (r, action) ps /\ js_match false r command = Some m /\ i = action m.
Proof.
  induction ps as [|[r action] ps IH]; simpl; [discriminate|].
  destruct (js_match false r command) as [m|] eqn:Hm.
  - intros [= <-]. exists r, action, m. auto.
  - intros H. destruct (IH H) as (r' & a' & m' & Hin & Hm' & ->).
    exists r', a', m'. auto.
Qed.

Ltac each_pattern H :=
  unfold patterns in H; simpl in H;
  repeat (destruct H as [H | H]; [injection H as <- <-|]);
  [..|contradiction].

(** Every action of the array builds a device command; the one for the
    security device names the kitchen. *)
Lemma patterns_device (r : regex) (action : captures -> intent) (m : captures) :
  In (r, action) patterns ->
  exists device room act val,
    action m = Device device room act val /\
    (device = "security" -> room = Room "kitchen").
Proof.
  intros H. each_pattern H;
    (eexists _, _, _, _; split; [reflexivity | try discriminate; reflexivity]).
Qed.

Ltac split_if :=
  match goal with
  | |- (if ?b then _ else _) = _ -> _ => destruct b
  end.

(** The shape of what the parser returns: the timer intent it builds, or one
    of the fixed intents, or a device command of the pattern loop. *)
Lemma parseCommand_cases (command : string) (i : intent) :
  parseCommand command = Some i ->
  i = Help \/ (exists a, i = Scene a) \/ (exists a, i = Settings a) \/
  (exists room duration unit, i = Timer "lights" room "turn off" duration unit) \/
  first_pattern patterns command = Some i.
Proof.
  unfold parseCommand.
  repeat (split_if; [intros [= <-]; eauto 10|]).
  destruct (js_match true timer_re command) as [m|].
  - intros [= <-]. eauto 10.
  - repeat (split_if; [intros [= <-]; eauto 10|]).
    auto 10.
Qed.

(** C9 (parser, timers): every timer intent that the parser returns names
    the device [lights], whatever the room phrase and the verb. *)
Theorem timer_intent_lights (command device : string) (room : location)
    (action unit : string) (duration : number) :
  parseCommand command = Some (Timer device room action duration unit) ->
  device = "lights".
Proof.
  intros H. apply parseCommand_cases in H
    as [H|[[a H]|[[a H]|[(r & d & u & H)|H]]]]; try discriminate.
  - injection H as -> _ _ _ _. reflexivity.
  - apply first_pattern_action in H as (re & act & m & Hin & _ & H).
    destruct (patterns_device re act m Hin) as (d' & r' & a' & v' & Heq & _).
    congruence.
Qed.

Lemma timer_intent_lights_witness :
  parseCommand "stop music in living room in 1 hour"
    = Some (Timer "lights" (Room "living-room") "turn off" (Int 1) "hour") /\
  "lights" = "lights".
Proof.
  split; [vm_compute; reflexivity|].
  apply (timer_intent_lights "stop music in living room in 1 hour"
           "lights" (Room "living-room") "turn off" "hour" (Int 1)).
  vm_compute. reflexivity.
Defined.

(** C10 (parser, security): every security command that the parser returns
    names the room [kitchen], whatever room the utterance mentions. *)
Theorem security_intent_kitchen (command : string) (room : location)
    (action : string) (val : value) :
  parseCommand command = Some (Device "security" room action val) ->
  room = Room "kitchen".
Proof.
  intros H. apply parseCommand_cases in H
    as [H|[[a H]|[[a H]|[(r & d & u & H)|H]]]]; try discriminate.
  apply first_pattern_action in H as (re & act & m & Hin & _ & H).
  destruct (patterns_device re act m Hin) as (d' & r' & a' & v' & Heq & Hk).
  rewrite Heq in H. injection H as <- <- _ _. apply Hk. reflexivity.
Qed.

Lemma security_intent_kitchen_witness :
  parseCommand "arm the security system in the bedroom"
    = Some (Device "security" (Room "kitchen") "arm" (VStr "armed")) /\
  Room "kitchen" = Room "kitchen".
Proof.
  split; [vm_compute; reflexivity|].
  apply (security_intent_kitchen "arm the security system in the bedroom"
           (Room "kitchen") "arm" (VStr "armed")).
  vm_compute. reflexivity.
Defined.

(** The utterances of the end-to-end properties. *)
Example parse_turn_on :
  parseCommand "turn on living room lights"
  = Some (Device "lights" (Room "living-room") "on" (VNum 100)).
Proof. vm_compute. reflexivity. Qed.

Example parse_dim :
  parseCommand "dim bedroom lights to 50 percent"
  = Some (Device "lights" (Room "bedroom") "dim" (VNum 50)).
Proof. vm_compute. reflexivity. Qed.

Example parse_scenes :
  map parseCommand ["movie mode"; "cinema mode"; "goodnight"; "good night";
                    "wake up"; "morning mode"; "party mode"; "party time"]
  = map Some [Scene "movie"; Scene "movie"; Scene "goodnight"; Scene "goodnight";
              Scene "morning"; Scene "morning"; Scene "party"; Scene "party"].
Proof. vm_compute. reflexivity. Qed.

(** The earlier rule wins: the timer rule comes before the voice settings
    and before the patterns of the devices. *)
Example parse_rule_order :
  parseCommand "turn off voice in 5 minutes"
  = Some (Timer "lights" (Room "living-room") "turn off" (Int 5) "minutes").
Proof. vm_compute. reflexivity. Qed.

(** A room phrase that names an inherited member gives a room that is no
    string. *)
Example parse_inherited_room :
  parseCommand "lights on in constructor"
  = Some (Device "lights" (Member "constructor") "on" (VNum 100)).
Proof. vm_compute. reflexivity. Qed.

(** The unit of a timer is kept as it was said. *)
Example parse_timer_hrs :
  parseCommand "turn off bedroom lights in 2 hrs"
  = Some (Timer "lights" (Room "bedroom") "turn off" (Int 2) "hrs").
Proof. vm_compute. reflexivity. Qed.

End ParserFacts.

(** ** Device state store and orchestrator *)

Module HomeFacts.
Import Str Num Home.

Ltac unfold_ops :=
  unfold speak, addToDebugPanel, emit, setTimeout, saveDeviceStates, random in *.

Ltac split_ifs :=
  repeat (match goal with
          | |- context [if ?b then _ else _] => destruct b
          end).

(** The branches of [executeCommand] on the intent [i] in the state [s]. *)
Ltac command_cases i s :=
  let a := fresh "a" in
  let device := fresh "device" in
  let room := fresh "room" in
  let action := fresh "action" in
  let duration := fresh "duration" in
  let unit := fresh "unit" in
  let val := fresh "val" in
  let steps := fresh "steps" in
  let r := fresh "r" in
  let Hscene := fresh "Hscene" in
  destruct i as [|a|device room action duration unit|a|device room action val];
  simpl;
  [ unfold showHelp
  | unfold executeScene; destruct (scene a) as [steps|] eqn:Hscene;
    [|destruct (inherited a)]
  | unfold setTimer; destruct room
  | unfold handleSettings; split_ifs
  | unfold room_of, deviceNotFound, respond;
    destruct (devices s !! key room) as [r|];
    [ destruct (r !! "hasOwnProperty"); [|destruct (r !! device)]
    | destruct (inherited (key room)); [destruct (member_owns _ _)|] ];
    destruct room ];
  simpl.

Lemma only_reports_unchanged (s s' : state) (entries : list feedback) :
  only_reports s s' entries ->
  devices s' = devices s /\ saved s' = saved s /\ queue s' = queue s /\
  activeTimers s' = activeTimers s /\ commandHistory s' = commandHistory s /\
  log s' = log s ++ entries.
Proof. intros ->. simpl. auto 10. Qed.

Section Store.

Variable rnd : nat -> Q.

Lemma assign_Some (room device : string) (val : value) (d : store) :
  is_Some (d !! room) -> is_Some (assign room device val d).
Proof. intros [r Hr]. unfold assign. rewrite Hr. eauto. Qed.

Lemma get_assign_eq (room device : string) (val : value) (d d' : store) :
  assign room device val d = Some d' -> get d' room device = Some val.
Proof.
  unfold assign, get. destruct (d !! room) as [r|]; [|discriminate].
  intros [= <-]. rewrite lookup_insert_eq. simpl. apply lookup_insert_eq.
Qed.

Lemma get_assign_ne (room device room' device' : string) (val : value)
    (d d' : store) :
  assign room device val d = Some d' ->
  room' <> room \/ device' <> device ->
  get d' room' device' = get d room' device'.
Proof.
  unfold assign, get. destruct (d !! room) as [r|] eqn:Hr; [|discriminate].
  intros [= <-] Hne. destruct (decide (room' = room)) as [->|Hroom].
  - rewrite lookup_insert_eq, Hr. simpl. destruct Hne as [Hne|Hne]; [congruence|].
    apply lookup_insert_ne. congruence.
  - rewrite lookup_insert_ne by congruence. reflexivity.
Qed.

Lemma assign_rooms (room device room' : string) (val : value) (d d' : store) :
  assign room device val d = Some d' ->
  is_Some (d !! room') -> is_Some (d' !! room').
Proof.
  unfold assign. destruct (d !! room) as [r|] eqn:Hr; [|discriminate].
  intros [= <-] H. destruct (decide (room' = room)) as [->|Hne].
  - rewrite lookup_insert_eq. eauto.
  - rewrite lookup_insert_ne by congruence. exact H.
Qed.

(** The callback of a device command, fired while the room is in the store,
    writes the value and then saves the whole store. *)
Lemma fire_ApplyCommand (device room action : string) (val : value) (s : state) :
  is_Some (devices s !! room) ->
  let s' := fire rnd (ApplyCommand device (Room room) action val) s in
  get (devices s') room device = Some val /\ saved s' = Some (devices s').
Proof.
  intros H. destruct (assign_Some room device val _ H) as [d Hd].
  simpl. rewrite Hd. unfold_ops. simpl.
  split; [exact (get_assign_eq _ _ _ _ _ Hd) | reflexivity].
Qed.

Lemma room_of_Missing (d : store) (k : string) :
  room_of d k = Missing <-> d !! k = None /\ inherited k = false.
Proof.
  unfold room_of. destruct (d !! k); [|destruct (inherited k)];
    split; try discriminate; try tauto; intros [? ?]; discriminate.
Qed.

Lemma room_of_Inherited (d : store) (k : string) :
  d !! k = None -> inherited k = true -> room_of d k = Inherited k.
Proof. unfold room_of. intros -> ->. reflexivity. Qed.

(** C4 (device store, checked commands).  A device command for a room that
    [this.devices[room]] does not find only reports that the room was not
    found, and one for a device that the room lacks only reports that the
    device was not found: the state is as it was but for the report, so the
    store keeps every value and nothing is saved.  A command for a room and
    a device of the store registers the callback that, when it fires,
    stores the value, which is then read back, and saves the store.

    The test of the room is [!this.devices[room]], where the test of the
    device is [hasOwnProperty]: for a room that the store lacks and whose
    name is the name of an inherited member, such as [constructor], the
    test of the room passes and the report is that the device was not
    found.  For a room that is no string, which [normalizeRoom] returns for
    such a name, the report that the room was not found goes to the panel
    and the spoken one raises a [TypeError]. *)
Theorem device_command_checked (s : state) (device room action : string)
    (val : value) :
  let s' := executeCommand rnd (Device device (Room room) action val) s in
  (devices s !! room = None -> inherited room = false ->
     only_reports s s'
       [ Panel None ("Room " +:+ room +:+ " not found") Error;
         Say (synthesis s && voiceResponseEnabled s)
           ("Sorry, I don't have a " +:+ roomName room +:+ " configured.") ]) /\
  (forall r, devices s !! room = Some r -> r !! "hasOwnProperty" = None ->
     r !! device = None ->
     only_reports s s'
       [ Panel None ("Device " +:+ device +:+ " not found in " +:+ room) Error;
         Say (synthesis s && voiceResponseEnabled s)
           ("Sorry, I couldn't find the " +:+ device +:+ " in the "
            +:+ roomName room +:+ ".") ]) /\
  (forall r old, devices s !! room = Some r -> r !! "hasOwnProperty" = None ->
     r !! device = Some old ->
     devices s' = devices s /\ saved s' = saved s /\
     queue s' = queue s ++ [(now s + responseDelay (rnd (draws s)),
                             ApplyCommand device (Room room) action val)] /\
     forall s2, is_Some (devices s2 !! room) ->
       let s3 := fire rnd (ApplyCommand device (Room room) action val) s2 in
       get (devices s3) room device = Some val /\ saved s3 = Some (devices s3)) /\
  (devices s !! room = None -> inherited room = true ->
   member_owns room device = false ->
     only_reports s s'
       [ Panel None ("Device " +:+ device +:+ " not found in " +:+ room) Error;
         Say (synthesis s && voiceResponseEnabled s)
           ("Sorry, I couldn't find the " +:+ device +:+ " in the "
            +:+ roomName room +:+ ".") ]) /\
  (forall name, devices s !! member_text name = None ->
     inherited (member_text name) = false ->
     only_reports s
       (executeCommand rnd (Device device (Member name) action val) s)
       [ Panel None ("Room " +:+ member_text name +:+ " not found") Error;
         Uncaught "TypeError" ]).
Proof.
  simpl. split; [|split; [|split; [|split]]].
  - intros H1 H2. rewrite (proj2 (room_of_Missing _ _) (conj H1 H2)).
    unfold_ops. unfold only_reports, set_log. simpl.
    rewrite <- app_assoc, andb_true_r. reflexivity.
  - intros r Hr Hh Hd. unfold room_of. rewrite Hr, Hh, Hd.
    unfold deviceNotFound. unfold_ops. unfold only_reports, set_log. simpl.
    rewrite <- app_assoc, andb_true_r. reflexivity.
  - intros r old Hr Hh Hd. unfold room_of. rewrite Hr, Hh, Hd.
    unfold respond. unfold_ops. simpl. repeat split; try reflexivity.
    + apply fire_ApplyCommand. assumption.
    + apply fire_ApplyCommand. assumption.
  - intros H1 H2 H3. rewrite (room_of_Inherited _ _ H1 H2), H3.
    unfold deviceNotFound. unfold_ops. unfold only_reports, set_log. simpl.
    rewrite <- app_assoc, andb_true_r. reflexivity.
  - intros name H1 H2. rewrite (proj2 (room_of_Missing _ _) (conj H1 H2)).
    simpl. unfold_ops. unfold only_reports, set_log. simpl.
    rewrite <- app_assoc. reflexivity.
Qed.

End Store.

Lemma device_command_checked_witness :
  let rnd := fun _ : nat => 0%Q in
  let s := s0 in
  only_reports s
    (executeCommand rnd (Device "lights" (Room "garage") "on" (VNum 100)) s)
    [ Panel None "Room garage not found" Error;
      Say true "Sorry, I don't have a garage configured." ] /\
  only_reports s
    (executeCommand rnd (Device "music" (Room "kitchen") "play" (VStr "playing")) s)
    [ Panel None "Device music not found in kitchen" Error;
      Say true "Sorry, I couldn't find the music in the kitchen." ] /\
  get (devices (fire rnd (ApplyCommand "lights" (Room "living-room") "on" (VNum 100))
                  (executeCommand rnd
                     (Device "lights" (Room "living-room") "on" (VNum 100)) s)))
    "living-room" "lights" = Some (VNum 100) /\
  only_reports s
    (executeCommand rnd (Device "lights" (Room "constructor") "on" (VNum 100)) s)
    [ Panel None "Device lights not found in constructor" Error;
      Say true "Sorry, I couldn't find the lights in the constructor." ] /\
  only_reports s
    (executeCommand rnd (Device "lights" (Member "constructor") "on" (VNum 100)) s)
    [ Panel None "Room function Object() { [native code] } not found" Error;
      Uncaught "TypeError" ].
Proof.
  intros rnd s. split; [|split; [|split; [|split]]].
  - apply (proj1 (device_command_checked rnd s "lights" "garage" "on" (VNum 100)));
      vm_compute; reflexivity.
  - eapply (proj1 (proj2 (device_command_checked rnd s "music" "kitchen" "play"
                            (VStr "playing"))));
      vm_compute; reflexivity.
  - eapply (proj1 (proj2 (proj2 (device_command_checked rnd s "lights" "living-room"
                                   "on" (VNum 100))))).
    + vm_compute. reflexivity.
    + vm_compute. reflexivity.
    + vm_compute. reflexivity.
    + vm_compute. eauto.
  - apply (proj1 (proj2 (proj2 (proj2
             (device_command_checked rnd s "lights" "constructor" "on" (VNum 100))))));
      vm_compute; reflexivity.
  - apply (proj2 (proj2 (proj2 (proj2
             (device_command_checked rnd s "lights" "constructor" "on" (VNum 100)))))
             "constructor"); vm_compute; reflexivity.
Defined.

(** ** Orchestrator: the confidence gate *)

Section Gate.

Variable rnd : nat -> Q.

Lemma ltb_lt (x y : Q) : ltb x y = true <-> (x < y)%Q.
Proof. unfold ltb, Qlt. apply Z.ltb_lt. Qed.

Lemma lowConfidence_spec (confidence : Q) :
  lowConfidence confidence = true <->
  (confidence < confidenceThreshold)%Q /\ (confidence < 1)%Q.
Proof. unfold lowConfidence. rewrite andb_true_iff, !ltb_lt. reflexivity. Qed.

Lemma scheduleSteps_log (steps : list (string * string * value)) (index : Z)
    (s : state) :
  log (scheduleSteps steps index s) = log s.
Proof.
  revert index s. induction steps as [|[[room device] val] steps IH];
    intros index s; simpl; [reflexivity|].
  rewrite IH. reflexivity.
Qed.

Ltac log_tail :=
  simpl; unfold_ops; simpl; rewrite <- ?app_assoc;
  first [ eexists; split; [reflexivity|]; repeat constructor
        | exists []; rewrite app_nil_r; split; [reflexivity | constructor] ].

(** [executeCommand] only adds to the log, and nothing with a time prefix. *)
Lemma executeCommand_log (i : intent) (s : state) :
  exists l, log (executeCommand rnd i s) = log s ++ l /\ Forall unstamped l.
Proof.
  command_cases i s; unfold_ops; simpl; rewrite ?scheduleSteps_log; log_tail.
Qed.

(** C2 (orchestrator, confidence gate): [processCommand] sends the
    low-confidence feedback exactly when the confidence is below the
    threshold 0.7 and below 1; it then stops before the parser: the state is
    as it was (store, storage, queue of callbacks, timers, history), but for
    the echo of the utterance and the request to repeat; an input with
    confidence 1 is not rejected. *)
Theorem low_confidence_rejected (command : string) (confidence : Q) (s : state) :
  let s' := processCommand rnd command confidence s in
  (exists emitted,
     log s' = log s ++ emitted /\
     (In (rejection s) emitted <->
      (confidence < 7 # 10)%Q /\ (confidence < 1)%Q) /\
     ((confidence == 1)%Q -> ~ In (rejection s) emitted)) /\
  ((confidence < 7 # 10)%Q /\ (confidence < 1)%Q ->
     only_reports s s'
       [ echo command confidence s; rejection s;
         Say (synthesis s && voiceResponseEnabled s) repeatText ]).
Proof.
  simpl. unfold processCommand. fold (echo command confidence s).
  destruct (lowConfidence confidence) eqn:Hlow.
  - assert (Hc := proj1 (lowConfidence_spec confidence) Hlow).
    split.
    + exists [echo command confidence s; rejection s;
              Say (synthesis s && voiceResponseEnabled s) repeatText].
      simpl. unfold_ops. simpl. rewrite <- !app_assoc, andb_true_r. simpl.
      split; [reflexivity|]. split.
      * split; [intros _; exact Hc | intros _; simpl; auto].
      * intros H1. destruct Hc as [_ Hc]. rewrite H1 in Hc.
        exfalso. exact (Qlt_irrefl _ Hc).
    + intros _. simpl. unfold_ops. unfold only_reports, set_log. simpl.
      rewrite <- !app_assoc, andb_true_r. reflexivity.
  - assert (Hc : ~ ((confidence < 7 # 10)%Q /\ (confidence < 1)%Q)).
    { intros H. apply lowConfidence_spec in H. congruence. }
    split; [|intros H; contradiction].
    destruct (parseCommand (toLowerCase command)) as [parsed|].
    + destruct (executeCommand_log parsed
                  (addToDebugPanel (Some (now s))
                     (dquote +:+ command +:+ dquote +:+
                      (if ltb confidence 1
                       then " (" +:+ pretty (percent confidence) +:+ "%)" else ""))
                     Normal s)) as (l & Hl & Hu).
      exists (echo command confidence s :: l).
      assert (Hlog : log (settled
                match executeCommand rnd parsed
                        (addToDebugPanel (Some (now s))
                           (dquote +:+ command +:+ dquote +:+
                            (if ltb confidence 1
                             then " (" +:+ pretty (percent confidence) +:+ "%)"
                             else "")) Normal s) with
                | Returns s2 =>
                    Returns (addCommandToHistory command (Some parsed) true s2)
                | Throws message s2 => Throws message s2
                end) = log s ++ echo command confidence s :: l).
      { destruct (executeCommand rnd parsed _) as [s2|message s2];
          simpl in *; rewrite Hl; unfold_ops; simpl;
          rewrite <- app_assoc; reflexivity. }
      split; [exact Hlog|].
      assert (Hnot : ~ In (rejection s) (echo command confidence s :: l)).
      { intros [H|H]; [discriminate|].
        rewrite Forall_forall in Hu. apply list_elem_of_In, Hu in H. exact H. }
      split; [split; [intros H; contradiction | intros H; contradiction]|].
      intros _. exact Hnot.
    + eexists. simpl. unfold addCommandToHistory. unfold_ops. simpl.
      rewrite <- !app_assoc. simpl. split; [reflexivity|].
      assert (Hnot : forall v t,
                ~ In (rejection s)
                    [echo command confidence s;
                     Panel (Some (now s)) "Command not recognized" Error;
                     Say v t]).
      { intros v t [H|[H|[H|[]]]]; discriminate. }
      split; [split; [intros H; exfalso; exact (Hnot _ _ H) | intros H; contradiction]|].
      intros _. apply Hnot.
Qed.

End Gate.

Lemma low_confidence_rejected_witness :
  let rnd := fun _ : nat => 0%Q in
  let s := s0 in
  let s' := processCommand rnd "turn on living room lights" (4 # 10) s in
  only_reports s s'
    [ echo "turn on living room lights" (4 # 10) s; rejection s;
      Say true repeatText ].
Proof.
  intros rnd s.
  apply (low_confidence_rejected rnd "turn on living room lights" (4 # 10) s).
  split; reflexivity.
Defined.

(** ** The values of the store stay in their domains *)

Lemma in_domain_within (device : string) (v : value) :
  in_domain device v = true -> within_domain device v.
Proof.
  unfold in_domain, within_domain. intros H. repeat split; intros ->; simpl in H.
  - destruct v as [n|t|]; try discriminate. exists n. split; [reflexivity | lia].
  - destruct v as [n|t|]; try discriminate.
    repeat (apply orb_true_iff in H as [H|H]); apply String.eqb_eq in H as ->; auto.
  - destruct v as [n|t|]; try discriminate.
    repeat (apply orb_true_iff in H as [H|H]); apply String.eqb_eq in H as ->; auto.
Qed.

Lemma patterns_domain (r : Regex.regex) (action : Regex.captures -> intent)
    (m : Regex.captures) :
  In (r, action) patterns -> intent_ok (action m).
Proof.
  intros H. ParserFacts.each_pattern H; simpl;
    unfold on_value, music_value; split_ifs; try reflexivity.
  - destruct (parseInt _); simpl; [|reflexivity].
    apply andb_true_iff. split; apply Z.leb_le; lia.
  - destruct (parseInt _); reflexivity.
  - destruct (parseInt _); reflexivity.
Qed.

(** What the parser returns carries a value of the domain of its device. *)
Lemma parseCommand_domain (command : string) (i : intent) :
  parseCommand command = Some i -> intent_ok i.
Proof.
  intros H. apply ParserFacts.parseCommand_cases in H
    as [->|[[a ->]|[[a ->]|[(r & d & u & ->)|H]]]]; simpl; auto.
  apply ParserFacts.first_pattern_action in H as (re & act & m & Hin & _ & ->).
  exact (patterns_domain re act m Hin).
Qed.

Lemma scene_domain (sceneName : string) (steps : list (string * string * value)) :
  scene sceneName = Some steps ->
  Forall (fun st => in_domain (snd (fst st)) (snd st) = true) steps.
Proof.
  unfold scene. destruct (List.find _ scenes) as [[n l]|] eqn:Hf; [|discriminate].
  intros [= <-]. apply find_some in Hf as [Hin _]. simpl.
  unfold scenes in Hin. simpl in Hin.
  repeat (destruct Hin as [Hin|Hin]; [injection Hin as <- <-; repeat constructor|]).
  contradiction.
Qed.

Lemma assign_ok (room device : string) (val : value) (d d' : store) :
  store_ok d -> in_domain device val = true ->
  assign room device val d = Some d' -> store_ok d'.
Proof.
  unfold assign, store_ok. intros Hd Hv.
  destruct (d !! room) as [r|] eqn:Hr; [|discriminate]. intros [= <-].
  intros room' r' device' v'. destruct (decide (room' = room)) as [->|Hne].
  - rewrite lookup_insert_eq. intros [= <-].
    destruct (decide (device' = device)) as [->|Hne].
    + rewrite lookup_insert_eq. congruence.
    + rewrite lookup_insert_ne by congruence. eauto.
  - rewrite lookup_insert_ne by congruence. eauto.
Qed.

Ltac map_cases H tac :=
  repeat (apply lookup_insert_Some in H as [[<- <-]|[_ H]]; [tac|]);
  apply lookup_singleton_Some in H as [<- <-]; tac.

Lemma defaultStates_ok : store_ok defaultStates.
Proof.
  intros room r device v Hr Hv. unfold defaultStates in Hr.
  map_cases Hr ltac:(map_cases Hv ltac:(reflexivity)).
Qed.

Section Domains.

Variable rnd : nat -> Q.

Lemma scheduleSteps_invariant (steps : list (string * string * value))
    (index : Z) (s : state) :
  Forall (fun st => in_domain (snd (fst st)) (snd st) = true) steps ->
  invariant s -> invariant (scheduleSteps steps index s).
Proof.
  revert index s. induction steps as [|[[room device] val] steps IH];
    intros index s Hsteps Hs; simpl; [exact Hs|].
  apply Forall_cons in Hsteps as [Hv Hsteps]. apply IH; [exact Hsteps|].
  destruct Hs as (H1 & H2 & H3). unfold invariant, setTimeout. simpl.
  repeat split; try assumption. apply Forall_app. split; [exact H3|].
  repeat constructor. exact Hv.
Qed.

Lemma scheduleSteps_devices (steps : list (string * string * value))
    (index : Z) (s : state) :
  devices (scheduleSteps steps index s) = devices s.
Proof.
  revert index s. induction steps as [|[[room device] val] steps IH];
    intros index s; simpl; [reflexivity|].
  rewrite IH. reflexivity.
Qed.

(** [executeCommand] leaves the store as it is: every write is deferred to
    a callback. *)
Lemma executeCommand_devices (i : intent) (s : state) :
  devices (executeCommand rnd i s) = devices s.
Proof.
  command_cases i s; unfold_ops; simpl; rewrite ?scheduleSteps_devices; reflexivity.
Qed.

(** The state that a call leaves, thrown or returned, before the host
    reports an exception. *)
Lemma settled_devices (c : completion) :
  devices c = match c with Returns s' | Throws _ s' => devices s' end.
Proof. destruct c; reflexivity. Qed.

Lemma processCommand_devices (command : string) (confidence : Q) (s : state) :
  devices (processCommand rnd command confidence s) = devices s.
Proof.
  unfold processCommand. destruct (lowConfidence confidence); [reflexivity|].
  destruct (parseCommand _) as [parsed|]; [|reflexivity].
  match goal with
  | |- context [executeCommand rnd parsed ?st] =>
      pose proof (executeCommand_devices parsed st) as H;
      destruct (executeCommand rnd parsed st); simpl in *; exact H
  end.
Qed.

(** A room of the store stays in the store. *)
Lemma step_rooms (s s' : state) (room : string) :
  step rnd s s' -> is_Some (devices s !! room) -> is_Some (devices s' !! room).
Proof.
  intros Hstep Hroom.
  destruct Hstep as [command confidence s|t s Ht|i due tk s Hq Hdue].
  - rewrite processCommand_devices. exact Hroom.
  - exact Hroom.
  - destruct tk as [device r action val|r device val|sceneName
                   |id r device action| |]; simpl.
    + destruct (assign (key r) device val (devices s)) as [d|] eqn:Hd; [|exact Hroom].
      destruct r; simpl; unfold_ops; simpl;
        (eapply assign_rooms; [exact Hd | exact Hroom]).
    + destruct (assign r device val (devices s)) as [d|] eqn:Hd; [|exact Hroom].
      exact (assign_rooms _ _ _ _ _ _ Hd Hroom).
    + exact Hroom.
    + destruct (activeTimers s !! id); [|exact Hroom].
      destruct (assign r device (timerValue action) (devices s)) as [d|] eqn:Hd;
        [|exact Hroom].
      exact (assign_rooms _ _ _ _ _ _ Hd Hroom).
    + exact Hroom.
    + exact Hroom.
Qed.

Lemma reachable_rooms (s0 s : state) (room : string) :
  reachable rnd s0 s -> is_Some (devices s0 !! room) -> is_Some (devices s !! room).
Proof.
  intros Hr H0. induction Hr as [|s s' _ IH Hstep]; [exact H0|].
  exact (step_rooms _ _ _ Hstep IH).
Qed.

(** The invariant does not look at the log, the timers or the draws. *)
Lemma invariant_frame (s s' : state) :
  devices s' = devices s -> saved s' = saved s -> queue s' = queue s ->
  invariant s -> invariant s'.
Proof. unfold invariant. intros -> -> ->. tauto. Qed.

Lemma invariant_setTimeout (tk : task) (delay : Z) (s : state) :
  task_ok tk -> invariant s -> invariant (setTimeout tk delay s).
Proof.
  intros Htk (H1 & H2 & H3). unfold invariant, setTimeout. simpl.
  repeat split; try assumption. apply Forall_app. split; [exact H3|].
  repeat constructor. exact Htk.
Qed.

Lemma executeCommand_invariant (i : intent) (s : state) :
  intent_ok i -> invariant s -> invariant (executeCommand rnd i s).
Proof.
  intros Hi Hs.
  command_cases i s;
    try (apply invariant_setTimeout; [first [exact Hi | exact I]|]);
    try (apply (invariant_frame s); [reflexivity | reflexivity | reflexivity | exact Hs]).
  - apply scene_domain in Hscene.
    pose proof (scheduleSteps_invariant steps 0
                  (speak ("Activating " +:+ a +:+ " mode.")
                     (addToDebugPanel None ("Executing " +:+ a +:+ " scene...")
                        Success s)) Hscene) as Hinv.
    destruct Hinv as (H1 & H2 & H3);
      [apply (invariant_frame s); [reflexivity | reflexivity | reflexivity | exact Hs]|].
    unfold invariant. unfold_ops. simpl. repeat split.
    + exact H1.
    + intros d [= <-]. exact H1.
    + exact H3.
Qed.

Lemma processCommand_invariant (command : string) (confidence : Q) (s : state) :
  invariant s -> invariant (processCommand rnd command confidence s).
Proof.
  intros Hs. unfold processCommand.
  destruct (lowConfidence confidence); [exact Hs|].
  destruct (parseCommand (toLowerCase command)) as [parsed|] eqn:Hp; [|exact Hs].
  apply parseCommand_domain in Hp.
  match goal with
  | |- context [executeCommand rnd parsed ?s1] =>
      assert (H : invariant (executeCommand rnd parsed s1))
        by (apply executeCommand_invariant; assumption);
      destruct (executeCommand rnd parsed s1); exact H
  end.
Qed.

Lemma fire_invariant (tk : task) (s : state) :
  task_ok tk -> invariant s -> invariant (fire rnd tk s).
Proof.
  intros Htk (H1 & H2 & H3).
  destruct tk as [device room action val|room device val|sceneName
                 |id room device action| |]; simpl in *.
  - destruct (assign (key room) device val (devices s)) as [d|] eqn:Hd.
    + pose proof (assign_ok _ _ _ _ _ H1 Htk Hd) as Hd'.
      destruct room; unfold invariant; unfold_ops; simpl;
        (repeat split; try assumption); intros d0 [= <-]; exact Hd'.
    + unfold invariant. repeat split; assumption.
  - destruct (assign room device val (devices s)) as [d|] eqn:Hd.
    + pose proof (assign_ok _ _ _ _ _ H1 Htk Hd) as Hd'.
      unfold invariant. simpl. repeat split; assumption.
    + unfold invariant. repeat split; assumption.
  - unfold invariant. repeat split; assumption.
  - destruct (activeTimers s !! id); [|unfold invariant; repeat split; assumption].
    destruct (assign room device (timerValue action) (devices s)) as [d|] eqn:Hd.
    + pose proof (assign_ok _ _ _ _ _ H1 Htk Hd) as Hd'.
      unfold invariant. unfold_ops. simpl. repeat split; try assumption.
      intros d0 [= <-]. exact Hd'.
    + unfold invariant. repeat split; assumption.
  - unfold invariant. repeat split; assumption.
  - unfold invariant. repeat split; assumption.
Qed.

Lemma step_invariant (s s' : state) :
  step rnd s s' -> invariant s -> invariant s'.
Proof.
  intros Hstep Hs. destruct Hstep as [command confidence s|t s Ht|i due tk s Hq Hdue].
  - apply processCommand_invariant. exact Hs.
  - exact Hs.
  - destruct Hs as (H1 & H2 & H3). apply fire_invariant.
    + exact (Forall_lookup_1 _ _ _ _ H3 Hq).
    + unfold invariant. simpl. repeat split; try assumption.
      apply Forall_delete. exact H3.
Qed.

Lemma boot_invariant (item : option store) (history : list entry)
    (backend welcomed : bool) (t : Z) (speech whisper : bool) :
  (forall d, item = Some d -> store_ok d) ->
  invariant (boot item history backend welcomed t speech whisper).
Proof.
  intros H. unfold invariant, boot, loadDeviceStates. simpl.
  repeat split; [|exact H|destruct welcomed; repeat constructor].
  destruct item as [d|]; simpl; [apply H; reflexivity | exact defaultStates_ok].
Qed.

Lemma reachable_invariant (s0 s : state) :
  invariant s0 -> reachable rnd s0 s -> invariant s.
Proof.
  intros H0 Hr. induction Hr as [|s s' _ IH Hstep]; [exact H0|].
  exact (step_invariant _ _ Hstep IH).
Qed.

(** C1 (device store, value domains): in every state that the application
    reaches from its start, by utterances, by the passing of time and by the
    firing of the pending callbacks of device commands, scene steps and
    timers, every value of the store is in the domain of its device: lights
    a whole number from 0 to 100, music one of playing, paused and stopped,
    security one of armed and disarmed.  The start is the state after the
    constructor, on a storage item that is absent or was saved in its
    domains, whatever else the storage holds. *)
Theorem store_values_in_domain (item : option store) (history : list entry)
    (backend welcomed : bool) (t : Z) (speech whisper : bool) (s : state)
    (room device : string) (v : value) :
  (forall d, item = Some d -> store_ok d) ->
  reachable rnd (boot item history backend welcomed t speech whisper) s ->
  get (devices s) room device = Some v ->
  within_domain device v.
Proof.
  intros Hitem Hr Hget. apply in_domain_within.
  destruct (reachable_invariant _ _
              (boot_invariant item history backend welcomed t speech whisper Hitem) Hr)
    as (Hok & _ & _).
  unfold get in Hget. destruct (devices s !! room) as [r|] eqn:Hroom; [|discriminate].
  exact (Hok _ _ _ _ Hroom Hget).
Qed.

End Domains.

(** ** Runs of the host *)

Section Runs.

Variable rnd : nat -> Q.

Lemma next_from_best (best : nat) (due : Z) (i : nat) (q : list (Z * task)) :
  Forall (fun e => due <= fst e) q -> next_from best due i q = best.
Proof.
  revert i. induction q as [|[d tk] q IH]; intros i H; simpl; [reflexivity|].
  apply Forall_cons in H as [Hd Hq]. simpl in Hd.
  destruct (Z.ltb_spec d due); [lia|]. apply IH. exact Hq.
Qed.

(** The head of the queue fires next when nothing behind it is due sooner. *)
Lemma run_next_head (s : state) (due : Z) (tk : task) (q : list (Z * task)) :
  queue s = (due, tk) :: q -> Forall (fun e => due <= fst e) q ->
  run_next rnd s =
  Some (Z.max (now s) due, tk,
        fire rnd tk (set_now (Z.max (now s) due) (set_queue q s))).
Proof.
  intros Hq Hmin. unfold run_next. rewrite Hq. simpl.
  rewrite (next_from_best _ _ _ _ Hmin). reflexivity.
Qed.

Lemma fire_queue (tk : task) (s : state) : queue (fire rnd tk s) = queue s.
Proof.
  destruct tk as [device room action val|room device val|sceneName
                 |id room device action| |]; simpl.
  - destruct (assign _ _ _ _); [destruct room|]; reflexivity.
  - destruct (assign _ _ _ _); reflexivity.
  - reflexivity.
  - destruct (activeTimers s !! id); [|reflexivity].
    destruct (assign _ _ _ _); reflexivity.
  - reflexivity.
  - reflexivity.
Qed.

Lemma run_next_Some (s : state) :
  queue s <> [] ->
  exists t tk s', run_next rnd s = Some (t, tk, s') /\
                  S (length (queue s')) = length (queue s).
Proof.
  intros Hq. unfold run_next.
  destruct (queue s) as [|[d tk0] q] eqn:Hqs; [congruence|]. simpl next.
  assert (Hlt : forall q' best due i,
             (best < i)%nat -> (next_from best due i q' < i + length q')%nat).
  { induction q' as [|[d' tk'] q' IH]; intros best due i Hb; simpl; [lia|].
    destruct (d' <? due).
    - specialize (IH i d' (S i)). lia.
    - specialize (IH best due (S i)). lia. }
  specialize (Hlt q 0%nat d 1%nat).
  destruct (lookup_lt_is_Some_2 ((d, tk0) :: q) (next_from 0 d 1 q)) as [[due tk] He].
  { simpl. lia. }
  rewrite He. eexists _, _, _. split; [reflexivity|].
  rewrite fire_queue. simpl. rewrite length_delete by eauto. simpl. lia.
Qed.

(** [drain] with the length of the queue as fuel empties the queue: the run
    of the pending callbacks ends. *)
Lemma drain_queue (fuel : nat) (s : state) :
  length (queue s) = fuel -> queue (snd (drain rnd fuel s)) = [].
Proof.
  revert s. induction fuel as [|fuel IH]; intros s Hlen; simpl.
  - destruct (queue s); [reflexivity | discriminate].
  - destruct (run_next_Some s) as (t & tk & s' & Hr & Hl).
    { destruct (queue s); [discriminate | congruence]. }
    rewrite Hr. specialize (IH s'). destruct (drain rnd fuel s') as [firings s''].
    simpl in *. apply IH. lia.
Qed.

Lemma settle_queue (s : state) : queue (snd (settle rnd s)) = [].
Proof. apply drain_queue. reflexivity. Qed.

(** ** Timer manager *)






(** ** Scene executor *)

Lemma drain_head (fuel : nat) (s : state) (due : Z) (tk : task)
    (q : list (Z * task)) :
  queue s = (due, tk) :: q -> Forall (fun e => due <= fst e) q ->
  drain rnd (S fuel) s =
  (let (firings, s'') :=
     drain rnd fuel (fire rnd tk (set_now (Z.max (now s) due) (set_queue q s))) in
   ((Z.max (now s) due, tk) :: firings, s'')).
Proof.
  intros Hq Hmin. simpl. rewrite (run_next_head s due tk q Hq Hmin). reflexivity.
Qed.

Lemma scene_goodnight :
  scene "goodnight" =
  Some [ ("living-room", "lights", VNum 0); ("bedroom", "lights", VNum 0);
         ("kitchen", "lights", VNum 0); ("kitchen", "security", VStr "armed") ].
Proof. reflexivity. Qed.

(** A scene step writes its value and saves nothing. *)
Lemma fire_SceneStep (room device : string) (val : value) (s : state) :
  is_Some (devices s !! room) ->
  exists d, assign room device val (devices s) = Some d /\
            fire rnd (SceneStep room device val) s = set_devices d s.
Proof.
  intros H. destruct (assign_Some room device val _ H) as [d Hd].
  exists d. simpl. rewrite Hd. auto.
Qed.

Lemma successResponse_nonempty (u : Q) (message : string) :
  String.eqb (successResponse u message) "" = false.
Proof. unfold successResponse. destruct (variation _ _); reflexivity. Qed.

Ltac scene_step d Ha :=
  match goal with
  | |- context [fire rnd (SceneStep ?room ?device ?val) ?st] =>
      destruct (fire_SceneStep room device val st) as (d & Ha & ->);
      [|simpl in Ha]
  end.

(** C8 as stated fails when another callback is pending.  The utterance
    [turn on the lights] registers the callback of the device response,
    due after 200 ms; the goodnight scene, executed before it fires, sets
    the lights of the living room to 0 at once, and the callback of the
    device response then sets them to 100: after all the steps and the
    confirmation the lights of the living room are at 100. *)
Lemma goodnight_scene_overtaken :
  let s : state := processCommand rnd0 "turn on the lights" 1 s0 in
  exists s',
    queue s = [(200, ApplyCommand "lights" (Room "living-room") "on" (VNum 100))] /\
    settle rnd0 (executeScene "goodnight" s)
    = ([ (0, SceneStep "living-room" "lights" (VNum 0));
         (200, ApplyCommand "lights" (Room "living-room") "on" (VNum 100));
         (500, SceneStep "bedroom" "lights" (VNum 0));
         (1000, SceneStep "kitchen" "lights" (VNum 0));
         (1500, SceneStep "kitchen" "security" (VStr "armed"));
         (2000, SceneDone "goodnight") ], s') /\
    get (devices s') "living-room" "lights" = Some (VNum 100) /\
    get (devices s') "living-room" "lights" <> Some (VNum 0).
Proof.
  eexists. split; [vm_compute; reflexivity|].
  split; [vm_compute; reflexivity|].
  split; [vm_compute; reflexivity | vm_compute; discriminate].
Qed.

(** C8 (scene executor, goodnight), with no other callback pending and
    the three rooms in the store: the steps of the goodnight scene fire in the order
    of their declaration, the step of index [i] at 500 ms times [i] after
    the call, and the confirmation fires last, at 2000 ms, after the last
    step; then the lights of the living room, the bedroom and the kitchen
    are at 0 and the security of the kitchen is armed. *)
Theorem goodnight_scene (s : state) :
  queue s = [] ->
  is_Some (devices s !! "living-room") -> is_Some (devices s !! "bedroom") ->
  is_Some (devices s !! "kitchen") ->
  exists s',
    settle rnd (executeScene "goodnight" s)
    = ([ (now s, SceneStep "living-room" "lights" (VNum 0));
         (now s + 500, SceneStep "bedroom" "lights" (VNum 0));
         (now s + 1000, SceneStep "kitchen" "lights" (VNum 0));
         (now s + 1500, SceneStep "kitchen" "security" (VStr "armed"));
         (now s + 2000, SceneDone "goodnight") ], s') /\
    get (devices s') "living-room" "lights" = Some (VNum 0) /\
    get (devices s') "bedroom" "lights" = Some (VNum 0) /\
    get (devices s') "kitchen" "lights" = Some (VNum 0) /\
    get (devices s') "kitchen" "security" = Some (VStr "armed") /\
    log s' = log s ++
      [ Panel None "Executing goodnight scene..." Success;
        Say (synthesis s && voiceResponseEnabled s) "Activating goodnight mode.";
        Say (synthesis s && voiceResponseEnabled s)
          (successResponse (rnd (draws s)) "goodnight mode activated.") ].
Proof.
  intros Hq Hl Hb Hk.
  set (s1 := executeScene "goodnight" s).
  assert (Hq1 : queue s1 =
            [ (now s + 0, SceneStep "living-room" "lights" (VNum 0));
              (now s + 500, SceneStep "bedroom" "lights" (VNum 0));
              (now s + 1000, SceneStep "kitchen" "lights" (VNum 0));
              (now s + 1500, SceneStep "kitchen" "security" (VStr "armed"));
              (now s + 2000, SceneDone "goodnight") ]).
  { unfold s1, executeScene. rewrite scene_goodnight. unfold_ops. simpl.
    rewrite Hq. reflexivity. }
  assert (Hd1 : devices s1 = devices s).
  { unfold s1, executeScene. rewrite scene_goodnight. reflexivity. }
  assert (Hn1 : now s1 = now s).
  { unfold s1, executeScene. rewrite scene_goodnight. reflexivity. }
  assert (Hl1 : log s1 = log s ++
            [ Panel None "Executing goodnight scene..." Success;
              Say (synthesis s && voiceResponseEnabled s) "Activating goodnight mode." ]).
  { unfold s1, executeScene. rewrite scene_goodnight. unfold_ops. simpl.
    rewrite <- app_assoc, andb_true_r. reflexivity. }
  assert (Hr1 : draws s1 = draws s /\ synthesis s1 = synthesis s /\
                voiceResponseEnabled s1 = voiceResponseEnabled s).
  { unfold s1, executeScene. rewrite scene_goodnight. auto. }
  unfold settle. rewrite Hq1. simpl length. clearbody s1.
  erewrite drain_head; [|exact Hq1|repeat constructor; simpl; lia].
  scene_step d1 Ha1; [simpl; rewrite Hd1; exact Hl|].
  erewrite drain_head; [|reflexivity|repeat constructor; simpl; lia].
  scene_step d2 Ha2.
  { simpl. apply (assign_rooms _ _ _ _ _ _ Ha1). rewrite Hd1. exact Hb. }
  erewrite drain_head; [|reflexivity|repeat constructor; simpl; lia].
  scene_step d3 Ha3.
  { simpl. apply (assign_rooms _ _ _ _ _ _ Ha2), (assign_rooms _ _ _ _ _ _ Ha1).
    rewrite Hd1. exact Hk. }
  erewrite drain_head; [|reflexivity|repeat constructor; simpl; lia].
  scene_step d4 Ha4.
  { simpl. apply (assign_rooms _ _ _ _ _ _ Ha3). simpl in Ha3.
    apply (assign_rooms _ _ _ _ _ _ Ha2), (assign_rooms _ _ _ _ _ _ Ha1).
    rewrite Hd1. exact Hk. }
  erewrite drain_head; [|reflexivity|repeat constructor; simpl; lia].
  simpl. destruct Hr1 as (Hdr & Hsy & Hvo).
  eexists. split.
  { apply pair_equal_spec. split; [rewrite Hn1; repeat f_equal; lia | reflexivity]. }
  unfold speak, emit. simpl.
  rewrite Hl1, Hdr, Hsy, Hvo, <- app_assoc, successResponse_nonempty, andb_true_r.
  repeat split.
  - rewrite (get_assign_ne _ _ _ _ _ _ _ Ha4), (get_assign_ne _ _ _ _ _ _ _ Ha3),
      (get_assign_ne _ _ _ _ _ _ _ Ha2) by (left; discriminate).
    exact (get_assign_eq _ _ _ _ _ Ha1).
  - rewrite (get_assign_ne _ _ _ _ _ _ _ Ha4), (get_assign_ne _ _ _ _ _ _ _ Ha3)
      by (left; discriminate).
    exact (get_assign_eq _ _ _ _ _ Ha2).
  - rewrite (get_assign_ne _ _ _ _ _ _ _ Ha4) by (right; discriminate).
    exact (get_assign_eq _ _ _ _ _ Ha3).
  - exact (get_assign_eq _ _ _ _ _ Ha4).
Qed.

(** ** Persistence *)

(** A scene step leaves the saved snapshot as it was. *)
Lemma fire_SceneStep_saved (room device : string) (val : value) (s : state) :
  saved (fire rnd (SceneStep room device val) s) = saved s.
Proof. simpl. destruct (assign _ _ _ _); reflexivity. Qed.

(** [executeScene] saves the store when it is called, before any step has
    fired. *)
Lemma executeScene_saved (sceneName : string) (s : state) :
  is_Some (scene sceneName) ->
  saved (executeScene sceneName s) = Some (devices s) /\
  devices (executeScene sceneName s) = devices s.
Proof.
  intros [steps Hs]. unfold executeScene. rewrite Hs. unfold_ops. simpl.
  rewrite scheduleSteps_devices. auto.
Qed.

(** C3 (persistence after every mutation) fails on the scene steps: from
    the state after the constructor on an empty storage, the movie scene
    ends with the lights of the living room at 20 and the music playing in
    the store, and with the default states, lights at 0 and music stopped,
    as the saved snapshot.  No scene step changes the snapshot. *)
Theorem scene_steps_not_saved :
  (forall room device val s,
     saved (fire rnd (SceneStep room device val) s) = saved s) /\
  (let s' := snd (settle rnd (executeScene "movie" (boot None [] false false 0 true false))) in
   get (devices s') "living-room" "lights" = Some (VNum 20) /\
   get (devices s') "living-room" "music" = Some (VStr "playing") /\
   saved s' = Some defaultStates /\
   get defaultStates "living-room" "lights" = Some (VNum 0) /\
   get defaultStates "living-room" "music" = Some (VStr "stopped") /\
   saved s' <> Some (devices s')).
Proof.
  split; [intros; apply fire_SceneStep_saved|].
  set (s' := snd (settle rnd (executeScene "movie" (boot None [] false false 0 true false)))).
  assert (H1 : get (devices s') "living-room" "lights" = Some (VNum 20))
    by (vm_compute; reflexivity).
  assert (H2 : get (devices s') "living-room" "music" = Some (VStr "playing"))
    by (vm_compute; reflexivity).
  assert (H3 : saved s' = Some defaultStates) by (vm_compute; reflexivity).
  assert (H4 : get defaultStates "living-room" "lights" = Some (VNum 0))
    by (vm_compute; reflexivity).
  assert (H5 : get defaultStates "living-room" "music" = Some (VStr "stopped"))
    by (vm_compute; reflexivity).
  clearbody s'. simpl. repeat (split; [assumption|]).
  rewrite H3. intros Heq. assert (Hd : defaultStates = devices s') by congruence.
  rewrite Hd in H4. congruence.
Qed.

End Runs.

(** ** Instances *)

Lemma store_values_in_domain_witness : within_domain "lights" (VNum 50).
Proof.
  set (s1 := processCommand rnd0 "Dim bedroom lights to 50 percent" 1 s0).
  set (s2 := set_now 200 s1).
  set (tk := ApplyCommand "lights" (Room "bedroom") "dim" (VNum 50)).
  set (s3 := fire rnd0 tk (set_queue (delete 0%nat (queue s2)) s2)).
  assert (R1 : reachable rnd0 s0 s1).
  { apply (reach_step rnd0 s0 s0); [apply reach_start | apply step_utterance]. }
  assert (R2 : reachable rnd0 s0 s2).
  { apply (reach_step rnd0 s0 s1); [exact R1|]. apply step_time.
    vm_compute. discriminate. }
  assert (R3 : reachable rnd0 s0 s3).
  { apply (reach_step rnd0 s0 s2); [exact R2|].
    apply (step_fire rnd0 0 200 tk s2); [vm_compute; reflexivity|].
    vm_compute. discriminate. }
  apply (store_values_in_domain rnd0 None [] false true 0 true false s3
           "bedroom" "lights" (VNum 50)).
  - intros d H. discriminate H.
  - exact R3.
  - vm_compute. reflexivity.
Defined.


Lemma goodnight_scene_witness :
  exists s',
    settle rnd0 (executeScene "goodnight" s0)
    = ([ (0, SceneStep "living-room" "lights" (VNum 0));
         (500, SceneStep "bedroom" "lights" (VNum 0));
         (1000, SceneStep "kitchen" "lights" (VNum 0));
         (1500, SceneStep "kitchen" "security" (VStr "armed"));
         (2000, SceneDone "goodnight") ], s') /\
    get (devices s') "living-room" "lights" = Some (VNum 0) /\
    get (devices s') "bedroom" "lights" = Some (VNum 0) /\
    get (devices s') "kitchen" "lights" = Some (VNum 0) /\
    get (devices s') "kitchen" "security" = Some (VStr "armed") /\
    log s' = log s0 ++
      [ Panel None "Executing goodnight scene..." Success;
        Say true "Activating goodnight mode.";
        Say true "Done! goodnight mode activated." ].
Proof.
  apply (goodnight_scene rnd0 s0).
  - reflexivity.
  - vm_compute. eauto.
  - vm_compute. eauto.
  - vm_compute. eauto.
Defined.

(** End to end: the utterance, with confidence 1, then the callback. *)
Example turn_on_end_to_end :
  let s := snd (settle rnd0 (processCommand rnd0 "Turn on living room lights" 1 s0)) in
  get (devices s) "living-room" "lights" = Some (VNum 100) /\
  last (log s) = Some (Say true "Done! living room lights turned on") /\
  saved s = Some (devices s).
Proof. vm_compute. repeat split; reflexivity. Qed.

(** A room without the device: the kitchen has no music. *)
Example kitchen_music_not_found :
  last (log (processCommand rnd0 "play music in the kitchen" 1 s0))
  = Some (Say true "Sorry, I couldn't find the music in the kitchen.").
Proof. vm_compute. reflexivity. Qed.

(** A unit that does not contain [hour] counts minutes. *)
Example milliseconds_hrs :
  milliseconds (Int 2) "hrs" = Int 120000 /\
  milliseconds (Int 2) "hours" = Int 7200000 /\
  milliseconds Infinity "minutes" = Infinity.
Proof. vm_compute. repeat split; reflexivity. Qed.

(** A storage item without the kitchen: the third step of the goodnight
    scene finds no room to write to and its callback ends on a
    [TypeError]. *)
Example goodnight_without_kitchen :
  let d : store := delete "kitchen" defaultStates in
  let s := boot (Some d) [] false true 0 true false in
  In (Uncaught "TypeError") (log (snd (settle rnd0 (executeScene "goodnight" s)))).
Proof. vm_compute. tauto. Qed.

End HomeFacts.

(** ** Regular expressions: the groups with finitely many words *)

Module WordsFacts.
Import Str Regex Words RegexFacts.

Lemma In_all_chars (b : ascii) : In b all_chars.
Proof.
  unfold all_chars. rewrite <- (ascii_nat_embedding b). apply in_map.
  apply in_seq. pose proof (nat_ascii_bounded b). lia.
Qed.

Lemma stable_lower (a b : ascii) :
  stable a = true -> char_eq true a b = true -> lower b = a.
Proof.
  unfold stable, char_eq. intros Hs Hab. rewrite forallb_forall in Hs.
  specialize (Hs b (In_all_chars b)). rewrite Hab in Hs. simpl in Hs.
  apply Ascii.eqb_eq in Hs. exact Hs.
Qed.

Lemma fold_append (icase : bool) (w1 w2 : string) :
  fold icase (w1 +:+ w2) = fold icase w1 +:+ fold icase w2.
Proof.
  destruct icase; simpl; [|reflexivity].
  induction w1 as [|a w1 IH]; simpl; [reflexivity | rewrite IH; reflexivity].
Qed.

Lemma append_assoc (w1 w2 s : string) : w1 +:+ w2 +:+ s = (w1 +:+ w2) +:+ s.
Proof.
  induction w1 as [|a w1 IH]; [reflexivity|].
  change (String a (w1 +:+ w2 +:+ s) = String a ((w1 +:+ w2) +:+ s)).
  rewrite IH. reflexivity.
Qed.

(** A literal that matches leaves its own text behind, up to the case under
    the [i] flag. *)
Lemma lit_text (icase : bool) (p s s' : string) :
  implb icase (all stable p) = true -> lit icase p s = Some s' ->
  exists w, s = w +:+ s' /\ fold icase w = p.
Proof.
  revert s. induction p as [|a p IH]; intros s Hp; simpl.
  - intros [= ->]. exists "". destruct icase; auto.
  - destruct s as [|b s]; [discriminate|].
    destruct (char_eq icase a b) eqn:Hab; [|discriminate]. intros H.
    assert (Hp' : implb icase (all stable p) = true).
    { destruct icase; [|reflexivity]. simpl in *.
      apply andb_true_iff in Hp as [_ Hp]. exact Hp. }
    destruct (IH s Hp' H) as (w & -> & Hw). exists (String b w).
    split; [reflexivity|]. destruct icase; simpl in *.
    + apply andb_true_iff in Hp as [Ha _].
      rewrite (stable_lower a b Ha Hab), Hw. reflexivity.
    + apply Ascii.eqb_eq in Hab as ->. rewrite Hw. reflexivity.
Qed.

(** A match of a pattern with finitely many words consumes one of them. *)
Lemma run_words (icase : bool) (r : regex) (l : list string) (s : string)
    (caps : captures) (k : string -> captures -> option captures) (c : captures) :
  words icase r = Some l -> run icase r s caps k = Some c ->
  exists w s' caps',
    s = w +:+ s' /\ In (fold icase w) l /\ k s' caps' = Some c.
Proof.
  revert l s caps k.
  induction r as [p| |cs|cs|r1 IH1 r2 IH2|r1 IH1 r2 IH2|r1 IH1|m r1 IH1];
    intros l s caps k; simpl.
  - destruct (implb icase (all stable p)) eqn:Hp; [|discriminate]. intros [= <-].
    destruct (lit icase p s) as [s'|] eqn:Hl; [|discriminate]. intros Hk.
    destruct (lit_text _ _ _ _ Hp Hl) as (w & -> & Hw).
    exists w, s', caps. rewrite Hw. simpl. auto.
  - discriminate.
  - discriminate.
  - discriminate.
  - destruct (words icase r1) as [l1|]; [|discriminate].
    destruct (words icase r2) as [l2|]; [|discriminate]. intros [= <-] H.
    destruct (IH1 _ _ _ _ eq_refl H) as (w1 & s1 & c1 & -> & Hw1 & H1).
    destruct (IH2 _ _ _ _ eq_refl H1) as (w2 & s2 & c2 & -> & Hw2 & H2).
    exists (w1 +:+ w2), s2, c2. split; [|split; [|exact H2]].
    + apply append_assoc.
    + rewrite fold_append. apply in_flat_map. exists (fold icase w1).
      split; [exact Hw1 | apply in_map; exact Hw2].
  - destruct (words icase r1) as [l1|]; [|discriminate].
    destruct (words icase r2) as [l2|]; [|discriminate]. intros [= <-].
    destruct (run icase r1 s caps k) as [c0|] eqn:H1.
    + intros [= ->]. destruct (IH1 _ _ _ _ eq_refl H1) as (w & s' & c' & Hs & Hw & Hk).
      exists w, s', c'. split; [exact Hs|]. split; [|exact Hk].
      apply in_or_app. left. exact Hw.
    + intros H2. destruct (IH2 _ _ _ _ eq_refl H2) as (w & s' & c' & Hs & Hw & Hk).
      exists w, s', c'. split; [exact Hs|]. split; [|exact Hk].
      apply in_or_app. right. exact Hw.
  - destruct (words icase r1) as [l1|]; [|discriminate]. intros [= <-].
    destruct (run icase r1 s caps k) as [c0|] eqn:H1.
    + intros [= ->]. destruct (IH1 _ _ _ _ eq_refl H1) as (w & s' & c' & Hs & Hw & Hk).
      exists w, s', c'. split; [exact Hs|]. split; [right; exact Hw | exact Hk].
    + intros Hk. exists "", s, caps. split; [reflexivity|].
      split; [left; destruct icase; reflexivity | exact Hk].
  - intros Hl H. destruct (IH1 _ _ _ _ Hl H) as (w & s' & c' & Hs & Hw & Hk).
    eexists w, s', _. split; [exact Hs|]. split; [exact Hw | exact Hk].
Qed.

Section Groups.

Variable icase : bool.
Variable p : string -> bool.
Variable n : nat.

Lemma captured_by_insert_ne (m : nat) (w : string) (caps : captures) :
  m <> n -> captured_by icase p n caps -> captured_by icase p n (<[m := w]> caps).
Proof.
  intros Hne (v & Hv & Hd). exists v. rewrite lookup_insert_ne by exact Hne. auto.
Qed.

Lemma run_group_in (r1 : regex) (s : string) (caps : captures)
    (k : string -> captures -> option captures) (c : captures) :
  match words icase r1 with Some l => forallb p l | None => false end = true ->
  run icase (RGroup n r1) s caps k = Some c ->
  exists s' caps', captured_by icase p n caps' /\ k s' caps' = Some c.
Proof.
  destruct (words icase r1) as [l|] eqn:Hl; [|discriminate]. intros Hp. simpl.
  intros H. destruct (run_words _ _ _ _ _ _ _ Hl H) as (w & s' & c' & -> & Hw & Hk).
  rewrite consumed_append in Hk. eexists _, _. split; [|exact Hk].
  exists w. rewrite lookup_insert_eq. split; [reflexivity|].
  rewrite forallb_forall in Hp. apply Hp. exact Hw.
Qed.

Lemma run_keeps_in (r : regex) (s : string) (caps : captures)
    (k : string -> captures -> option captures) (c : captures) :
  group_in icase p n r = true -> captured_by icase p n caps ->
  run icase r s caps k = Some c ->
  exists s' caps', captured_by icase p n caps' /\ k s' caps' = Some c.
Proof.
  revert s caps k. induction r as [q| |cs|cs|r1 IH1 r2 IH2|r1 IH1 r2 IH2|r1 IH1|m r1 IH1];
    intros s caps k Hd Hc.
  - simpl. destruct (lit icase q s); [eauto | discriminate].
  - discriminate.
  - simpl. intros H. apply plus_then in H as (w & s' & _ & _ & _ & H). eauto.
  - simpl. intros H. apply star_then in H as (w & s' & _ & _ & H). eauto.
  - simpl in Hd. apply andb_true_iff in Hd as [Hd1 Hd2]. simpl. intros H.
    apply (IH1 _ _ _ Hd1 Hc) in H as (s1 & c1 & Hc1 & H).
    exact (IH2 _ _ _ Hd2 Hc1 H).
  - simpl in Hd. apply andb_true_iff in Hd as [Hd1 Hd2]. simpl.
    destruct (run icase r1 s caps k) as [c0|] eqn:H1.
    + intros [= ->]. exact (IH1 _ _ _ Hd1 Hc H1).
    + apply IH2; assumption.
  - simpl in Hd. simpl. destruct (run icase r1 s caps k) as [c0|] eqn:H1.
    + intros [= ->]. exact (IH1 _ _ _ Hd Hc H1).
    + eauto.
  - simpl in Hd. destruct (Nat.eqb_spec m n) as [->|Hne].
    + apply run_group_in. exact Hd.
    + simpl. intros H. apply (IH1 _ _ _ Hd Hc) in H as (s1 & c1 & Hc1 & H).
      eexists _, _. split; [|exact H]. apply captured_by_insert_ne; assumption.
Qed.

Lemma run_captures_in (r : regex) (s : string) (caps : captures)
    (k : string -> captures -> option captures) (c : captures) :
  group_in icase p n r = true -> takes_part n r = true ->
  run icase r s caps k = Some c ->
  exists s' caps', captured_by icase p n caps' /\ k s' caps' = Some c.
Proof.
  revert s caps k. induction r as [q| |cs|cs|r1 IH1 r2 IH2|r1 IH1 r2 IH2|r1 IH1|m r1 IH1];
    intros s caps k Hd Ht; try discriminate.
  - simpl in Hd, Ht. apply andb_true_iff in Hd as [Hd1 Hd2]. simpl. intros H.
    destruct (takes_part n r1) eqn:Ht1.
    + apply (IH1 _ _ _ Hd1 eq_refl) in H as (s1 & c1 & Hc1 & H).
      exact (run_keeps_in _ _ _ _ _ Hd2 Hc1 H).
    + apply run_then in H as (s1 & c1 & H). exact (IH2 _ _ _ Hd2 Ht H).
  - simpl in Hd, Ht. apply andb_true_iff in Hd as [Hd1 Hd2].
    apply andb_true_iff in Ht as [Ht1 Ht2]. simpl.
    destruct (run icase r1 s caps k) as [c0|] eqn:H1.
    + intros [= ->]. exact (IH1 _ _ _ Hd1 Ht1 H1).
    + apply IH2; assumption.
  - simpl in Hd, Ht. destruct (Nat.eqb_spec m n) as [->|Hne].
    + apply run_group_in. exact Hd.
    + simpl in Ht. simpl. intros H.
      apply (IH1 _ _ _ Hd Ht) in H as (s1 & c1 & Hc1 & H).
      eexists _, _. split; [|exact H]. apply captured_by_insert_ne; assumption.
Qed.

(** The text of a group that takes part in every match is one of the words
    of the group. *)
Lemma js_match_group (r : regex) (s : string) (c : captures) :
  group_in icase p n r = true -> takes_part n r = true ->
  js_match icase r s = Some c -> captured_by icase p n c.
Proof.
  intros Hd Ht. induction s as [|a s IH]; simpl.
  - destruct (run icase r "" ∅ _) as [c0|] eqn:H; [|discriminate].
    intros [= ->]. apply (run_captures_in _ _ _ _ _ Hd Ht) in H
      as (s1 & c1 & Hc1 & [= ->]). exact Hc1.
  - destruct (run icase r (String a s) ∅ _) as [c0|] eqn:H; [|exact IH].
    intros [= ->]. apply (run_captures_in _ _ _ _ _ Hd Ht) in H
      as (s1 & c1 & Hc1 & [= ->]). exact Hc1.
Qed.

End Groups.

Lemma one_of_In (l : list string) (w : string) : one_of l w = true -> In w l.
Proof.
  unfold one_of. rewrite existsb_exists. intros (x & Hx & He).
  apply String.eqb_eq in He as ->. exact Hx.
Qed.

End WordsFacts.

(** ** Intent parser: what the intents hold *)

Module IntentFacts.
Import Str Num Regex Words WordsFacts Parser Vocabulary.

Lemma parseInt_go_nonneg (s : string) (acc : Z) : 0 <= acc -> 0 <= parseInt_go acc s.
Proof.
  revert acc. induction s as [|c s IH]; intros acc Hacc; simpl; [exact Hacc|].
  destruct (is_digit c) eqn:Hc; [|exact Hacc]. apply IH.
  unfold is_digit in Hc. apply andb_true_iff in Hc as [H1 _].
  apply N.leb_le in H1. unfold digit_value. lia.
Qed.

Lemma decimal_nonneg (s : string) : 0 <= decimal s.
Proof. apply parseInt_go_nonneg. lia. Qed.

(** [parseInt] gives [Infinity] or a whole number that is not negative. *)
Lemma parseInt_cases (s : string) :
  parseInt s = Infinity \/ exists n, parseInt s = Int n /\ 0 <= n.
Proof. apply NumFacts.of_Z_cases, decimal_nonneg. Qed.

Lemma value_of_cases (x : number) :
  (x = Infinity \/ exists n, x = Int n /\ 0 <= n) ->
  value_of x = VInfinity \/ exists n, value_of x = VNum n /\ 0 <= n.
Proof. intros [->|(n & -> & Hn)]; [left | right; exists n]; auto. Qed.

Lemma normalizeRoom_id (s : string) : room_or_member (normalizeRoom s).
Proof.
  rewrite NormalizerFacts.normalizeRoom_scan.
  destruct (inherited _) eqn:Hi.
  - apply NormalizerFacts.inherited_lower in Hi. exact Hi.
  - destruct (partial_match _) as [e|] eqn:Hf; simpl; [|tauto].
    apply find_some in Hf as [Hin _]. exact (NormalizerFacts.roomMap_values _ Hin).
Qed.

Lemma room_or_default_id (m : captures) (n : nat) :
  room_or_member (room_or_default m n).
Proof.
  unfold room_or_default. destruct (m !! n) as [[|a w]|]; try (simpl; tauto).
  apply normalizeRoom_id.
Qed.

Ltac parsed_branch :=
  intros [= <-];
  first [ solve [left; reflexivity]
        | solve [right; left; eexists; split; [reflexivity | simpl; tauto]]
        | solve [right; right; left; eexists; split; [reflexivity | simpl; tauto]] ].

(** What the parser returns, rule by rule. *)
Lemma parseCommand_shape (command : string) (i : intent) :
  parseCommand command = Some i ->
  i = Help \/
  (exists a, i = Scene a /\ In a scene_names) \/
  (exists a, i = Settings a /\ In a settings_actions) \/
  (exists m, js_match true timer_re command = Some m /\
             i = Timer "lights" (normalizeRoom (group m 2)) "turn off"
                   (parseInt (group m 3)) (toLowerCase (group m 4))) \/
  (exists r action m, In (r, action) patterns /\
                      js_match false r command = Some m /\ i = action m).
Proof.
  unfold parseCommand.
  repeat (ParserFacts.split_if; [parsed_branch|]).
  destruct (js_match true timer_re command) as [m|] eqn:Hm.
  - intros [= <-]. right; right; right; left. exists m. auto.
  - repeat (ParserFacts.split_if; [parsed_branch|]).
    intros H. right; right; right; right.
    exact (ParserFacts.first_pattern_action _ _ _ H).
Qed.

Ltac words_of n l Hm :=
  let w := fresh "w" in
  let Hw := fresh "Hw" in
  let Hp := fresh "Hp" in
  match type of Hm with
  | js_match _ ?r ?c = Some ?m =>
      destruct (js_match_group false (one_of l) n r c m eq_refl eq_refl Hm)
        as (w & Hw & Hp)
  end;
  apply one_of_In in Hp; simpl in Hp;
  unfold on_value, group; rewrite ?Hw; simpl default;
  repeat (destruct Hp as [Hp|Hp]; [subst w|]); [..|contradiction].

Ltac lights_case :=
  eexists _, _, _, _; split; [reflexivity|];
  split; [left; split; [reflexivity|]; simpl; auto
         | first [apply normalizeRoom_id | apply room_or_default_id]].

(** Every action of the array, on the captures of a match of its pattern,
    builds a device command whose action and value agree and whose room is
    one of the three rooms or an inherited member. *)
Lemma patterns_coherent (r : regex) (action : captures -> intent)
    (m : captures) (command : string) :
  In (r, action) patterns -> js_match false r command = Some m ->
  exists device room act val,
    action m = Device device room act val /\
    coherent device act val /\ room_or_member room.
Proof.
  intros H Hm. ParserFacts.each_pattern H.
  - words_of 1%nat ["on"; "off"] Hm; lights_case.
  - words_of 2%nat ["on"; "off"] Hm; lights_case.
  - words_of 1%nat ["on"; "off"] Hm; lights_case.
  - words_of 1%nat ["on"; "off"] Hm; lights_case.
  - eexists _, _, _, _; split; [reflexivity|]. split; [|apply room_or_default_id].
    left. split; [reflexivity|]. right; right. split; [reflexivity|].
    eexists; split; [reflexivity|]. destruct (parseInt _); simpl; lia.
  - eexists _, _, _, _; split; [reflexivity|]. split; [|apply room_or_default_id].
    right; left. split; [reflexivity|]. split; [reflexivity|].
    apply value_of_cases, parseInt_cases.
  - eexists _, _, _, _; split; [reflexivity|]. split; [|apply normalizeRoom_id].
    right; left. split; [reflexivity|]. split; [reflexivity|].
    apply value_of_cases, parseInt_cases.
  - words_of 1%nat ["play"; "stop"; "pause"] Hm;
      (eexists _, _, _, _; split; [reflexivity|];
       split; [right; right; left; split; [reflexivity|]; simpl; auto
              | apply room_or_default_id]).
  - words_of 1%nat ["on"; "off"; "play"; "stop"; "pause"] Hm;
      (eexists _, _, _, _; split; [reflexivity|];
       split; [right; right; left; split; [reflexivity|]; simpl; auto
              | apply room_or_default_id]).
  - words_of 1%nat ["arm"; "disarm"] Hm;
      (eexists _, _, _, _; split; [reflexivity|];
       split; [right; right; right; split; [reflexivity|]; simpl; auto
              | simpl; tauto]).
Qed.

(** The temperature of a thermostat command is the number that [parseInt]
    makes of a non-empty string of digits. *)
Lemma patterns_temperature (r : regex) (action : captures -> intent)
    (m : captures) (command : string) (room : location) (act : string)
    (val : value) :
  In (r, action) patterns -> js_match false r command = Some m ->
  action m = Device "thermostat" room act val ->
  exists w, digits1 w = true /\ val = value_of (parseInt w).
Proof.
  intros H Hm. ParserFacts.each_pattern H; try discriminate.
  - destruct (proj1 (proj2 (proj2 (RegexFacts.digit_groups_captured command m))) Hm)
      as (w & Hw & Hd).
    intros [= _ _ <-]. exists w. unfold group. rewrite Hw. auto.
  - destruct (proj2 (proj2 (proj2 (RegexFacts.digit_groups_captured command m))) Hm)
      as (w & Hw & Hd).
    intros [= _ _ <-]. exists w. unfold group. rewrite Hw. auto.
Qed.

(** X1 (parser, device commands): in every device command that the parser
    returns, the action and the value agree (on with 100, off with 0, dim
    with a value from 0 to 100, play with playing, stop with stopped, pause
    with paused, arm with armed, disarm with disarmed, set with a
    temperature that is [Infinity] or a whole number that is not negative),
    and the room is one of the three rooms or, for a room phrase that reads
    [constructor] or [__proto__], the member that every object inherits
    under that name. *)
Theorem parsed_command_coherent (command device : string) (room : location)
    (action : string) (val : value) :
  parseCommand command = Some (Device device room action val) ->
  coherent device action val /\ room_or_member room.
Proof.
  intros H. apply parseCommand_shape in H
    as [H|[(a & H & _)|[(a & H & _)|[(m & _ & H)|(r & act & m & Hin & Hm & H)]]]];
    try discriminate.
  destruct (patterns_coherent r act m command Hin Hm) as (d & ro & a & v & Heq & Hc & Hr).
  rewrite Heq in H. injection H as -> -> -> ->. auto.
Qed.

Lemma parsed_command_coherent_witness :
  (coherent "music" "stop" (VStr "stopped") /\ room_or_member (Room "bedroom")) /\
  (coherent "lights" "on" (VNum 100) /\ room_or_member (Member "constructor")).
Proof.
  split.
  - apply (parsed_command_coherent "music off in the bed room"
             "music" (Room "bedroom") "stop" (VStr "stopped")).
    vm_compute. reflexivity.
  - apply (parsed_command_coherent "lights on in constructor"
             "lights" (Member "constructor") "on" (VNum 100)).
    vm_compute. reflexivity.
Defined.

(** X2 (parser, timers): the unit of every timer intent is one of minutes,
    minute, mins, min, hours, hour, hrs and hr, in lower case; its duration
    is the number that [parseInt] makes of a non-empty string of digits:
    [Infinity], or a whole number that is not negative, which is the
    decimal value of the digits when that does not exceed [2^53]; and the
    milliseconds of the timer are the product of the duration and 3,600,000
    for hours and hour, and of the duration and 60,000 for the six others,
    hrs and hr among them. *)
Theorem parsed_timer_unit (command device : string) (room : location)
    (action : string) (duration : number) (unit : string) :
  parseCommand command = Some (Timer device room action duration unit) ->
  In unit timer_units /\
  (exists w, digits1 w = true /\ duration = parseInt w /\
             (decimal w <= 2 ^ 53 -> duration = Int (decimal w))) /\
  (duration = Infinity \/ exists n, duration = Int n /\ 0 <= n) /\
  Home.milliseconds duration unit =
    times duration (if one_of ["hours"; "hour"] unit then 3600000 else 60000).
Proof.
  intros H. apply parseCommand_shape in H
    as [H|[(a & H & _)|[(a & H & _)|[(m & Hm & H)|(r & act & m & Hin & Hm & H)]]]];
    try discriminate.
  - injection H as _ _ _ -> ->.
    destruct (js_match_group true (one_of timer_units) 4 timer_re command m
                eq_refl eq_refl Hm) as (w & Hw & Hp).
    destruct (proj1 (RegexFacts.digit_groups_captured command m) Hm) as (d & Hd & Hdig).
    unfold group. rewrite Hw, Hd. simpl default. simpl fold in Hp.
    apply one_of_In in Hp. split; [exact Hp|].
    split.
    { exists d. split; [exact Hdig|]. split; [reflexivity|]. intros Hle.
      apply NumFacts.of_Z_exact. split; [apply decimal_nonneg | exact Hle]. }
    split; [apply parseInt_cases|].
    simpl in Hp. repeat (destruct Hp as [Hp|Hp]; [rewrite <- Hp; reflexivity|]).
    contradiction.
  - destruct (patterns_coherent r act m command Hin Hm) as (d & ro & a & v & Heq & _).
    congruence.
Qed.

Lemma parsed_timer_unit_witness :
  In "hrs" timer_units /\
  (exists w, digits1 w = true /\ Int 2 = parseInt w /\
             (decimal w <= 2 ^ 53 -> Int 2 = Int (decimal w))) /\
  (Int 2 = Infinity \/ exists n, Int 2 = Int n /\ 0 <= n) /\
  Home.milliseconds (Int 2) "hrs" =
    times (Int 2) (if one_of ["hours"; "hour"] "hrs" then 3600000 else 60000).
Proof.
  apply (parsed_timer_unit "Turn off bedroom lights in 2 HRS"
           "lights" (Room "bedroom") "turn off" (Int 2) "hrs").
  vm_compute. reflexivity.
Defined.

(** X3 (parser, temperatures): the temperature of every thermostat command
    that the parser returns is the number that [parseInt] makes of a
    non-empty string of digits: [Infinity], or a whole number that is not
    negative, which is the decimal value of the digits when that does not
    exceed [2^53]. *)
Theorem parsed_temperature_digits (command : string) (room : location)
    (action : string) (val : value) :
  parseCommand command = Some (Device "thermostat" room action val) ->
  exists w, digits1 w = true /\ val = value_of (parseInt w) /\
            (val = VInfinity \/ exists n, val = VNum n /\ 0 <= n) /\
            (decimal w <= 2 ^ 53 -> val = VNum (decimal w)).
Proof.
  intros H. apply parseCommand_shape in H
    as [H|[(a & H & _)|[(a & H & _)|[(m & _ & H)|(r & act & m & Hin & Hm & H)]]]];
    try discriminate.
  destruct (patterns_temperature r act m command room action val Hin Hm (eq_sym H))
    as (w & Hd & Hv).
  exists w. split; [exact Hd|]. split; [exact Hv|]. subst val. split.
  - apply value_of_cases, parseInt_cases.
  - intros Hle. unfold parseInt. rewrite NumFacts.of_Z_exact; [reflexivity|].
    split; [apply decimal_nonneg | exact Hle].
Qed.

Lemma parsed_temperature_digits_witness :
  exists w, digits1 w = true /\ VNum 72 = value_of (parseInt w) /\
            (VNum 72 = VInfinity \/ exists n, VNum 72 = VNum n /\ 0 <= n) /\
            (decimal w <= 2 ^ 53 -> VNum 72 = VNum (decimal w)).
Proof.
  apply (parsed_temperature_digits "set the kitchen temperature to 072 degrees"
           (Room "kitchen") "set" (VNum 72)).
  vm_compute. reflexivity.
Defined.

(** A temperature of 400 digits is [Infinity]; one of 17 digits is
    rounded. *)
Example parse_long_temperature :
  parseInt (String.string_of_list_ascii (repeat "9"%char 400)) = Infinity /\
  parseCommand "set temperature to 12345678901234567 degrees"
  = Some (Device "thermostat" (Room "living-room") "set" (VNum 12345678901234568)).
Proof. vm_compute. split; reflexivity. Qed.

(** X4 (parser, scenes and settings): every scene intent of the parser names
    a scene of [loadScenes], with at least one step, and every settings
    intent names an action that [handleSettings] handles. *)
Theorem parsed_scene_known (command : string) (i : intent) :
  parseCommand command = Some i ->
  match i with
  | Scene a => exists steps, Home.scene a = Some steps /\ steps <> []
  | Settings a => In a settings_actions
  | _ => True
  end.
Proof.
  intros H. apply parseCommand_shape in H
    as [->|[(a & -> & Ha)|[(a & -> & Ha)|[(m & _ & ->)|(r & act & m & Hin & Hm & ->)]]]];
    try exact I.
  - simpl in Ha. repeat (destruct Ha as [<-|Ha]; [eexists; split; [reflexivity | discriminate]|]).
    contradiction.
  - exact Ha.
  - destruct (patterns_coherent r act m command Hin Hm) as (d & ro & a & v & -> & _).
    exact I.
Qed.

Lemma parsed_scene_known_witness :
  exists steps, Home.scene "party" = Some steps /\ steps <> [].
Proof.
  apply (parsed_scene_known "it is party time" (Scene "party")).
  vm_compute. reflexivity.
Defined.

End IntentFacts.

(** ** Handlers of the page and of the recognizers *)

Module HandlersFacts.
Import Str Num Home Handlers Vocabulary HomeFacts.

Section Events.

Variable rnd : nat -> Q.
Variable positive : string -> bool.

Lemma toggle_ok (room device : string) (current : option value) (i : intent) :
  toggle positive room device current = Some i -> intent_ok i.
Proof.
  unfold toggle.
  destruct (String.eqb device "lights");
    [intros [= <-]; simpl; destruct (above_zero positive current); reflexivity|].
  destruct (String.eqb device "music");
    [intros [= <-]; simpl; destruct (is_text current "playing"); reflexivity|].
  destruct (String.eqb device "security");
    [intros [= <-]; simpl; destruct (is_text current "armed"); reflexivity|].
  destruct (String.eqb device "thermostat"); [intros [= <-]; reflexivity | discriminate].
Qed.

(** What the handlers that end on an exception leave is what the call
    left. *)
Lemma settled_invariant (c : completion) :
  invariant c <-> invariant match c with Returns s' | Throws _ s' => s' end.
Proof. destruct c; reflexivity. Qed.

Lemma clickDeviceCard_invariant (room device : string) (s : state) :
  invariant s -> invariant (clickDeviceCard rnd positive room device s).
Proof.
  intros Hs. unfold clickDeviceCard.
  destruct (String.eqb room "" || String.eqb device ""); [exact Hs|].
  destruct (currentValue room device s) as [current|]; [|exact Hs].
  destruct (toggle positive room device current) as [command|] eqn:Ht; [|exact Hs].
  apply executeCommand_invariant; [exact (toggle_ok _ _ _ _ Ht) | exact Hs].
Qed.

Lemma onresult_invariant (results : list segment) (s : state) :
  invariant s -> invariant (onresult rnd results s).
Proof.
  intros Hs. unfold onresult. destruct (collect results "" 0) as [ft c].
  destruct (trim ft); [exact Hs | apply processCommand_invariant; exact Hs].
Qed.

Lemma processWhisperAudio_invariant (o : outcome) (s : state) :
  invariant s -> invariant (processWhisperAudio rnd o s).
Proof.
  intros Hs. unfold processWhisperAudio. destruct o as [message|r]; [exact Hs|].
  destruct (_ && _); [|split_ifs; exact Hs].
  pose proof (processCommand_invariant rnd (trim (r_text r))
                (confidence_of (r_confidence r)) s Hs) as H.
  destruct (processCommand _ _ _ _); exact H.
Qed.

Lemma checkWhisperAvailability_invariant (h : health) (s : state) :
  invariant s -> invariant (checkWhisperAvailability h s).
Proof.
  intros Hs. unfold checkWhisperAvailability.
  destruct h as [|[] status]; split_ifs; exact Hs.
Qed.

Lemma event_step_invariant (s s' : state) :
  event_step rnd positive s s' -> invariant s -> invariant s'.
Proof.
  intros Hstep Hs. destruct Hstep as [s s' H|results s|o s|room device s|h s].
  - exact (step_invariant rnd _ _ H Hs).
  - apply onresult_invariant. exact Hs.
  - apply processWhisperAudio_invariant. exact Hs.
  - apply clickDeviceCard_invariant. exact Hs.
  - apply checkWhisperAvailability_invariant. exact Hs.
Qed.

Lemma event_reachable_invariant (s0 s : state) :
  invariant s0 -> event_reachable rnd positive s0 s -> invariant s.
Proof.
  intros H0 Hr. induction Hr as [|s s' _ IH Hstep]; [exact H0|].
  exact (event_step_invariant _ _ Hstep IH).
Qed.

(** X5 (store, all handlers): the values of the store stay in the domains of
    their devices also under the clicks on the device cards, the results of
    the browser recognizer, the answers of the transcription service and the
    health checks, in any order with the utterances and the callbacks. *)
Theorem store_in_domain_all_events (item : option store) (history : list entry)
    (backend welcomed : bool) (t : Z) (speech whisper : bool) (s : state)
    (room device : string) (v : value) :
  (forall d, item = Some d -> store_ok d) ->
  event_reachable rnd positive (boot item history backend welcomed t speech whisper) s ->
  get (devices s) room device = Some v ->
  within_domain device v.
Proof.
  intros Hitem Hr Hget. apply in_domain_within.
  destruct (event_reachable_invariant _ _
              (boot_invariant item history backend welcomed t speech whisper Hitem)
              Hr) as (Hok & _ & _).
  unfold get in Hget. destruct (devices s !! room) as [r|] eqn:Hroom; [|discriminate].
  exact (Hok _ _ _ _ Hroom Hget).
Qed.

End Events.

Lemma store_in_domain_all_events_witness : within_domain "security" (VStr "armed").
Proof.
  set (pos := fun _ : string => false).
  set (s1 := clickDeviceCard rnd0 pos "kitchen" "security" s0).
  set (s2 := set_now 200 s1).
  set (tk := ApplyCommand "security" (Room "kitchen") "arm" (VStr "armed")).
  set (s3 := fire rnd0 tk (set_queue (delete 0%nat (queue s2)) s2)).
  assert (R1 : event_reachable rnd0 pos s0 s1).
  { apply (ev_next rnd0 pos s0 s0); [apply ev_start | apply ev_click]. }
  assert (R2 : event_reachable rnd0 pos s0 s2).
  { apply (ev_next rnd0 pos s0 s1); [exact R1|]. apply ev_core, step_time.
    vm_compute. discriminate. }
  assert (R3 : event_reachable rnd0 pos s0 s3).
  { apply (ev_next rnd0 pos s0 s2); [exact R2|]. apply ev_core.
    apply (step_fire rnd0 0 200 tk s2); [vm_compute; reflexivity|].
    vm_compute. discriminate. }
  apply (store_in_domain_all_events rnd0 pos None [] false true 0 true false s3
           "kitchen" "security" (VStr "armed")).
  - intros d H. discriminate H.
  - exact R3.
  - vm_compute. reflexivity.
Defined.

(** ** The cards of the devices *)

Section Cards.

Variable rnd : nat -> Q.
Variable positive : string -> bool.

Lemma toggle_thermostat (room : string) (current : option value) :
  toggle positive room "thermostat" current =
  Some (Device "thermostat" (Room room) "set"
          (VNum match current with
                | Some (VNum n) => next_temperature n
                | Some VInfinity => 68
                | _ => 73
                end)).
Proof. destruct current as [[n|text|]|]; reflexivity. Qed.

Lemma fire_ApplyCommand_room (device room action : string) (val : value)
    (s : state) (r : gmap string value) :
  devices s !! room = Some r ->
  devices (fire rnd (ApplyCommand device (Room room) action val) s)
  = <[room := <[device := val]> r]> (devices s).
Proof. intros Hr. simpl. unfold assign. rewrite Hr. reflexivity. Qed.

(** One click on the card of the thermostat and its callback. *)
Lemma click_thermostat (room : string) (t : Z) (s : state) :
  room <> "" -> thermostat_at room t s ->
  thermostat_at room (next_temperature t)
    (click_and_settle rnd positive room "thermostat" s).
Proof.
  intros Hroom (Hq & r & Hr & Hh & Ht). unfold click_and_settle.
  set (tk := ApplyCommand "thermostat" (Room room) "set" (VNum (next_temperature t))).
  assert (Hs1 : clickDeviceCard rnd positive room "thermostat" s =
                setTimeout tk (responseDelay (rnd (draws s)))
                  (set_draws (S (draws s))
                     (addToDebugPanel None
                        ("Manual control: " +:+ "thermostat" +:+ " in " +:+ room)
                        Success s))).
  { unfold clickDeviceCard, currentValue, room_of.
    apply String.eqb_neq in Hroom. rewrite Hroom, Hr, Ht. simpl.
    unfold room_of. simpl. rewrite Hr, Hh, Ht. reflexivity. }
  rewrite Hs1. unfold settle.
  match goal with
  | |- context [drain rnd (length (queue ?st)) ?st] =>
      assert (Hq1 : queue st = [(now s + responseDelay (rnd (draws s)), tk)])
        by (simpl; rewrite Hq; reflexivity);
      rewrite Hq1; simpl length;
      rewrite (drain_head rnd 0 st _ _ [] Hq1) by constructor
  end.
  cbn [drain snd].
  match goal with
  | |- thermostat_at _ _ (fire rnd tk ?st) =>
      assert (Hd : devices (fire rnd tk st)
                   = <[room := <["thermostat" := VNum (next_temperature t)]> r]>
                       (devices s))
        by (apply (fire_ApplyCommand_room _ _ _ _ st r); exact Hr);
      pose proof (fire_queue rnd tk st) as Hq2
  end.
  split; [rewrite Hq2; reflexivity|].
  exists (<["thermostat" := VNum (next_temperature t)]> r).
  rewrite Hd, lookup_insert_eq. split; [reflexivity|].
  rewrite lookup_insert_ne by discriminate. rewrite lookup_insert_eq. auto.
Qed.

Lemma click_thermostat_times (n : nat) (room : string) (t : Z) (s : state) :
  room <> "" -> thermostat_at room t s ->
  thermostat_at room (Nat.iter n next_temperature t)
    (Nat.iter n (click_and_settle rnd positive room "thermostat") s).
Proof.
  intros Hroom Hs. induction n as [|n IH]; [exact Hs|].
  simpl. apply click_thermostat; assumption.
Qed.

Lemma thermostat_at_get (room : string) (t : Z) (s : state) :
  thermostat_at room t s -> get (devices s) room "thermostat" = Some (VNum t).
Proof. intros (_ & r & Hr & _ & Ht). unfold get. rewrite Hr. exact Ht. Qed.

(** X6 (device cards, thermostat): a click on the card of a thermostat never
    asks for more than 76 degrees, and takes a value that is no number for
    72.  In a room of the store, with nothing else pending, the click and
    its callback leave the thermostat one degree up, and at 68 from 76 on;
    from 68 to 76 it stays from 68 to 76, and nine clicks, each followed by
    its callback, bring it back to the temperature it started from. *)
Theorem thermostat_click_cycle (room : string) (r : gmap string value) (t : Z)
    (s : state) :
  room <> "" -> queue s = [] -> devices s !! room = Some r ->
  r !! "hasOwnProperty" = None -> r !! "thermostat" = Some (VNum t) ->
  (forall current, exists t',
     toggle positive room "thermostat" current
       = Some (Device "thermostat" (Room room) "set" (VNum t')) /\ t' <= 76) /\
  (forall text, toggle positive room "thermostat" (Some (VStr text))
     = Some (Device "thermostat" (Room room) "set" (VNum 73))) /\
  get (devices (click_and_settle rnd positive room "thermostat" s))
    room "thermostat" = Some (VNum (if 76 <=? t then 68 else t + 1)) /\
  (68 <= t <= 76 ->
     68 <= (if 76 <=? t then 68 else t + 1) <= 76 /\
     get (devices (Nat.iter 9 (click_and_settle rnd positive room "thermostat") s))
       room "thermostat" = Some (VNum t)).
Proof.
  intros Hroom Hq Hr Hh Ht.
  assert (Hs : thermostat_at room t s) by (split; [exact Hq | eauto]).
  split; [|split; [|split]].
  - intros current. rewrite toggle_thermostat. eexists. split; [reflexivity|].
    destruct current as [[n|text|]|]; try lia.
    unfold next_temperature. destruct (Z.leb_spec 76 n); lia.
  - intros text. reflexivity.
  - exact (thermostat_at_get _ _ _ (click_thermostat room t s Hroom Hs)).
  - intros Hb. split; [destruct (Z.leb_spec 76 t); lia|].
    pose proof (thermostat_at_get _ _ _ (click_thermostat_times 9 room t s Hroom Hs))
      as H9.
    rewrite H9. do 2 f_equal.
    assert (H : t = 68 \/ t = 69 \/ t = 70 \/ t = 71 \/ t = 72 \/ t = 73 \/
                t = 74 \/ t = 75 \/ t = 76) by lia.
    repeat (destruct H as [->|H]; [reflexivity|]). subst t. reflexivity.
Qed.

(** Device cards, outcomes: a click on a card without a room or without
    a device does nothing; on a card of a room that [this.devices] does not
    find it raises a [TypeError] before any check; on a card of a device
    that the [switch] does not know it does nothing; otherwise it reports
    the manual control and hands the toggled command to [executeCommand],
    which leaves the store as it is until the callback fires. *)
Lemma click_outcomes (room device : string) (s : state) :
  let s' := clickDeviceCard rnd positive room device s in
  (room = "" \/ device = "" -> s' = s) /\
  (room <> "" -> device <> "" -> devices s !! room = None ->
   inherited room = false -> s' = emit (Uncaught "TypeError") s) /\
  (forall r, room <> "" -> device <> "" -> devices s !! room = Some r ->
     (toggle positive room device (r !! device) = None -> s' = s) /\
     (forall command, toggle positive room device (r !! device) = Some command ->
        s' = executeCommand rnd command
               (addToDebugPanel None
                  ("Manual control: " +:+ device +:+ " in " +:+ room) Success s) /\
        devices s' = devices s)).
Proof.
  simpl. unfold clickDeviceCard, currentValue, room_of. split; [|split].
  - intros [-> | ->]; simpl; [reflexivity|]. rewrite orb_true_r. reflexivity.
  - intros Hr Hd Hroom Hi. apply String.eqb_neq in Hr, Hd.
    rewrite Hr, Hd, Hroom, Hi. reflexivity.
  - intros r Hr Hd Hroom. apply String.eqb_neq in Hr, Hd. rewrite Hr, Hd, Hroom.
    simpl. split.
    + intros ->. reflexivity.
    + intros command ->. split; [reflexivity|].
      rewrite executeCommand_devices. reflexivity.
Qed.

(** X7 (device cards, lights): a click on the card of the lights of a room
    of the store whose devices include none of the name [hasOwnProperty],
    followed by its callback, leaves the lights at 0 when they were above 0
    and at 100 otherwise, and saves the store. *)
Theorem click_lights (room : string) (n : Z) (r : gmap string value) (s : state) :
  room <> "" -> devices s !! room = Some r -> r !! "hasOwnProperty" = None ->
  r !! "lights" = Some (VNum n) ->
  let isOn := 0 <? n in
  let tk := ApplyCommand "lights" (Room room) (if isOn then "off" else "on")
              (VNum (if isOn then 0 else 100)) in
  let s1 := clickDeviceCard rnd positive room "lights" s in
  queue s1 = queue s ++ [(now s + responseDelay (rnd (draws s)), tk)] /\
  devices s1 = devices s /\
  let s2 := fire rnd tk s1 in
  get (devices s2) room "lights" = Some (VNum (if isOn then 0 else 100)) /\
  saved s2 = Some (devices s2).
Proof.
  intros Hr Hroom Hh Hl. simpl.
  assert (Hs1 : clickDeviceCard rnd positive room "lights" s =
                setTimeout (ApplyCommand "lights" (Room room)
                              (if 0 <? n then "off" else "on")
                              (VNum (if 0 <? n then 0 else 100)))
                  (responseDelay (rnd (draws s)))
                  (set_draws (S (draws s))
                     (addToDebugPanel None
                        ("Manual control: " +:+ "lights" +:+ " in " +:+ room)
                        Success s))).
  { unfold clickDeviceCard, currentValue, room_of.
    apply String.eqb_neq in Hr. rewrite Hr, Hroom. simpl.
    rewrite Hl. unfold toggle. simpl. unfold room_of. simpl.
    rewrite Hroom, Hh, Hl. reflexivity. }
  rewrite Hs1. split; [reflexivity|]. split; [reflexivity|].
  apply fire_ApplyCommand. simpl. rewrite Hroom. eauto.
Qed.

End Cards.

Lemma click_lights_witness :
  get (devices
         (fire rnd0 (ApplyCommand "lights" (Room "bedroom") "on" (VNum 100))
            (clickDeviceCard rnd0 (fun _ => false) "bedroom" "lights" s0)))
    "bedroom" "lights" = Some (VNum 100).
Proof.
  destruct (click_lights rnd0 (fun _ => false) "bedroom" 0
              {[ "lights" := VNum 0; "thermostat" := VNum 70;
                 "music" := VStr "stopped" ]} s0) as (_ & _ & H & _).
  - discriminate.
  - vm_compute. reflexivity.
  - vm_compute. reflexivity.
  - vm_compute. reflexivity.
  - exact H.
Defined.

(** A room of the storage that has a device of the name [hasOwnProperty]:
    the test of the device calls that value, and the click ends on a
    [TypeError] with no callback registered. *)
Example click_shadowed :
  let d : store := {[ "bedroom" := {[ "lights" := VNum 0;
                                      "hasOwnProperty" := VNum 1 ]} ]} in
  let s := boot (Some d) [] false true 0 true false in
  let s' := clickDeviceCard rnd0 (fun _ => false) "bedroom" "lights" s in
  queue s' = [] /\
  log s' = [ Panel None "Manual control: lights in bedroom" Success;
             Uncaught "TypeError" ].
Proof. vm_compute. split; reflexivity. Qed.

Lemma thermostat_click_cycle_witness :
  get (devices (click_and_settle rnd0 (fun _ => false) "kitchen" "thermostat" s0))
    "kitchen" "thermostat" = Some (VNum 69) /\
  get (devices (Nat.iter 9 (click_and_settle rnd0 (fun _ => false)
                              "kitchen" "thermostat") s0))
    "kitchen" "thermostat" = Some (VNum 68).
Proof.
  destruct (thermostat_click_cycle rnd0 (fun _ => false) "kitchen"
              {[ "lights" := VNum 0; "thermostat" := VNum 68;
                 "security" := VStr "disarmed" ]} 68 s0) as (_ & _ & H1 & H9).
  - discriminate.
  - reflexivity.
  - vm_compute. reflexivity.
  - vm_compute. reflexivity.
  - vm_compute. reflexivity.
  - split; [exact H1 | apply H9; lia].
Defined.

(** ** The recognizers *)

Lemma append_empty (s : string) : s +:+ "" = s.
Proof.
  induction s as [|a s IH]; [reflexivity|].
  change (String a (s +:+ "") = String a s). rewrite IH. reflexivity.
Qed.

Lemma collect_finals (results : list segment) (ft : string) (c : Q) :
  collect results ft c =
  (ft +:+ finals results,
   match last_final results with Some r => or_one (reported r) | None => c end).
Proof.
  revert ft c. induction results as [|r results IH]; intros ft c; simpl.
  - rewrite append_empty. reflexivity.
  - destruct (isFinal r).
    + rewrite IH, WordsFacts.append_assoc. destruct (last_final results); reflexivity.
    + rewrite IH. destruct (last_final results); reflexivity.
Qed.

Lemma lowConfidence_below (c : Q) :
  lowConfidence c = true <-> (c < 7 # 10)%Q.
Proof.
  rewrite lowConfidence_spec. split; [intros [H _]; exact H|].
  intros H. split; [exact H|]. apply (Qlt_trans _ (7 # 10)); [exact H | reflexivity].
Qed.

Section Recognizers.

Variable rnd : nat -> Q.

Lemma scheduleSteps_fields (steps : list (string * string * value)) (index : Z)
    (s : state) :
  commandHistory (scheduleSteps steps index s) = commandHistory s /\
  now (scheduleSteps steps index s) = now s.
Proof.
  revert index s. induction steps as [|[[room device] val] steps IH];
    intros index s; simpl; [auto|].
  destruct (IH (index + 1) (setTimeout (SceneStep room device val) (index * 500) s))
    as [H1 H2]. rewrite H1, H2. auto.
Qed.

(** [executeCommand] leaves the history and the clock as they are. *)
Lemma executeCommand_history (i : intent) (s : state) :
  commandHistory (executeCommand rnd i s) = commandHistory s /\
  now (executeCommand rnd i s) = now s.
Proof.
  command_cases i s; unfold_ops; simpl;
    try match goal with
        | |- context [scheduleSteps ?l ?i ?st] =>
            destruct (scheduleSteps_fields l i st) as [-> ->]
        end; auto.
Qed.

Lemma completion_history (c : completion) :
  commandHistory c = commandHistory match c with Returns s' | Throws _ s' => s' end /\
  now c = now match c with Returns s' | Throws _ s' => s' end.
Proof. destruct c; auto. Qed.

(** Whether the execution of an intent throws is a matter of the store
    alone. *)
Lemma throws_store (i : intent) (s s' : state) :
  devices s' = devices s ->
  throws (executeCommand rnd i s') = throws (executeCommand rnd i s).
Proof.
  intros H.
  destruct i as [|a|device room action duration unit|a|device room action val];
    simpl; try reflexivity.
  - unfold executeScene. destruct (scene a); [reflexivity|].
    destruct (inherited a); reflexivity.
  - unfold setTimer. destruct room; reflexivity.
  - rewrite H. unfold deviceNotFound, respond, room_of.
    destruct (devices s !! key room) as [r|].
    + destruct (r !! "hasOwnProperty"); [reflexivity|].
      destruct (r !! device); [|destruct room]; reflexivity.
    + destruct (inherited (key room)); [destruct (member_owns _ _)|];
        destruct room; reflexivity.
Qed.

Lemma fails_store (command : string) (s s' : state) :
  devices s' = devices s -> fails rnd command s' = fails rnd command s.
Proof.
  intros H. unfold fails. destruct (parseCommand _); [|reflexivity].
  apply throws_store. exact H.
Qed.

(** What [processCommand] does to the history: the utterance that is
    rejected, and the one whose execution throws, leave no entry. *)
Lemma processCommand_history (command : string) (confidence : Q) (s : state) :
  commandHistory (processCommand rnd command confidence s) =
  if lowConfidence confidence || fails rnd command s then commandHistory s
  else take 10 (recorded command (now s) :: commandHistory s).
Proof.
  unfold processCommand, recorded, fails.
  destruct (lowConfidence confidence); [reflexivity|].
  destruct (parseCommand (toLowerCase command)) as [parsed|]; [|reflexivity].
  match goal with
  | |- context [executeCommand rnd parsed ?st] =>
      destruct (executeCommand_history parsed st) as [H1 H2];
      pose proof (throws_store parsed s st eq_refl) as Ht;
      destruct (executeCommand rnd parsed st) as [s2|message s2]
  end; simpl in *; rewrite <- Ht; simpl.
  - unfold addCommandToHistory. simpl. rewrite H1, H2. reflexivity.
  - exact H1.
Qed.

Lemma processCommand_now (command : string) (confidence : Q) (s : state) :
  now (processCommand rnd command confidence s) = now s.
Proof.
  unfold processCommand. destruct (lowConfidence confidence); [reflexivity|].
  destruct (parseCommand (toLowerCase command)) as [parsed|]; [|reflexivity].
  match goal with
  | |- context [executeCommand rnd parsed ?st] =>
      destruct (executeCommand_history parsed st) as [_ H];
      destruct (executeCommand rnd parsed st)
  end; simpl in *; exact H.
Qed.

(** [recognition.onresult] in one equation. *)
Lemma onresult_cases (results : list segment) (s : state) :
  onresult rnd results s =
  if String.eqb (trim (finals results)) "" then s
  else processCommand rnd (trim (finals results)) (heard results) s.
Proof.
  unfold onresult, heard. rewrite collect_finals.
  change ("" +:+ finals results) with (finals results).
  destruct (trim (finals results)); reflexivity.
Qed.

(** X8 (browser recognizer): [recognition.onresult] does nothing when the
    transcripts of the final results, put together and trimmed, are empty
    (so never on interim results alone); otherwise it hands them to
    [processCommand] with the confidence of the last final result, where an
    absent confidence and the confidence 0 count as 1: the input is rejected
    for its confidence exactly when that last result reports a confidence
    other than 0 and below 0.7, whatever the earlier results report. *)
Theorem onresult_gate (results : list segment) (s : state) :
  let command := trim (finals results) in
  (command = "" -> onresult rnd results s = s) /\
  (command <> "" ->
     onresult rnd results s = processCommand rnd command (heard results) s) /\
  (forall r, last_final results = Some r ->
     (lowConfidence (heard results) = true <->
      exists c, reported r = Some c /\ ~ (c == 0)%Q /\ (c < 7 # 10)%Q)).
Proof.
  simpl. unfold onresult, heard. rewrite collect_finals.
  change ("" +:+ finals results) with (finals results).
  split; [|split].
  - intros ->. reflexivity.
  - intros H. destruct (trim (finals results)); [congruence | reflexivity].
  - intros r ->. unfold or_one. destruct (reported r) as [c|].
    + destruct (Qeq_bool c 0) eqn:Hz.
      * apply Qeq_bool_iff in Hz. split; [discriminate|].
        intros (c' & [= <-] & Hne & _). contradiction.
      * rewrite lowConfidence_below. split.
        -- intros H. exists c. split; [reflexivity|]. split; [|exact H].
           intros Hc. apply Qeq_bool_iff in Hc. congruence.
        -- intros (c' & [= <-] & _ & H). exact H.
    + split; [discriminate | intros (c & H & _); discriminate].
Qed.

(** Transcription service: [processWhisperAudio] reaches
    [processCommand] only on an answer with the status [success] and a text
    that is not blank, with the text trimmed and the confidence of the
    answer (1 when the answer has none, 0 when it is [null]), and reports
    the exception that it ends on, if any; any other answer and a failed
    request leave the state as it is but for at most one entry of the
    panel. *)
Lemma whisper_answer_gate (o : outcome) (s : state) :
  let s' := processWhisperAudio rnd o s in
  match o with
  | Failed message =>
      only_reports s s'
        [Panel (Some (now s)) ("Error: Whisper processing failed: " +:+ message) Error]
  | Answer r =>
      if String.eqb (r_status r) "success" && negb (String.eqb (trim (r_text r)) "")
      then match processCommand rnd (trim (r_text r))
                   (confidence_of (r_confidence r)) s with
           | Returns s1 => s' = s1
           | Throws message s1 =>
               only_reports s1 s'
                 [Panel (Some (now s1))
                    ("Error: Whisper processing failed: " +:+ message) Error]
           end
      else exists entries,
             only_reports s s' entries /\ (length entries <= 1)%nat /\
             Forall (fun f => exists stamp text, f = Panel stamp text Error) entries
  end.
Proof.
  simpl. destruct o as [message|r]; simpl.
  - reflexivity.
  - destruct (String.eqb (r_status r) "success"
              && negb (String.eqb (trim (r_text r)) "")).
    { destruct (processCommand _ _ _ _); reflexivity. }
    destruct (String.eqb (r_status r) "no_speech_detected").
    + eexists. split; [reflexivity|]. split; [simpl; lia|]. repeat constructor. eauto.
    + destruct (negb (String.eqb (r_error r) "")).
      * eexists. split; [reflexivity|]. split; [simpl; lia|]. repeat constructor. eauto.
      * exists []. split; [|split; [simpl; lia | constructor]].
        unfold only_reports, set_log. rewrite app_nil_r. destruct s; reflexivity.
Qed.

(** X9 (confidence 0, by recognizer): the same text with the reported
    confidence 0, or with a confidence that is [null], is rejected when it
    comes from the transcription service, with the history as it was; with
    the reported confidence 0 from the browser recognizer, which reads 0 as
    no confidence, it is parsed, and it is recorded in the history unless
    the execution of its parse throws. *)
Theorem zero_confidence_by_recognizer (text : string) (s : state) :
  trim text <> "" ->
  let fromService c :=
    processWhisperAudio rnd
      (Answer {| r_status := "success"; r_text := text;
                 r_confidence := c; r_error := "" |}) s in
  let fromBrowser :=
    onresult rnd [{| isFinal := true; transcript := text; reported := Some 0%Q |}] s in
  only_reports s (fromService (Number 0))
    [ echo (trim text) 0 s; rejection s;
      Say (synthesis s && voiceResponseEnabled s) repeatText ] /\
  fromService Null = fromService (Number 0) /\
  fromBrowser = processCommand rnd (trim text) 1 s /\
  commandHistory fromBrowser =
    if fails rnd (trim text) s then commandHistory s
    else take 10 (recorded (trim text) (now s) :: commandHistory s).
Proof.
  intros Hne. simpl.
  assert (Hb : onresult rnd
                 [{| isFinal := true; transcript := text; reported := Some 0%Q |}] s
               = processCommand rnd (trim text) 1 s).
  { unfold onresult. simpl. change ("" +:+ text) with text.
    destruct (trim text) eqn:Ht; [congruence | reflexivity]. }
  split; [|split; [reflexivity|split; [exact Hb|]]].
  - unfold processWhisperAudio. simpl.
    apply String.eqb_neq in Hne. rewrite Hne. simpl.
    unfold processCommand. simpl. unfold_ops. unfold only_reports, set_log, echo. simpl.
    rewrite <- !app_assoc, andb_true_r. reflexivity.
  - rewrite Hb, processCommand_history. reflexivity.
Qed.

End Recognizers.

Lemma zero_confidence_by_recognizer_witness :
  let fromService c :=
    processWhisperAudio rnd0
      (Answer {| r_status := "success"; r_text := " Goodnight ";
                 r_confidence := c; r_error := "" |}) s0 in
  let fromBrowser :=
    onresult rnd0
      [{| isFinal := true; transcript := " Goodnight "; reported := Some 0%Q |}] s0 in
  only_reports s0 (fromService (Number 0))
    [ echo (trim " Goodnight ") 0 s0; rejection s0;
      Say (synthesis s0 && voiceResponseEnabled s0) repeatText ] /\
  fromService Null = fromService (Number 0) /\
  fromBrowser = processCommand rnd0 (trim " Goodnight ") 1 s0 /\
  commandHistory fromBrowser =
    if fails rnd0 (trim " Goodnight ") s0 then commandHistory s0
    else take 10 (recorded (trim " Goodnight ") (now s0) :: commandHistory s0).
Proof.
  apply (zero_confidence_by_recognizer rnd0 " Goodnight " s0).
  vm_compute. discriminate.
Defined.

(** The room phrase [constructor]: the report of the room raises a
    [TypeError] and the utterance leaves no entry in the history; from the
    transcription service the exception is caught and reported. *)
Example inherited_room_not_recorded :
  let s := processCommand rnd0 "lights on in constructor" 1 s0 in
  let s' := processWhisperAudio rnd0
              (Answer {| r_status := "success"; r_text := "lights on in constructor";
                         r_confidence := Unset; r_error := "" |}) s0 in
  commandHistory s = [] /\ fails rnd0 "lights on in constructor" s0 = true /\
  log s = [ echo "lights on in constructor" 1 s0;
            Panel None "Room function Object() { [native code] } not found" Error;
            Uncaught "TypeError" ] /\
  last (log s') = Some (Panel (Some 0)
                          "Error: Whisper processing failed: room.replace is not a function"
                          Error).
Proof. vm_compute. repeat split; reflexivity. Qed.

(** ** The history *)

Lemma take_app_take {A : Type} (l1 l2 : list A) (n m : nat) :
  (n <= m)%nat -> take n (l1 ++ take m l2) = take n (l1 ++ l2).
Proof.
  revert n. induction l1 as [|a l1 IH]; intros n Hn; simpl.
  - rewrite take_take. f_equal. lia.
  - destruct n as [|n]; [reflexivity|]. simpl. rewrite IH by lia. reflexivity.
Qed.

Lemma recorded_ok (command : string) (t : Z) : entry_ok (recorded command t).
Proof. unfold entry_ok, recorded. simpl. auto. Qed.

Lemma passed_cons (rnd : nat -> Q) (command : string) (confidence : Q)
    (inputs : list (string * Q)) (s : state) :
  passed rnd ((command, confidence) :: inputs) s =
  if lowConfidence confidence || fails rnd command s then passed rnd inputs s
  else command :: passed rnd inputs s.
Proof.
  unfold passed. rewrite filter_cons. simpl.
  destruct (lowConfidence confidence); [reflexivity|].
  destruct (fails rnd command s); reflexivity.
Qed.

Lemma passed_store (rnd : nat -> Q) (inputs : list (string * Q)) (s s' : state) :
  devices s' = devices s -> passed rnd inputs s' = passed rnd inputs s.
Proof.
  intros H. induction inputs as [|[command confidence] inputs IH]; [reflexivity|].
  rewrite !passed_cons, IH, (fails_store rnd command s s' H). reflexivity.
Qed.

Section History.

Variable rnd : nat -> Q.
Variable positive : string -> bool.

(** X10 (history, in a row): after a row of utterances, the history holds
    the utterances that passed the gate of the confidence and whose
    execution did not throw, the newest first, each with its parse, before
    the entries it had, and only the first ten of them all; the rejected
    utterances, and those that end on an exception, leave no entry. *)
Theorem history_records (inputs : list (string * Q)) (s : state) :
  (length (commandHistory s) <= 10)%nat ->
  commandHistory (process_all rnd inputs s) =
  take 10 (map (fun command => recorded command (now s)) (rev (passed rnd inputs s))
           ++ commandHistory s).
Proof.
  unfold process_all. revert s.
  induction inputs as [|[command confidence] inputs IH]; intros s Hs.
  - simpl. rewrite take_ge by lia. reflexivity.
  - cbn [foldl fst snd].
    rewrite IH, processCommand_now, processCommand_history, passed_cons,
      (passed_store rnd inputs s _ (processCommand_devices rnd command confidence s)).
    + destruct (lowConfidence confidence || fails rnd command s); [reflexivity|].
      rewrite take_app_take by lia. cbn [rev].
      rewrite map_app, <- app_assoc. reflexivity.
    + rewrite processCommand_history.
      destruct (lowConfidence confidence || fails rnd command s); [exact Hs|].
      rewrite length_take. lia.
Qed.

End History.

Lemma history_records_witness :
  let inputs := [("turn on the lights", 1%Q); ("dim the lights", 1 # 2);
                 ("lights on in constructor", 1%Q); ("hello", 9 # 10)] in
  (length (commandHistory s0) <= 10)%nat /\
  passed rnd0 inputs s0 = ["turn on the lights"; "hello"] /\
  commandHistory (process_all rnd0 inputs s0) =
  take 10 (map (fun command => recorded command (now s0)) (rev (passed rnd0 inputs s0))
           ++ commandHistory s0).
Proof.
  intros inputs. split; [simpl; lia|].
  split; [vm_compute; reflexivity | apply history_records; simpl; lia].
Defined.

Section HistoryEvents.

Variable rnd : nat -> Q.
Variable positive : string -> bool.

Lemma fire_fields (tk : task) (s : state) :
  commandHistory (fire rnd tk s) = commandHistory s /\ now (fire rnd tk s) = now s.
Proof.
  destruct tk as [device room action val|room device val|sceneName
                 |id room device action| |]; simpl.
  - destruct (assign _ device val (devices s)); [destruct room|]; auto.
  - destruct (assign room device val (devices s)); auto.
  - auto.
  - destruct (activeTimers s !! id); [|auto].
    destruct (assign room device (timerValue action) (devices s)); auto.
  - auto.
  - auto.
Qed.

(** What an event does to the history and to the clock. *)
Lemma event_step_history (s s' : state) :
  event_step rnd positive s s' ->
  now s <= now s' /\
  (commandHistory s' = commandHistory s \/
   exists command,
     commandHistory s' = take 10 (recorded command (now s) :: commandHistory s)).
Proof.
  intros Hstep. destruct Hstep as [s s' H|results s|o s|room device s|h s].
  - destruct H as [command confidence s|t s Ht|i due tk s Hq Hdue].
    + rewrite processCommand_now, processCommand_history. split; [lia|].
      destruct (lowConfidence confidence || fails rnd command s); eauto.
    + simpl. auto.
    + destruct (fire_fields tk (set_queue (delete i (queue s)) s)) as [H1 H2].
      rewrite H1, H2. simpl. split; [lia | auto].
  - rewrite onresult_cases. destruct (String.eqb (trim (finals results)) "").
    + split; [lia | auto].
    + rewrite processCommand_now, processCommand_history. split; [lia|].
      destruct (lowConfidence (heard results) || fails rnd _ s); eauto.
  - unfold processWhisperAudio. destruct o as [message|r]; [simpl; split; [lia|auto]|].
    destruct (_ && _).
    + pose proof (processCommand_now rnd (trim (r_text r))
                    (confidence_of (r_confidence r)) s) as Hn.
      pose proof (processCommand_history rnd (trim (r_text r))
                    (confidence_of (r_confidence r)) s) as Hh.
      destruct (processCommand _ _ _ _) as [s1|message s1]; simpl in *;
        rewrite Hn, Hh; (split; [lia|]);
        destruct (lowConfidence _ || fails rnd _ s); eauto.
    + split_ifs; simpl; (split; [lia | auto]).
  - unfold clickDeviceCard. destruct (_ || _); [split; [lia | auto]|].
    destruct (currentValue room device s) as [current|];
      [|simpl; split; [lia | auto]].
    destruct (toggle positive room device current) as [command|];
      [|split; [lia | auto]].
    match goal with
    | |- context [executeCommand rnd command ?st] =>
        destruct (executeCommand_history rnd command st) as [H1 H2]
    end. rewrite H1, H2. simpl. split; [lia | auto].
  - destruct h as [|[|] status]; simpl.
    + destruct (useWhisperBackend s); simpl; (split; [lia | auto]).
    + destruct (String.eqb status "healthy"); simpl; (split; [lia | auto]).
    + split; [lia | auto].
Qed.

(** X11 (history, always): whatever happens to the application, by voice, by
    click, by a callback or as time passes, the history never holds more
    than ten entries, each entry records the parse of its own utterance
    and whether there was one, and no entry is stamped later than the
    clock. *)
Theorem history_bounded (start s : state) :
  (length (commandHistory start) <= 10)%nat ->
  Forall (fun e => entry_ok e /\ e_timestamp e <= now start) (commandHistory start) ->
  event_reachable rnd positive start s ->
  (length (commandHistory s) <= 10)%nat /\
  Forall (fun e => entry_ok e /\ e_timestamp e <= now s) (commandHistory s).
Proof.
  intros Hlen Hall Hreach. induction Hreach as [|s s' _ [IH1 IH2] Hstep].
  - auto.
  - destruct (event_step_history s s' Hstep) as [Hnow [H|[command H]]]; rewrite H.
    + split; [exact IH1|]. eapply Forall_impl; [exact IH2|].
      simpl. intros e [? ?]. split; [assumption | lia].
    + split; [rewrite length_take; lia|]. apply Forall_take. constructor.
      * split; [apply recorded_ok | simpl; lia].
      * eapply Forall_impl; [exact IH2|].
        simpl. intros e [? ?]. split; [assumption | lia].
Qed.

End HistoryEvents.

Lemma history_bounded_witness :
  let s1 := processCommand rnd0 "turn on the lights" 1 s0 in
  (length (commandHistory s1) <= 10)%nat /\
  Forall (fun e => entry_ok e /\ e_timestamp e <= now s1) (commandHistory s1).
Proof.
  intros s1.
  apply (history_bounded rnd0 (fun _ => false) s0 s1).
  - simpl. lia.
  - constructor.
  - apply (ev_next rnd0 _ s0 s0); [apply ev_start|].
    apply ev_core, step_utterance.
Defined.

End HandlersFacts.

(** ** The voice *)

Module VoiceFacts.
Import Str Home Handlers Vocabulary Parser HomeFacts HandlersFacts.

Section Voice.

Variable rnd : nat -> Q.

Ltac quiet H :=
  eexists; rewrite <- ?app_assoc;
  split; [reflexivity|];
  split;
  [ repeat constructor; simpl; rewrite ?H, ?andb_false_r; simpl; exact I
  | simpl; rewrite ?andb_false_r; try exact H; reflexivity ].

Lemma fire_quiet (tk : task) (s : state) :
  synthesis s && voiceResponseEnabled s = false ->
  exists l, log (fire rnd tk s) = log s ++ l /\ Forall unvoiced l /\
            synthesis (fire rnd tk s) && voiceResponseEnabled (fire rnd tk s) = false.
Proof.
  intros H.
  destruct tk as [device room action val|room device val|sceneName
                 |id room device action| |]; simpl; unfold escape.
  - destruct (assign _ device val (devices s));
      [destruct room | destruct (inherited _)]; simpl; quiet H.
  - destruct (assign room device val (devices s)); simpl.
    + exists []. rewrite app_nil_r. auto.
    + destruct (inherited _); quiet H.
  - quiet H.
  - destruct (activeTimers s !! id).
    + destruct (assign room device (timerValue action) (devices s));
        [|destruct (inherited _)]; simpl; quiet H.
    + exists []. rewrite app_nil_r. auto.
  - quiet H.
  - quiet H.
Qed.

Lemma scheduleSteps_voice (steps : list (string * string * value)) (index : Z)
    (s : state) :
  synthesis (scheduleSteps steps index s) = synthesis s /\
  voiceResponseEnabled (scheduleSteps steps index s) = voiceResponseEnabled s.
Proof.
  revert index s. induction steps as [|[[room device] val] steps IH];
    intros index s; simpl; [auto|].
  destruct (IH (index + 1) (setTimeout (SceneStep room device val) (index * 500) s))
    as [H1 H2]. rewrite H1, H2. auto.
Qed.

Lemma executeCommand_quiet (i : intent) (s : state) :
  synthesis s && voiceResponseEnabled s = false ->
  i <> Settings "enable_voice" ->
  exists l, log (executeCommand rnd i s) = log s ++ l /\ Forall unvoiced l /\
            synthesis (executeCommand rnd i s)
            && voiceResponseEnabled (executeCommand rnd i s) = false.
Proof.
  intros H Hi.
  destruct i as [|a|device room action duration unit|a|device room action val]; simpl.
  - unfold showHelp. simpl. quiet H.
  - unfold executeScene. destruct (scene a) as [steps|]; simpl;
      [|destruct (inherited a); simpl; quiet H].
    match goal with
    | |- context [scheduleSteps steps 0 ?st] =>
        destruct (scheduleSteps_voice steps 0 st) as [H1 H2];
        rewrite (scheduleSteps_log steps 0 st), H1, H2
    end. simpl. quiet H.
  - unfold setTimer. destruct room; simpl; quiet H.
  - unfold handleSettings.
    destruct (String.eqb a "disable_voice"); [simpl; quiet H|].
    destruct (String.eqb_spec a "enable_voice") as [->|_]; [congruence|].
    destruct (String.eqb a "use_whisper").
    { destruct (whisperAvailable s); simpl; quiet H. }
    destruct (String.eqb a "use_webspeech"); [simpl; quiet H|].
    exists []. rewrite app_nil_r. auto.
  - unfold room_of, deviceNotFound, respond.
    destruct (devices s !! key room) as [r|];
      [ destruct (r !! "hasOwnProperty"); [|destruct (r !! device)]
      | destruct (inherited (key room)); [destruct (member_owns _ _)|] ];
      destruct room; simpl;
      first [ solve [exists []; rewrite app_nil_r; auto] | quiet H ].
Qed.

Lemma processCommand_quiet (command : string) (confidence : Q) (s : state) :
  synthesis s && voiceResponseEnabled s = false ->
  parseCommand (toLowerCase command) <> Some (Settings "enable_voice") ->
  exists l, log (processCommand rnd command confidence s) = log s ++ l /\
            Forall unvoiced l /\
            synthesis (processCommand rnd command confidence s)
            && voiceResponseEnabled (processCommand rnd command confidence s) = false.
Proof.
  intros H Hp. unfold processCommand.
  destruct (lowConfidence confidence); [simpl; quiet H|].
  destruct (parseCommand (toLowerCase command)) as [parsed|]; [|simpl; quiet H].
  match goal with
  | |- context [executeCommand rnd parsed ?st] =>
      destruct (executeCommand_quiet parsed st H) as (l & Hl & Hu & Hf);
      [congruence|];
      destruct (executeCommand rnd parsed st) as [s2|message s2]
  end; simpl in *; rewrite Hl; rewrite <- app_assoc; (eexists; split; [reflexivity|]);
    (split; [|exact Hf]); (constructor; [exact I | exact Hu]).
Qed.

(** X12 (voice): without a synthesizer or with the voice responses disabled,
    what a callback says and what the application answers to an utterance
    is written to the log but not voiced, and the application stays mute,
    as long as the utterance is not the order to enable the voice. *)
Theorem muted_stays_silent (s : state) :
  synthesis s && voiceResponseEnabled s = false ->
  (forall tk, exists l,
     log (fire rnd tk s) = log s ++ l /\ Forall unvoiced l /\
     synthesis (fire rnd tk s) && voiceResponseEnabled (fire rnd tk s) = false) /\
  (forall command confidence,
     parseCommand (toLowerCase command) <> Some (Settings "enable_voice") ->
     exists l,
       log (processCommand rnd command confidence s) = log s ++ l /\
       Forall unvoiced l /\
       synthesis (processCommand rnd command confidence s)
       && voiceResponseEnabled (processCommand rnd command confidence s) = false).
Proof.
  intros H. split.
  - intros tk. apply fire_quiet. exact H.
  - intros command confidence Hp. apply processCommand_quiet; assumption.
Qed.

(** X13 (voice, disabling): the order to disable the voice, on any state,
    is confirmed in the log only: its spoken confirmation comes after the
    switch and is never voiced; after the order to enable the voice, with
    a synthesizer, the confirmation is voiced. *)
Theorem voice_switch (command : string) (s : state) :
  (parseCommand (toLowerCase command) = Some (Settings "disable_voice") ->
   exists stamp text,
     log (processCommand rnd command 1 s) =
     log s ++ [Panel stamp text Normal;
               Panel None "Voice responses disabled" Success;
               Say false "Voice responses are now disabled."] /\
     voiceResponseEnabled (processCommand rnd command 1 s) = false) /\
  (parseCommand (toLowerCase command) = Some (Settings "enable_voice") ->
   exists stamp text,
     log (processCommand rnd command 1 s) =
     log s ++ [Panel stamp text Normal;
               Panel None "Voice responses enabled" Success;
               Say (synthesis s) "Voice responses are now enabled."] /\
     voiceResponseEnabled (processCommand rnd command 1 s) = true).
Proof.
  split; intros Hp; unfold processCommand;
    change (lowConfidence 1) with false; cbv iota; rewrite Hp; simpl;
    rewrite <- !app_assoc; simpl; rewrite ?andb_false_r, ?andb_true_r;
    eauto.
Qed.

End Voice.

Lemma muted_stays_silent_witness :
  let s := set_voiceResponseEnabled false s0 in
  exists l,
    log (processCommand rnd0 "turn on the lights" 1 s) = log s ++ l /\
    Forall unvoiced l /\
    synthesis (processCommand rnd0 "turn on the lights" 1 s)
    && voiceResponseEnabled (processCommand rnd0 "turn on the lights" 1 s) = false.
Proof.
  intros s.
  apply (proj2 (muted_stays_silent rnd0 s (andb_false_r _)) "turn on the lights" 1%Q).
  vm_compute. discriminate.
Defined.

Lemma voice_switch_witness :
  exists stamp text,
    log (processCommand rnd0 "Please disable voice" 1 s0) =
    log s0 ++ [Panel stamp text Normal;
               Panel None "Voice responses disabled" Success;
               Say false "Voice responses are now disabled."] /\
    voiceResponseEnabled (processCommand rnd0 "Please disable voice" 1 s0) = false.
Proof.
  apply (proj1 (voice_switch rnd0 "Please disable voice" s0)).
  vm_compute. reflexivity.
Defined.

End VoiceFacts.

(** ** The choice of the recognizer *)

Module BackendFacts.
Import Str Home Handlers Vocabulary Parser HomeFacts HandlersFacts.

(** X14 (recognizer): the application records for the transcription service
    only when that service was chosen and its last check answered
    [healthy]: a check that fails clears the choice itself, a check that
    answers decides by the status, a check with an answer that is not ok
    changes nothing; the order to use the service takes effect only when
    the service is available, and the order to use the browser always
    does. *)
Theorem whisper_only_when_healthy (s : state) :
  listensWithWhisper (checkWhisperAvailability Unreachable s) = false /\
  useWhisperBackend (checkWhisperAvailability Unreachable s) = false /\
  (forall status,
     listensWithWhisper (checkWhisperAvailability (Health true status) s) =
     useWhisperBackend s && String.eqb status "healthy") /\
  (forall status, checkWhisperAvailability (Health false status) s = s) /\
  listensWithWhisper (handleSettings "use_whisper" s) = whisperAvailable s /\
  listensWithWhisper (handleSettings "use_webspeech" s) = false.
Proof.
  unfold listensWithWhisper. split; [|split; [|split; [|split; [|split]]]].
  - simpl. destruct (useWhisperBackend s) eqn:E; simpl; rewrite ?E; reflexivity.
  - simpl. destruct (useWhisperBackend s) eqn:E; simpl; rewrite ?E; reflexivity.
  - intros status. simpl.
    destruct (String.eqb status "healthy"); simpl; rewrite ?andb_true_r, ?andb_false_r;
      reflexivity.
  - reflexivity.
  - unfold handleSettings. simpl.
    destruct (whisperAvailable s) eqn:E; simpl; rewrite ?E, ?andb_false_r; reflexivity.
  - reflexivity.
Qed.

End BackendFacts.

(** ** The answers *)

Module AnswerFacts.
Import Str Home Handlers Vocabulary Parser HomeFacts HandlersFacts.

Lemma Qfloor_range (x : Q) (a b : Z) :
  (inject_Z a <= x)%Q -> (x < inject_Z b)%Q -> a <= Qfloor x < b.
Proof.
  intros Ha Hb. split.
  - rewrite <- (Qfloor_Z a). apply Qfloor_resp_le. exact Ha.
  - rewrite Zlt_Qlt. eapply Qle_lt_trans; [apply Qfloor_le | exact Hb].
Qed.

Lemma pick_range (u : Q) (n : nat) :
  (0 <= u)%Q -> (u < 1)%Q -> (0 < n)%nat -> (pick u n < n)%nat.
Proof.
  intros H0 H1 Hn. unfold pick.
  destruct (Qfloor_range (u * inject_Z (Z.of_nat n)) 0 (Z.of_nat n)) as [Hl Hu].
  - apply Qmult_le_0_compat; [exact H0|].
    change 0%Q with (inject_Z 0). rewrite <- Zle_Qle. lia.
  - rewrite <- (Qmult_1_l (inject_Z (Z.of_nat n))) at 2.
    apply Qmult_lt_compat_r; [|exact H1].
    change 0%Q with (inject_Z 0). rewrite <- Zlt_Qlt. lia.
  - lia.
Qed.

(** X15 (answers): on a draw of [Math.random], which is at least 0 and below
    1, the answer to an utterance that was not understood is one of the
    four canned sentences and the answer to a command that succeeded is
    one of the seven canned openings, a blank and the message: the index
    is never out of range, so that no answer reads [undefined]. *)
Theorem responses_canned (u : Q) (message : string) :
  (0 <= u)%Q -> (u < 1)%Q ->
  In (unrecognizedResponse u) unrecognized_variations /\
  exists opening, In opening success_variations /\
                  successResponse u message = opening +:+ " " +:+ message.
Proof.
  intros H0 H1. unfold unrecognizedResponse, successResponse, variation. split.
  - apply nth_In. apply pick_range; [assumption | assumption | simpl; lia].
  - eexists. split; [|reflexivity].
    apply nth_In. apply pick_range; [assumption | assumption | simpl; lia].
Qed.

Lemma responses_canned_witness :
  In (unrecognizedResponse (3 # 4)) unrecognized_variations /\
  exists opening, In opening success_variations /\
                  successResponse (3 # 4) "Music playing in bedroom" =
                  opening +:+ " " +:+ "Music playing in bedroom".
Proof.
  apply (responses_canned (3 # 4) "Music playing in bedroom");
    vm_compute; [discriminate | reflexivity].
Defined.

(** The delay of the device response is from 200 to 700 milliseconds: the
    product with 500 and the sum with 200 are rounded, and the sum reaches
    700 on the largest draw below 1. *)
Lemma responseDelay_range (u : Q) :
  (0 <= u)%Q -> (u < 1)%Q -> 200 <= responseDelay u <= 700.
Proof.
  intros H0 H1. unfold responseDelay.
  destruct (NumFacts.double_between 0 500 (u * 500)) as [Hl Hu].
  - apply Qmult_le_0_compat; [exact H0 | discriminate].
  - rewrite <- (Qmult_1_l (inject_Z 500)). apply Qmult_le_compat_r; [|discriminate].
    apply Qlt_le_weak, H1.
  - vm_compute. discriminate.
  - destruct (NumFacts.double_between 200 700 (Num.double (u * 500) + 200))
      as [Hl2 Hu2].
    + rewrite <- (Qplus_0_l (inject_Z 200)).
      apply Qplus_le_compat; [exact Hl | apply Qle_refl].
    + change (inject_Z 700) with (inject_Z 500 + 200)%Q.
      apply Qplus_le_compat; [exact Hu | apply Qle_refl].
    + vm_compute. discriminate.
    + split.
      * rewrite <- (Qfloor_Z 200). apply Qfloor_resp_le. exact Hl2.
      * rewrite <- (Qfloor_Z 700). apply Qfloor_resp_le. exact Hu2.
Qed.

Example responseDelay_ends :
  responseDelay 0 = 200 /\ responseDelay (1 # 2) = 450 /\
  responseDelay (9007199254740991 # 9007199254740992) = 700.
Proof. vm_compute. repeat split; reflexivity. Qed.

Section Latency.

Variable rnd : nat -> Q.

(** X16 (latency): a device command for a device that the room has changes
    nothing at once: it registers one callback, due from 200 to 700
    milliseconds later, and the store, the storage and the log are as
    before; the value is written when that callback fires. *)
Theorem device_command_latency (device room action : string) (val : value)
    (r : gmap string value) (s : state) :
  devices s !! room = Some r -> r !! "hasOwnProperty" = None ->
  is_Some (r !! device) ->
  (0 <= rnd (draws s))%Q -> (rnd (draws s) < 1)%Q ->
  let s' : state := executeCommand rnd (Device device (Room room) action val) s in
  exists due,
    queue s' = queue s ++ [(due, ApplyCommand device (Room room) action val)] /\
    now s + 200 <= due <= now s + 700 /\
    devices s' = devices s /\ saved s' = saved s /\ log s' = log s /\
    get (devices (fire rnd (ApplyCommand device (Room room) action val) s'))
      room device = Some val.
Proof.
  intros Hr Hh [v Hv] H0 H1 s'.
  assert (Hs' : s' = setTimeout (ApplyCommand device (Room room) action val)
                       (responseDelay (rnd (draws s))) (set_draws (S (draws s)) s)).
  { unfold s'. simpl. unfold room_of. simpl. rewrite Hr, Hh, Hv. reflexivity. }
  clearbody s'. subst s'.
  exists (now s + responseDelay (rnd (draws s))).
  split; [reflexivity|].
  split; [|split; [reflexivity | split; [reflexivity | split; [reflexivity|]]]].
  - pose proof (responseDelay_range _ H0 H1). lia.
  - apply (fire_ApplyCommand rnd device room action val). simpl. rewrite Hr. eauto.
Qed.

End Latency.

Lemma device_command_latency_witness :
  let s' : state :=
    executeCommand rnd0 (Device "lights" (Room "kitchen") "on" (VNum 100)) s0 in
  exists due,
    queue s' = queue s0 ++
               [(due, ApplyCommand "lights" (Room "kitchen") "on" (VNum 100))] /\
    now s0 + 200 <= due <= now s0 + 700 /\
    devices s' = devices s0 /\ saved s' = saved s0 /\ log s' = log s0 /\
    get (devices (fire rnd0 (ApplyCommand "lights" (Room "kitchen") "on" (VNum 100)) s'))
      "kitchen" "lights" = Some (VNum 100).
Proof.
  apply (device_command_latency rnd0 "lights" "kitchen" "on" (VNum 100)
           {[ "lights" := VNum 0; "thermostat" := VNum 68;
              "security" := VStr "disarmed" ]} s0).
  - vm_compute. reflexivity.
  - vm_compute. reflexivity.
  - vm_compute. eauto.
  - vm_compute. discriminate.
  - vm_compute. reflexivity.
Defined.

End AnswerFacts.

(** ** The store and the events *)

Module StoreFacts.
Import Str Regex Normalizer Home Handlers Vocabulary Parser HomeFacts IntentFacts HandlersFacts.

Section Store.

Variable rnd : nat -> Q.
Variable positive : string -> bool.

Lemma onresult_devices (results : list segment) (s : state) :
  devices (onresult rnd results s) = devices s.
Proof.
  unfold onresult. destruct (collect results "" 0) as [text confidence].
  destruct (trim text); [reflexivity|]. apply processCommand_devices.
Qed.

Lemma processWhisperAudio_devices (o : outcome) (s : state) :
  devices (processWhisperAudio rnd o s) = devices s.
Proof.
  unfold processWhisperAudio. destruct o as [message|r]; [reflexivity|].
  destruct (_ && _); [|split_ifs; reflexivity].
  pose proof (processCommand_devices rnd (trim (r_text r))
                (confidence_of (r_confidence r)) s) as H.
  destruct (processCommand _ _ _ _); exact H.
Qed.

Lemma clickDeviceCard_devices (room device : string) (s : state) :
  devices (clickDeviceCard rnd positive room device s) = devices s.
Proof.
  unfold clickDeviceCard. destruct (_ || _); [reflexivity|].
  destruct (currentValue room device s) as [current|]; [|reflexivity].
  destruct (toggle positive room device current); [|reflexivity].
  rewrite executeCommand_devices. reflexivity.
Qed.

Lemma checkWhisperAvailability_devices (h : health) (s : state) :
  devices (checkWhisperAvailability h s) = devices s.
Proof.
  destruct h as [|[|] status]; simpl; [| |reflexivity].
  - destruct (useWhisperBackend s); reflexivity.
  - destruct (String.eqb status "healthy"); reflexivity.
Qed.


Lemma assign_keeps (room device room' device' : string) (val : value)
    (d d' : store) :
  assign room device val d = Some d' ->
  is_Some (get d room' device') -> is_Some (get d' room' device').
Proof.
  intros Ha Hg.
  destruct (decide (room' = room)) as [->|Hr].
  - destruct (decide (device' = device)) as [->|Hd].
    + rewrite (get_assign_eq _ _ _ _ _ Ha). eauto.
    + rewrite (get_assign_ne _ _ _ _ _ _ _ Ha); auto.
  - rewrite (get_assign_ne _ _ _ _ _ _ _ Ha); auto.
Qed.

Lemma fire_keeps (tk : task) (s : state) (room device : string) :
  is_Some (get (devices s) room device) ->
  is_Some (get (devices (fire rnd tk s)) room device).
Proof.
  intros Hg.
  destruct tk as [dev r action val|r dev val|sceneName|id r dev action| |]; simpl.
  - destruct (assign (key r) dev val (devices s)) as [d|] eqn:Hd; [|exact Hg].
    destruct r; exact (assign_keeps _ _ _ _ _ _ _ Hd Hg).
  - destruct (assign r dev val (devices s)) as [d|] eqn:Hd; [|exact Hg].
    exact (assign_keeps _ _ _ _ _ _ _ Hd Hg).
  - exact Hg.
  - destruct (activeTimers s !! id); [|exact Hg].
    destruct (assign r dev (timerValue action) (devices s)) as [d|] eqn:Hd;
      [|exact Hg].
    exact (assign_keeps _ _ _ _ _ _ _ Hd Hg).
  - exact Hg.
  - exact Hg.
Qed.

Lemma event_step_keeps (s s' : state) (room device : string) :
  event_step rnd positive s s' ->
  is_Some (get (devices s) room device) ->
  is_Some (get (devices s') room device).
Proof.
  intros Hstep Hg. destruct Hstep as [s s' H|results s|o s|r d s|h s].
  - destruct H as [command confidence s|t s Ht|i due tk s Hq Hdue].
    + rewrite processCommand_devices. exact Hg.
    + exact Hg.
    + apply fire_keeps. exact Hg.
  - rewrite onresult_devices. exact Hg.
  - rewrite processWhisperAudio_devices. exact Hg.
  - rewrite clickDeviceCard_devices. exact Hg.
  - rewrite checkWhisperAvailability_devices. exact Hg.
Qed.

Lemma event_reachable_keeps (start s : state) (room device : string) :
  event_reachable rnd positive start s ->
  is_Some (get (devices start) room device) ->
  is_Some (get (devices s) room device).
Proof.
  intros Hreach Hg. induction Hreach as [|s s' _ IH Hstep]; [exact Hg|].
  exact (event_step_keeps _ _ _ _ Hstep IH).
Qed.

Lemma patterns_security (r : regex) (action : captures -> intent)
    (m : captures) (room : location) (act : string) (val : value) :
  In (r, action) patterns -> action m = Device "security" room act val ->
  room = Room "kitchen".
Proof.
  intros H. ParserFacts.each_pattern H; try discriminate.
  intros [= <- _ _]. reflexivity.
Qed.

(** X18 (devices found): once the store holds the devices of the default
    states, it holds them whatever happens, and a device command of the
    parser for a room always finds its room and its device, but for the
    music in the kitchen.  The one other device command of the parser is
    for no room: its room phrase reads [constructor] or [__proto__], and
    its room is the member that every object inherits under that name. *)
Theorem voice_command_finds_device (start s : state)
    (command device : string) (room : location) (action : string) (val : value) :
  (forall r d, is_Some (get defaultStates r d) -> is_Some (get (devices start) r d)) ->
  event_reachable rnd positive start s ->
  parseCommand command = Some (Device device room action val) ->
  match room with
  | Room id =>
      is_Some (devices s !! id) /\
      (is_Some (get (devices s) id device) \/ (device = "music" /\ id = "kitchen"))
  | Member name => name = "constructor" \/ name = "__proto__"
  end.
Proof.
  intros Hstart Hreach Hp.
  assert (Hk : forall r d, is_Some (get defaultStates r d) ->
                           is_Some (get (devices s) r d)).
  { intros r d H. apply (event_reachable_keeps start); auto. }
  clear Hstart Hreach.
  destruct (parseCommand_shape _ _ Hp)
    as [H|[(a & H & _)|[(a & H & _)|[(m & _ & H)|(r & act & m & Hin & Hm & H)]]]];
    try discriminate.
  destruct (patterns_coherent r act m command Hin Hm)
    as (device' & room' & action' & val' & Hact & Hc & Hroom).
  assert (Hs := patterns_security r act m).
  rewrite <- H in Hact. injection Hact as <- <- <- <-.
  specialize (Hs room action val Hin).
  destruct room as [id|name]; [|exact Hroom]. simpl in Hroom.
  assert (Hl : is_Some (get (devices s) id "lights")).
  { apply Hk. destruct Hroom as [<-|[<-|[<-|[]]]]; vm_compute; eauto. }
  split.
  { unfold get in Hl. destruct (devices s !! id); [eauto|].
    destruct Hl as [x Hx]. discriminate Hx. }
  destruct Hc as [[-> _]|[(-> & _)|[[-> _]|[-> _]]]].
  - left. exact Hl.
  - left. apply Hk. destruct Hroom as [<-|[<-|[<-|[]]]]; vm_compute; eauto.
  - destruct Hroom as [<-|[<-|[<-|[]]]].
    + left. apply Hk. vm_compute. eauto.
    + left. apply Hk. vm_compute. eauto.
    + right. auto.
  - left. rewrite <- H in Hs. specialize (Hs eq_refl). injection Hs as ->.
    apply Hk. vm_compute. eauto.
Qed.

End Store.


Lemma voice_command_finds_device_witness :
  (is_Some (devices s0 !! "kitchen") /\
   (is_Some (get (devices s0) "kitchen" "music") \/
    ("music" = "music" /\ "kitchen" = "kitchen"))) /\
  ("constructor" = "constructor" \/ "constructor" = "__proto__").
Proof.
  split.
  - apply (voice_command_finds_device rnd0 (fun _ => false) s0 s0
             "play music in the kitchen" "music" (Room "kitchen") "play"
             (VStr "playing")).
    + intros r d H. exact H.
    + apply ev_start.
    + vm_compute. reflexivity.
  - apply (voice_command_finds_device rnd0 (fun _ => false) s0 s0
             "lights on in constructor" "lights" (Member "constructor") "on"
             (VNum 100)).
    + intros r d H. exact H.
    + apply ev_start.
    + vm_compute. reflexivity.
Defined.

End StoreFacts.

(** ** The order of the rules *)

Module KeywordFacts.
Import Str Prefix Normalizer Home Handlers Vocabulary Parser StrFacts NormalizerFacts
  IntentFacts.

Lemma includes_contains (s sub : string) :
  contains s sub -> includes s sub = true.
Proof.
  intros (a & b & ->). induction a as [|c a IH].
  - assert (H : startsWith (sub +:+ b) sub = true).
    { apply startsWith_prefix. exists b. reflexivity. }
    change ("" +:+ sub +:+ b) with (sub +:+ b).
    destruct (sub +:+ b); simpl; rewrite H; reflexivity.
  - change (String c a +:+ sub +:+ b) with (String c (a +:+ sub +:+ b)).
    simpl. rewrite IH. destruct (startsWith _ sub); reflexivity.
Qed.

(** X19 (order of the rules): an utterance that contains one of the three
    keywords of the help anywhere is a request for help, whatever else it
    says; one that contains a keyword of a scene is a request for help or
    for a scene, never a timer, a setting or a device command. *)
Theorem keyword_precedence (command : string) :
  (forall kw, In kw ["help"; "what can you do"; "commands"] ->
              contains command kw -> parseCommand command = Some Help) /\
  (forall kw, In kw ["movie mode"; "cinema mode"; "goodnight"; "good night";
                     "wake up"; "morning mode"; "party mode"; "party time"] ->
              contains command kw ->
              parseCommand command = Some Help \/
              exists a, In a scene_names /\ parseCommand command = Some (Scene a)).
Proof.
  split; intros kw Hkw Hc; simpl in Hkw;
    repeat (destruct Hkw as [<-|Hkw]); try contradiction;
    apply includes_contains in Hc; unfold parseCommand, has; rewrite ?Hc;
    rewrite ?orb_true_r; simpl;
    repeat (match goal with
            | |- context [if ?b then _ else _] => destruct b; simpl
            end);
    rewrite ?Hc, ?orb_true_r; simpl;
    first [ reflexivity | left; reflexivity
          | right; eexists; split; [|reflexivity]; simpl; tauto ].
Qed.

Lemma keyword_precedence_witness :
  parseCommand "no help needed, turn on the lights" = Some Help.
Proof.
  apply (proj1 (keyword_precedence "no help needed, turn on the lights") "help").
  - simpl. auto.
  - exists "no ", " needed, turn on the lights". reflexivity.
Defined.

(** X20 (room identifiers): the three room identifiers are fixed points of
    the normalization, [living-room] through the prefix scan since it is no
    key of the table: a room identifier that the normalization returns is
    one of the three, and normalizes to itself. *)
Theorem normalizeRoom_idempotent (s id : string) :
  normalizeRoom s = Room id ->
  In id room_ids /\ normalizeRoom id = Room id.
Proof.
  intros Hs. pose proof (normalizeRoom_id s) as H. rewrite Hs in H. simpl in H.
  split; [simpl; exact H|].
  destruct H as [<-|[<-|[<-|[]]]]; vm_compute; reflexivity.
Qed.

Lemma normalizeRoom_idempotent_witness :
  In "living-room" room_ids /\ normalizeRoom "living-room" = Room "living-room".
Proof.
  apply (normalizeRoom_idempotent "the garage" "living-room"). reflexivity.
Defined.

End KeywordFacts.

(** ** The scenes *)

Module SceneFacts.
Import Str Normalizer Home Handlers Vocabulary HomeFacts HandlersFacts.

Lemma step_firings_due (steps : list (string * string * value)) (index t : Z) :
  Forall (fun e => t + index * 500 <= fst e) (step_firings steps index t).
Proof.
  revert index. induction steps as [|[[room device] val] steps IH]; intros index;
    simpl; constructor.
  - simpl. lia.
  - eapply Forall_impl; [apply (IH (index + 1))|]. simpl. intros e He. lia.
Qed.

Lemma scene_rooms (sceneName : string) (steps : list (string * string * value)) :
  scene sceneName = Some steps ->
  Forall (fun st => In (fst (fst st)) room_ids) steps.
Proof.
  unfold scene, scenes. simpl.
  repeat (match goal with
          | |- context [if ?b then _ else _] => destruct b
          end; [intros [= <-]; repeat constructor; simpl; tauto|]).
  discriminate.
Qed.

Section Scenes.

Variable rnd : nat -> Q.

Lemma scheduleSteps_queue (steps : list (string * string * value)) (index : Z)
    (s : state) :
  queue (scheduleSteps steps index s) = queue s ++ step_firings steps index (now s).
Proof.
  revert index s. induction steps as [|[[room device] val] steps IH];
    intros index s; simpl.
  - rewrite app_nil_r. reflexivity.
  - rewrite IH. simpl. rewrite <- app_assoc. reflexivity.
Qed.

Lemma scheduleSteps_rest (steps : list (string * string * value)) (index : Z)
    (s : state) :
  let s' := scheduleSteps steps index s in
  saved s' = saved s /\ draws s' = draws s /\ synthesis s' = synthesis s /\
  voiceResponseEnabled s' = voiceResponseEnabled s /\ now s' = now s.
Proof.
  revert index s. induction steps as [|[[room device] val] steps IH];
    intros index s; simpl; [auto 6|].
  destruct (IH (index + 1) (setTimeout (SceneStep room device val) (index * 500) s))
    as (H1 & H2 & H3 & H4 & H5).
  rewrite H1, H2, H3, H4, H5. auto 6.
Qed.

(** The host runs the steps of a scene in their order, then the
    confirmation. *)
Lemma drain_steps (sceneName : string) (steps : list (string * string * value)) :
  forall (index t done : Z) (s : state),
    queue s = step_firings steps index t ++ [(done, SceneDone sceneName)] ->
    now s <= t + index * 500 ->
    t + (index + Z.of_nat (length steps)) * 500 <= done ->
    Forall (fun st => is_Some (devices s !! fst (fst st))) steps ->
    exists s',
      drain rnd (S (length steps)) s =
        (step_firings steps index t ++ [(done, SceneDone sceneName)], s') /\
      devices s' = run_steps steps (devices s) /\
      saved s' = saved s /\ queue s' = [] /\ now s' = done /\
      log s' = log s ++
        [Say (synthesis s && voiceResponseEnabled s)
           (successResponse (rnd (draws s)) (sceneName +:+ " mode activated."))].
Proof.
  induction steps as [|[[room device] val] steps IH];
    intros index t done s Hq Hnow Hdone Hrooms.
  - simpl in Hq, Hdone. cbn [length step_firings app].
    rewrite (drain_head rnd 0 s done (SceneDone sceneName) [] Hq) by constructor.
    simpl. replace (Z.max (now s) done) with done by lia.
    eexists. split; [reflexivity|]. simpl.
    rewrite successResponse_nonempty, andb_true_r. auto 6.
  - simpl in Hq. cbn [length step_firings app] in *.
    rewrite (drain_head rnd (S (length steps)) s _ _ _ Hq).
    2:{ apply Forall_app. split.
        - eapply Forall_impl; [apply (step_firings_due steps (index + 1) t)|].
          simpl. intros e He. lia.
        - repeat constructor. simpl. lia. }
    replace (Z.max (now s) (t + index * 500)) with (t + index * 500) by lia.
    inversion Hrooms as [|st l Hroom Hrest]; subst. simpl in Hroom.
    match goal with
    | |- context [fire rnd (SceneStep room device val) ?st] =>
        destruct (fire_SceneStep rnd room device val st) as (d & Hd & Hf);
        [exact Hroom|]
    end.
    rewrite Hf. simpl in Hd.
    match goal with
    | |- context [drain rnd (S (length steps)) ?st] =>
        destruct (IH (index + 1) t done st) as (s' & Hs' & H1 & H2 & H3 & H4 & H5)
    end.
    + reflexivity.
    + simpl. lia.
    + lia.
    + simpl. eapply Forall_impl; [exact Hrest|].
      intros st. apply (assign_rooms _ _ _ _ _ _ Hd).
    + rewrite Hs'. exists s'. split; [reflexivity|].
      simpl in H1, H2, H5. simpl. rewrite Hd. simpl. auto 6.
Qed.

(** X21 (scenes): for each of the four scenes, called with nothing pending
    and the three rooms in the store, the host fires the steps in the
    order of their declaration, the step of index [i] at 500 ms times [i]
    after the call, and the confirmation last, 500 ms after the last step;
    nothing is left pending; the store is then the store of the call with
    the steps written one after the other, while the saved snapshot is
    the store of the call: no step of any scene is saved. *)
Theorem scene_runs (sceneName : string) (steps : list (string * string * value))
    (s : state) :
  scene sceneName = Some steps -> queue s = [] ->
  (forall room, In room room_ids -> is_Some (devices s !! room)) ->
  exists s',
    settle rnd (executeScene sceneName s) =
      (step_firings steps 0 (now s)
       ++ [(now s + Z.of_nat (length steps) * 500, SceneDone sceneName)], s') /\
    devices s' = run_steps steps (devices s) /\
    saved s' = Some (devices s) /\
    queue s' = [] /\
    log s' = log s ++
      [ Panel None ("Executing " +:+ sceneName +:+ " scene...") Success;
        Say (synthesis s && voiceResponseEnabled s)
          ("Activating " +:+ sceneName +:+ " mode.");
        Say (synthesis s && voiceResponseEnabled s)
          (successResponse (rnd (draws s)) (sceneName +:+ " mode activated.")) ].
Proof.
  intros Hscene Hq Hrooms.
  set (s1 := executeScene sceneName s).
  assert (Hs1 : s1 = executeScene sceneName s) by reflexivity.
  unfold executeScene in Hs1. rewrite Hscene in Hs1.
  match type of Hs1 with
  | context [scheduleSteps steps 0 ?x] => set (st := x) in Hs1
  end.
  assert (Hst : queue st = [] /\ now st = now s /\ devices st = devices s /\
                draws st = draws s /\ synthesis st = synthesis s /\
                voiceResponseEnabled st = voiceResponseEnabled s /\
                log st = log s ++
                  [ Panel None ("Executing " +:+ sceneName +:+ " scene...") Success;
                    Say (synthesis s && voiceResponseEnabled s)
                      ("Activating " +:+ sceneName +:+ " mode.") ]).
  { unfold st. unfold_ops. simpl. rewrite <- app_assoc.
    change ("Activating " +:+ sceneName +:+ " mode.")
      with (String "A" ("ctivating " +:+ sceneName +:+ " mode.")).
    simpl. rewrite andb_true_r. auto 8. }
  destruct Hst as (S1 & S2 & S3 & S4 & S5 & S6 & S7). clearbody st.
  pose proof (scheduleSteps_queue steps 0 st) as Hsq.
  pose proof (scheduleSteps_rest steps 0 st) as (R1 & R2 & R3 & R4 & R5).
  pose proof (scheduleSteps_devices steps 0 st) as Rd.
  pose proof (scheduleSteps_log steps 0 st) as Rl.
  rewrite S1 in Hsq. simpl in Hsq.
  assert (Hq1 : queue s1 = step_firings steps 0 (now s)
                ++ [(now s + Z.of_nat (length steps) * 500, SceneDone sceneName)]).
  { rewrite Hs1. unfold_ops. simpl. rewrite Hsq, R5, S2. reflexivity. }
  assert (Hn1 : now s1 = now s). { rewrite Hs1. simpl. rewrite R5. exact S2. }
  assert (Hd1 : devices s1 = devices s). { rewrite Hs1. simpl. rewrite Rd. exact S3. }
  assert (Hv1 : saved s1 = Some (devices s)).
  { rewrite Hs1. unfold_ops. simpl. rewrite Rd, S3. reflexivity. }
  assert (Hl1 : log s1 = log st). { rewrite Hs1. simpl. exact Rl. }
  assert (Hf1 : draws s1 = draws s /\ synthesis s1 = synthesis s /\
                voiceResponseEnabled s1 = voiceResponseEnabled s).
  { rewrite Hs1. simpl. rewrite R2, R3, R4. auto. }
  rewrite S7 in Hl1.
  clear Hs1 Hsq R1 R2 R3 R4 R5 Rd Rl S1 S2 S3 S4 S5 S6 S7. clearbody s1. clear st.
  destruct (drain_steps sceneName steps 0 (now s)
              (now s + Z.of_nat (length steps) * 500) s1)
    as (s' & Hs' & H1 & H2 & H3 & H4 & H5).
  - exact Hq1.
  - lia.
  - lia.
  - rewrite Hd1. eapply Forall_impl; [exact (scene_rooms _ _ Hscene)|].
    intros e. apply Hrooms.
  - exists s'. unfold settle. rewrite Hq1, length_app. simpl length.
    replace (length (step_firings steps 0 (now s)) + 1)%nat
      with (S (length steps)).
    2:{ clear. generalize 0. induction steps as [|[[room device] val] steps IH];
          intros i; simpl; [reflexivity|]. rewrite <- IH. reflexivity. }
    rewrite Hs'. split; [reflexivity|].
    destruct Hf1 as (F1 & F2 & F3).
    rewrite H1, H2, H5, Hd1, Hv1, Hl1, F1, F2, F3, <- app_assoc. auto.
Qed.

End Scenes.

Lemma scene_runs_witness :
  exists s',
    settle rnd0 (executeScene "party" s0) =
      (step_firings [ ("living-room", "lights", VNum 100);
                      ("bedroom", "lights", VNum 75);
                      ("kitchen", "lights", VNum 100);
                      ("living-room", "music", VStr "playing") ] 0 (now s0)
       ++ [(now s0 + Z.of_nat 4 * 500, SceneDone "party")], s') /\
    devices s' =
      run_steps [ ("living-room", "lights", VNum 100);
                  ("bedroom", "lights", VNum 75);
                  ("kitchen", "lights", VNum 100);
                  ("living-room", "music", VStr "playing") ] (devices s0) /\
    saved s' = Some (devices s0) /\
    queue s' = [] /\
    log s' = log s0 ++
      [ Panel None ("Executing " +:+ "party" +:+ " scene...") Success;
        Say (synthesis s0 && voiceResponseEnabled s0)
          ("Activating " +:+ "party" +:+ " mode.");
        Say (synthesis s0 && voiceResponseEnabled s0)
          (successResponse (rnd0 (draws s0)) ("party" +:+ " mode activated.")) ].
Proof.
  apply (scene_runs rnd0 "party"
           [ ("living-room", "lights", VNum 100);
             ("bedroom", "lights", VNum 75);
             ("kitchen", "lights", VNum 100);
             ("living-room", "music", VStr "playing") ] s0).
  - vm_compute. reflexivity.
  - reflexivity.
  - intros room H. simpl in H.
    destruct H as [<-|[<-|[<-|[]]]]; vm_compute; eauto.
Defined.

End SceneFacts.

